(** * LinkedIn Easy Apply agent: answer engine and form navigation

    A shallow embedding of [question_answerer.py] and [form_filler.py].

    Text is modelled by [string] (sequences of 8-bit characters), so the
    development covers ASCII labels, keys and answers: [lower], [strip],
    [split] and the regular-expression word boundary are Python's on that
    range.  YAML values are the dynamically typed [pyval]; integers are [Z]
    (floating-point numbers are outside the model).  The three fact tables
    ([personal], [background], [eligibility]) are dictionaries that are only
    ever looked up, hence [gmap string pyval]; the three rule tables are
    iterated in insertion order, hence association lists. *)

From Stdlib Require Import ZArith List Bool Ascii String DecimalString Lia Sorted.
From stdpp Require Import base gmap strings.
Import ListNotations.
Local Open Scope string_scope.

(** ** Python strings *)

Module Py.

(** [str.isspace] on the ASCII range: TAB, LF, VT, FF, CR, FS, GS, RS, US
    and the space. *)
Definition is_space (c : ascii) : bool :=
  let n := nat_of_ascii c in
  (((9 <=? n) && (n <=? 13)) || ((28 <=? n) && (n <=? 32)))%nat.

Definition is_upper (c : ascii) : bool :=
  let n := nat_of_ascii c in ((65 <=? n) && (n <=? 90))%nat.

Definition lower_char (c : ascii) : ascii :=
  if is_upper c then ascii_of_nat (nat_of_ascii c + 32) else c.

(** [s.lower()] *)
Fixpoint lower (s : string) : string :=
  match s with
  | "" => ""
  | String c s' => String (lower_char c) (lower s')
  end.

Fixpoint lstrip (s : string) : string :=
  match s with
  | "" => ""
  | String c s' => if is_space c then lstrip s' else s
  end.

Fixpoint rstrip (s : string) : string :=
  match s with
  | "" => ""
  | String c s' =>
      match rstrip s' with
      | "" => if is_space c then "" else String c ""
      | r => String c r
      end
  end.

(** [s.strip()] *)
Definition strip (s : string) : string := rstrip (lstrip s).

(** [s.startswith(p)] *)
Fixpoint startswith (s p : string) : bool :=
  match p with
  | "" => true
  | String c p' =>
      match s with
      | "" => false
      | String d s' => Ascii.eqb c d && startswith s' p'
      end
  end.

(** [sub in s] *)
Fixpoint str_in (sub s : string) : bool :=
  startswith s sub ||
  match s with
  | "" => false
  | String _ s' => str_in sub s'
  end.

(** [s.split()]: the maximal runs of non-whitespace characters. *)
Fixpoint split (s : string) : list string :=
  match s with
  | "" => []
  | String c s' =>
      if is_space c then split s'
      else match s' with
           | "" => [String c ""]
           | String d _ =>
               if is_space d then String c "" :: split s'
               else match split s' with
                    | w :: ws => String c w :: ws
                    | [] => [String c ""]
                    end
           end
  end.

(** The class [\w] of [re] on the ASCII range: letters, digits, underscore. *)
Definition is_word (c : ascii) : bool :=
  let n := nat_of_ascii c in
  (((48 <=? n) && (n <=? 57)) || ((65 <=? n) && (n <=? 90)) ||
   ((97 <=? n) && (n <=? 122)) || (n =? 95))%nat.

(** Is the character at the head of [s] a word character?  Past the end of
    the text there is none. *)
Definition head_is_word (s : string) : bool :=
  match s with
  | "" => false
  | String c _ => is_word c
  end.

(** [match_word prev w s]: the literal [w] followed by [\b] matches at the
    head of [s]; [prev] tells whether the character just before is a word
    character. *)
Fixpoint match_word (prev : bool) (w s : string) : bool :=
  match w with
  | "" => xorb prev (head_is_word s)
  | String c w' =>
      match s with
      | "" => false
      | String d s' => Ascii.eqb c d && match_word (is_word c) w' s'
      end
  end.

(** [\b w \b] matches at the head of [s]. *)
Definition match_at (prev : bool) (w s : string) : bool :=
  xorb prev (head_is_word s) && match_word prev w s.

Fixpoint search_from (prev : bool) (w s : string) : bool :=
  match_at prev w s ||
  match s with
  | "" => false
  | String c s' => search_from (is_word c) w s'
  end.

(** [re.search(r"\b" + re.escape(word) + r"\b", q)] finds a match. *)
Definition re_search_word (word q : string) : bool :=
  search_from false word q.

(** Is the last character of [s] a word character?  [prev] answers for
    the empty text. *)
Fixpoint last_is_word (prev : bool) (s : string) : bool :=
  match s with
  | "" => prev
  | String c s' => last_is_word (is_word c) s'
  end.

(** [w], between [pre] and [post], stands between two word boundaries. *)
Definition whole_word_at (pre w post : string) : Prop :=
  xorb (last_is_word false pre) (head_is_word (w ++ post)) = true /\
  xorb (last_is_word false (pre ++ w)) (head_is_word post) = true.

(** Keywords that [strip] cannot cut: the first, respectively the last,
    character exists and is not whitespace. *)
Definition first_solid (w : string) : bool :=
  match w with
  | "" => false
  | String c _ => negb (is_space c)
  end.

Fixpoint last_solid (w : string) : bool :=
  match w with
  | "" => false
  | String c "" => negb (is_space c)
  | String _ w' => last_solid w'
  end.

(** Dynamically typed values, as loaded from the YAML configuration. *)
Inductive pyval : Type :=
  | PyNone
  | PyBool (b : bool)
  | PyInt (n : Z)
  | PyStr (s : string).

(** [bool(v)], also the test of [if v:]. *)
Definition truthy (v : pyval) : bool :=
  match v with
  | PyNone => false
  | PyBool b => b
  | PyInt n => negb (n =? 0)%Z
  | PyStr s => negb (s =? "")
  end.

Definition str_of_Z (n : Z) : string := NilZero.string_of_int (Z.to_int n).

(** [str(v)] *)
Definition py_str (v : pyval) : string :=
  match v with
  | PyNone => "None"
  | PyBool true => "True"
  | PyBool false => "False"
  | PyInt n => str_of_Z n
  | PyStr s => s
  end.

(** Exceptions that the modelled code can meet. *)
Inductive exn : Type :=
  | AttributeError
  | TypeError
  | IndexError
  | NoSuchElementException
  | StaleElementReferenceException
  | ElementNotInteractableException
  | TimeoutException.

Inductive result (A : Type) : Type :=
  | Ok (a : A)
  | Raise (e : exn).
Arguments Ok {A} a.
Arguments Raise {A} e.

Definition bind_result {A B : Type} (r : result A) (k : A -> result B)
  : result B :=
  match r with
  | Ok a => k a
  | Raise e => Raise e
  end.

(** [v.lower()]: only strings have the method. *)
Definition py_lower (v : pyval) : result string :=
  match v with
  | PyStr s => Ok (lower s)
  | _ => Raise AttributeError
  end.

(** [d.get(key, dflt)] *)
Definition dict_get (d : gmap string pyval) (key : string) (dflt : pyval) : pyval :=
  default dflt (d !! key).

(** [d[key] = v] on an insertion-ordered dictionary: an existing key keeps
    its place and takes the new value, a new key goes last. *)
Fixpoint dict_set {V : Type} (d : list (string * V)) (key : string) (v : V)
  : list (string * V) :=
  match d with
  | [] => [(key, v)]
  | (k, v') :: d' =>
      if k =? key then (k, v) :: d' else (k, v') :: dict_set d' key v
  end.

(** [{k.lower(): v for k, v in items}] *)
Definition lower_keys {V : Type} (items : list (string * V)) : list (string * V) :=
  fold_left (fun d kv => dict_set d (lower (fst kv)) (snd kv)) items [].

End Py.

(** The error monad, with stdpp's [x ← r; k] notation. *)
#[global] Instance result_ret : MRet Py.result := @Py.Ok.
#[global] Instance result_bind : MBind Py.result := fun A B k r => Py.bind_result r k.

(** ** question_answerer.py *)

Module QA.
Import Py.

(** The [config] dictionary; an absent section is [None]. *)
Record Answers : Type := {
  yes_no : option (list (string * pyval));
  numeric : option (list (string * pyval));
  star_answers : option (list (string * string))
}.

Record Config : Type := {
  cfg_personal : option (gmap string pyval);
  cfg_background : option (gmap string pyval);
  cfg_eligibility : option (gmap string pyval);
  cfg_answers : option Answers
}.

(** The attributes of a [QuestionAnswerer].  The rule tables are typed as
    the class annotates them; [bool(val)] is kept for the yes/no values.
    The narrative answers are strings, so that [answer.strip()] is defined:
    a narrative answer of another type is outside the model. *)
Record QuestionAnswerer : Type := {
  personal : gmap string pyval;
  background : gmap string pyval;
  eligibility : gmap string pyval;
  yes_no_map : list (string * pyval);
  numeric_map : list (string * pyval);
  star_map : list (string * string)
}.

(** [QuestionAnswerer.__init__] *)
Definition init (config : Config) : QuestionAnswerer :=
  let answers_cfg :=
    default {| yes_no := None; numeric := None; star_answers := None |}
            (cfg_answers config) in
  {| personal := default ∅ (cfg_personal config);
     background := default ∅ (cfg_background config);
     eligibility := default ∅ (cfg_eligibility config);
     yes_no_map := lower_keys (default [] (yes_no answers_cfg));
     numeric_map := lower_keys (default [] (numeric answers_cfg));
     star_map := lower_keys (default [] (star_answers answers_cfg)) |}.

Section Engine.
Variable self : QuestionAnswerer.

(** [for key, val in table.items(): if key in q: return val] *)
Definition first_rule {V : Type} (table : list (string * V)) (q : string)
  : option (string * V) :=
  find (fun kv => str_in (fst kv) q) table.

Definition _is_yes_no_question (q : string) : bool :=
  existsb (startswith q)
          ["are "; "is "; "do "; "will "; "have "; "can "; "were "; "did "].

Definition _lookup_yes_no (q : string) : bool :=
  match first_rule (yes_no_map self) q with
  | Some (_, val) => truthy val
  | None =>
      if str_in "sponsorship" q || str_in "visa" q then
        truthy (dict_get (eligibility self) "require_sponsorship" (PyBool false))
      else if str_in "authorized" q || str_in "eligible" q then
        truthy (dict_get (eligibility self) "legally_authorized" (PyBool true))
      else true
  end.

Definition _lookup_numeric (q : string) : pyval :=
  match first_rule (numeric_map self) q with
  | Some (_, val) => val
  | None =>
      if str_in "experience" q then
        dict_get (background self) "years_of_experience" (PyInt 2)
      else if str_in "notice" q then
        dict_get (background self) "notice_period_days" (PyInt 0)
      else if str_in "salary" q || str_in "ctc" q || str_in "compensation" q then
        dict_get (background self) "expected_salary" (PyInt 600000)
      else PyInt 0
  end.

Definition _dropdown_hint (q : string) : pyval :=
  if str_in "country" q then
    dict_get (personal self) "country" (PyStr "India")
  else if str_in "currency" q then
    dict_get (background self) "currency" (PyStr "INR")
  else if str_in "education" q || str_in "degree" q then
    dict_get (background self) "highest_education" (PyStr "Bachelor")
  else if str_in "experience" q then
    PyStr (py_str (dict_get (background self) "years_of_experience" (PyInt 2)))
  else PyStr "".

(** The test of the narrative loop:
    [any(re.search(r"\b" + re.escape(word) + r"\b", q) for word in key.split())] *)
Definition star_hit (key q : string) : bool :=
  existsb (fun word => re_search_word word q) (split key).

(** The rule at which the loop over [star_map.items()] returns, if any. *)
Definition star_rule (q : string) : option (string * string) :=
  find (fun kv => star_hit (fst kv) q) (star_map self).

Definition cover_letter_text : string :=
  "I am deeply passionate about cybersecurity and incident response. " ++
  "My hands-on experience with SIEM tools and threat detection aligns " ++
  "well with this role and I am eager to contribute to your SOC team.".

Definition generic_text : string :=
  "I am a cybersecurity professional with experience in SOC operations, " ++
  "threat detection, and incident response. I am excited about this " ++
  "opportunity and look forward to contributing to your team.".

(** The chain of well-known fields that follows the narrative loop. *)
Definition common_field (q : string) : pyval :=
  if str_in "first name" q then
    dict_get (personal self) "first_name" (PyStr "")
  else if str_in "last name" q || str_in "surname" q then
    dict_get (personal self) "last_name" (PyStr "")
  else if str_in "email" q then
    dict_get (personal self) "email" (PyStr "")
  else if str_in "phone" q || str_in "mobile" q then
    dict_get (personal self) "phone" (PyStr "")
  else if str_in "city" q then
    dict_get (personal self) "city" (PyStr "Bangalore")
  else if str_in "linkedin" q then
    dict_get (personal self) "linkedin_profile" (PyStr "")
  else if str_in "github" q then
    dict_get (personal self) "github_url" (PyStr "")
  else if str_in "portfolio" q || str_in "website" q then
    dict_get (personal self) "portfolio_url" (PyStr "")
  else if str_in "salary" q || str_in "ctc" q || str_in "compensation" q then
    PyStr (py_str (dict_get (background self) "expected_salary" (PyStr "600000")))
  else if str_in "notice" q then
    PyStr (py_str (dict_get (background self) "notice_period_days" (PyInt 0)))
  else if str_in "experience" q then
    PyStr (py_str (dict_get (background self) "years_of_experience" (PyInt 2)))
  else if str_in "cover letter" q || str_in "motivation" q then
    PyStr cover_letter_text
  else PyStr generic_text.

Definition _free_text_answer (q : string) : pyval :=
  match star_rule q with
  | Some (_, answer) => PyStr (strip answer)
  | None => common_field q
  end.

Definition answer (question_text field_type : string) : pyval :=
  let q := strip (lower question_text) in
  if field_type =? "boolean" then
    PyStr (if _lookup_yes_no q then "Yes" else "No")
  else if field_type =? "numeric" then
    PyStr (py_str (_lookup_numeric q))
  else if field_type =? "dropdown" then
    _dropdown_hint q
  else _free_text_answer q.

(** [for opt in options: if test(opt): return opt] *)
Definition first_option (test : string -> bool) (options : list string)
  : option string :=
  find test options.

(** The four keyword blocks of [best_dropdown_option]; each yields the
    option it returns, or [None] when control falls through to the next. *)
Definition education_block (q : string) (options : list string)
  : result (option string) :=
  if str_in "education" q || str_in "degree" q then
    target ← py_lower (dict_get (background self) "highest_education" (PyStr ""));
    mret (first_option
            (fun opt => negb (target =? "") && str_in target (lower opt)) options)
  else mret None.

Definition experience_block (q : string) (options : list string)
  : result (option string) :=
  if str_in "experience" q then
    let years := py_str (dict_get (background self) "years_of_experience" (PyInt 2)) in
    mret (first_option (fun opt => str_in years opt) options)
  else mret None.

Definition country_block (q : string) (options : list string)
  : result (option string) :=
  if str_in "country" q then
    country ← py_lower (dict_get (personal self) "country" (PyStr "India"));
    mret (first_option (fun opt => str_in country (lower opt)) options)
  else mret None.

Definition currency_block (q : string) (options : list string)
  : result (option string) :=
  if str_in "currency" q then
    currency ← py_lower (dict_get (background self) "currency" (PyStr "INR"));
    mret (first_option (fun opt => str_in currency (lower opt)) options)
  else mret None.

(** A block that returned an option ends the function; otherwise the next
    statement runs. *)
Definition or_next (block : result (option string)) (next : result string)
  : result string :=
  found ← block;
  match found with
  | Some opt => mret opt
  | None => next
  end.

Definition best_dropdown_option (question_text : string) (options : list string)
  : result string :=
  match options with
  | [] => mret ""
  | options_0 :: _ =>
      let q := lower question_text in
      if _is_yes_no_question q then
        let want := if _lookup_yes_no q then "Yes" else "No" in
        match first_option (fun opt => str_in (lower want) (lower opt)) options with
        | Some opt => mret opt
        | None => mret options_0
        end
      else
        or_next (education_block q options)
       (or_next (experience_block q options)
       (or_next (country_block q options)
       (or_next (currency_block q options)
                (mret options_0))))
  end.

End Engine.
(** [s.replace(c, "")] for a one-character [c]. *)
Fixpoint delete_char (c : ascii) (s : string) : string :=
  match s with
  | "" => ""
  | String d s' =>
      if Ascii.eqb d c then delete_char c s' else String d (delete_char c s')
  end.

(** [re.sub(r"\s+", " ", s)]: every maximal run of whitespace becomes one
    space; [in_run] tells that the run has already been replaced. *)
Fixpoint collapse_from (in_run : bool) (s : string) : string :=
  match s with
  | "" => ""
  | String c s' =>
      if is_space c then
        if in_run then collapse_from true s'
        else String " " (collapse_from true s')
      else String c (collapse_from false s')
  end.

Definition collapse_spaces (s : string) : string := collapse_from false s.

(** [QuestionAnswerer.clean_label], a static method. *)
Definition clean_label (text : string) : string :=
  strip (collapse_spaces (delete_char "*" text)).

End QA.

(** ** The browser surface

    The page under automation, as far as [form_filler.py] observes it: the
    form controls of the Easy Apply modal in document order, the [label]
    elements bound by [for], and the buttons of the document.  A
    [WebElement] handle is the position of its control; a handle that
    points at nothing is stale.  The page reacts to a click on a button by
    navigating ([navigate], left to the site); writes to a control change
    that control only, as a browser does by default.

    The surface is a quiet one: a handle that a lookup returned stays
    valid for the rest of the pass, a click on a button that was found
    succeeds, and an [id] can stand between the quotes of a selector as it
    is (see [XSpec.selector_safe]).  A control that the page replaces in
    mid-pass, an intercepted click and a malformed selector are faults of
    the driver that this surface does not produce.  Most of them the code
    does not catch, so that they end the run with an exception; the
    properties below that speak of a run that has completed, or of a run
    whether it completes or raises, are stated so as to hold then as
    well. *)

Module Dom.
Import Py.

Inductive Kind : Type :=
  | TextInput   (* input of type text, email, tel or number *)
  | Textarea
  | SelectList
  | Radio
  | Checkbox
  | FileInput.

#[global] Instance Kind_eq_dec : EqDecision Kind.
Proof. solve_decision. Defined.

Record SelectOption : Type := {
  o_text : string;
  o_value : option string
}.

Record Field : Type := {
  kind : Kind;
  aria_label : option string;      (* attribute aria-label *)
  placeholder : option string;     (* attribute placeholder *)
  el_id : option string;           (* attribute id *)
  name : option string;            (* attribute name *)
  value : option string;           (* typed text, chosen option, file path *)
  ancestor_label : option string;  (* text found by ancestor::label *)
  preceding_label : option string; (* text found by preceding-sibling::label[1] *)
  following_label : option string; (* text found by following-sibling::label *)
  options : list SelectOption;
  selected : bool;
  displayed : bool;
  enabled : bool;
  interactable : bool              (* false: a write raises ElementNotInteractableException *)
}.

Definition set_value (f : Field) (v : option string) : Field :=
  {| kind := kind f; aria_label := aria_label f; placeholder := placeholder f;
     el_id := el_id f; name := name f; value := v;
     ancestor_label := ancestor_label f; preceding_label := preceding_label f;
     following_label := following_label f; options := options f;
     selected := selected f; displayed := displayed f; enabled := enabled f;
     interactable := interactable f |}.

Definition set_selected (f : Field) (b : bool) : Field :=
  {| kind := kind f; aria_label := aria_label f; placeholder := placeholder f;
     el_id := el_id f; name := name f; value := value f;
     ancestor_label := ancestor_label f; preceding_label := preceding_label f;
     following_label := following_label f; options := options f;
     selected := b; displayed := displayed f; enabled := enabled f;
     interactable := interactable f |}.

Record Button : Type := {
  b_text : string;       (* the string value of the button element *)
  b_displayed : bool;
  b_enabled : bool
}.

Record Page : Type := {
  modal_present : bool;            (* is .jobs-easy-apply-modal located in time *)
  labels : list (string * string); (* label elements of the modal: for, text *)
  fields : list Field;
  buttons : list Button
}.

Definition set_fields (p : Page) (fs : list Field) : Page :=
  {| modal_present := modal_present p; labels := labels p; fields := fs;
     buttons := buttons p |}.

(** What the automation did to the surface, in order. *)
Inductive Event : Type :=
  | EvStep (n : nat)                    (* the log line of step [n] *)
  | EvClear (h : nat)
  | EvSendKeys (h : nat) (keys : string)
  | EvClickField (h : nat)
  | EvSelect (h : nat) (text : string)
  | EvClickButton (b : nat).

Record World : Type := {
  page : Page;
  trace : list Event
}.

(** Computations on the surface: a result or an exception, and the
    surface as the computation left it. *)
Definition M (A : Type) : Type := World -> result A * World.

Definition ret {A : Type} (a : A) : M A := fun w => (Ok a, w).

Definition raise {A : Type} (e : exn) : M A := fun w => (Raise e, w).

Definition bind {A B : Type} (m : M A) (k : A -> M B) : M B :=
  fun w =>
    match m w with
    | (Ok a, w') => k a w'
    | (Raise e, w') => (Raise e, w')
    end.

(** [try: m  except caught: handler] *)
Definition try_except {A : Type} (m : M A) (caught : exn -> bool) (handler : M A)
  : M A :=
  fun w =>
    match m w with
    | (Raise e, w') => if caught e then handler w' else (Raise e, w')
    | r => r
    end.

(** Lifting a call into the answer engine. *)
Definition lift {A : Type} (r : result A) : M A := fun w => (r, w).

End Dom.

Notation "'do' x <- m ; k" := (Dom.bind m (fun x => k))
  (at level 10, x name, m at level 99, k at level 200).
Notation "m ;; k" := (Dom.bind m (fun _ => k))
  (at level 100, k at level 200, right associativity).

(** ** WebDriver operations *)

Module Driver.
Import Py Dom.

Definition get_field (h : nat) : M Field :=
  fun w =>
    match fields (page w) !! h with
    | Some f => (Ok f, w)
    | None => (Raise StaleElementReferenceException, w)
    end.

Definition put_field (h : nat) (f : Field) : M unit :=
  fun w =>
    (Ok tt, {| page := set_fields (page w) (<[h := f]> (fields (page w)));
               trace := trace w |}).

Definition emit (e : Event) : M unit :=
  fun w => (Ok tt, {| page := page w; trace := (trace w ++ [e])%list |}).

(** [modal.find_elements(...)]: the handles of the controls of a kind, in
    document order. *)
Fixpoint handles_from (i : nat) (k : Kind) (fs : list Field) : list nat :=
  match fs with
  | [] => []
  | f :: fs' =>
      if decide (kind f = k) then i :: handles_from (S i) k fs'
      else handles_from (S i) k fs'
  end.

Definition find_elements (k : Kind) : M (list nat) :=
  fun w => (Ok (handles_from 0 k (fields (page w))), w).

Definition is_displayed (h : nat) : M bool :=
  do f <- get_field h; ret (displayed f).

Definition is_enabled (h : nat) : M bool :=
  do f <- get_field h; ret (enabled f).

Definition is_selected (h : nat) : M bool :=
  do f <- get_field h; ret (selected f).

(** [element.clear()] *)
Definition clear (h : nat) : M unit :=
  do f <- get_field h;
  if interactable f then
    put_field h (set_value f (Some "")) ;; emit (EvClear h)
  else raise ElementNotInteractableException.

(** [element.send_keys(keys)]: typed text is appended; a file input takes
    the path. *)
Definition send_keys (h : nat) (keys : string) : M unit :=
  do f <- get_field h;
  if interactable f then
    put_field h (set_value f (Some (match kind f with
                                    | FileInput => keys
                                    | _ => default "" (value f) ++ keys
                                    end))) ;;
    emit (EvSendKeys h keys)
  else raise ElementNotInteractableException.

(** Checking radio [h] unchecks the other radios that carry its name, when
    it has one. *)
Definition check_radio (h : nat) (f : Field) (fs : list Field) : list Field :=
  imap (fun j g =>
          if decide (j = h) then set_selected g true
          else if decide (kind g = Radio /\ name g = name f /\
                          default "" (name f) <> "")
               then set_selected g false
               else g) fs.

(** [element.click()] on a form control. *)
Definition click (h : nat) : M unit :=
  do f <- get_field h;
  if interactable f then
    (match kind f with
     | Radio =>
         fun w => (Ok tt, {| page := set_fields (page w)
                                        (check_radio h f (fields (page w)));
                             trace := trace w |})
     | Checkbox => put_field h (set_selected f (negb (selected f)))
     | _ => ret tt
     end) ;;
    emit (EvClickField h)
  else raise ElementNotInteractableException.

(** [Select(element).select_by_visible_text(text)] *)
Definition select_by_visible_text (h : nat) (text : string) : M unit :=
  do f <- get_field h;
  if existsb (fun o => o_text o =? text) (options f) then
    if interactable f then
      put_field h (set_value f (Some text)) ;; emit (EvSelect h text)
    else raise ElementNotInteractableException
  else raise NoSuchElementException.

(** [driver.find_element(By.XPATH, "//button[contains(., 'text')]")]: the
    first button of the document whose string value contains [text]. *)
Fixpoint first_button (i : nat) (text : string) (bs : list Button) : option nat :=
  match bs with
  | [] => None
  | b :: bs' =>
      if str_in text (b_text b) then Some i else first_button (S i) text bs'
  end.

Definition find_button (text : string) : M nat :=
  fun w =>
    match first_button 0 text (buttons (page w)) with
    | Some b => (Ok b, w)
    | None => (Raise NoSuchElementException, w)
    end.

Definition button_clickable (b : nat) : M bool :=
  fun w =>
    match buttons (page w) !! b with
    | Some btn => (Ok (b_displayed btn && b_enabled btn), w)
    | None => (Raise StaleElementReferenceException, w)
    end.

Section Site.
(** The page that a click on a button leads to. *)
Variable navigate : Page -> nat -> Page.

Definition click_button (b : nat) : M unit :=
  fun w =>
    (Ok tt, {| page := navigate (page w) b;
               trace := (trace w ++ [EvClickButton b])%list |}).
End Site.

(** [for x in xs: body(x)] *)
Fixpoint for_each {A : Type} (xs : list A) (body : A -> M unit) : M unit :=
  match xs with
  | [] => ret tt
  | x :: xs' => body x ;; for_each xs' body
  end.

(** A loop whose body can [break]: the body tells whether it did. *)
Fixpoint for_each_break {A : Type} (xs : list A) (body : A -> M bool) : M unit :=
  match xs with
  | [] => ret tt
  | x :: xs' =>
      do stop <- body x;
      if stop then ret tt else for_each_break xs' body
  end.

(** [any(test(x) for x in xs)], which stops at the first hit. *)
Fixpoint any_of {A : Type} (xs : list A) (test : A -> M bool) : M bool :=
  match xs with
  | [] => ret false
  | x :: xs' =>
      do hit <- test x;
      if hit then ret true else any_of xs' test
  end.

End Driver.

(** ** form_filler.py *)

Module FormFiller.
Import Py Dom Driver.

Section Filler.
(** The attributes of a [FormFiller]: the answer engine and the
    [documents] section of the configuration. *)
Variable qa : QA.QuestionAnswerer.
Variable docs : gmap string pyval.
(** The site behind the driver and the file system of the host. *)
Variable navigate : Page -> nat -> Page.
Variable abspath : string -> string.
Variable path_exists : string -> bool.

(** The clause [except (StaleElementReferenceException,
    ElementNotInteractableException): continue] around a loop body. *)
Definition stale_or_blocked (e : exn) : bool :=
  match e with
  | StaleElementReferenceException | ElementNotInteractableException => true
  | _ => false
  end.

Definition skip_field (body : M unit) : M unit :=
  try_except body stale_or_blocked (ret tt).

(** [label.text.strip()] of the first label bound to [id] by [for].  The
    code writes [id] between the quotes of [label[for='id']]; the lookup
    by equality is what that selector does for an [id] that can stand
    there as it is. *)
Definition label_for (ls : list (string * string)) (id : string) : option string :=
  option_map (fun l => strip (snd l)) (find (fun l => fst l =? id) ls).

(** [_get_label_for] on the control [f] of a modal with labels [ls]. *)
Definition label_of (ls : list (string * string)) (f : Field) : string :=
  let aria := default "" (aria_label f) in
  if negb (aria =? "") then aria
  else
    let hint := default "" (placeholder f) in
    if negb (hint =? "") then hint
    else
      let bound :=
        match el_id f with
        | Some id => if negb (id =? "") then label_for ls id else None
        | None => None
        end in
      match bound, ancestor_label f, preceding_label f with
      | Some text, _, _ => text
      | None, Some text, _ => strip text
      | None, None, Some text => strip text
      | None, None, None => ""
      end.

Definition _get_label_for (h : nat) : M string :=
  do f <- get_field h;
  fun w => (Ok (label_of (labels (page w)) f), w).

(** The body shared by the loops of [_fill_text_inputs] and
    [_fill_textareas]. *)
Definition fill_text (h : nat) : M unit :=
  skip_field
    (do shown <- is_displayed h;
     do active <- is_enabled h;
     if negb shown || negb active then ret tt
     else
       do f <- get_field h;
       let current_val := default "" (value f) in
       if negb (strip current_val =? "") then ret tt
       else
         do label_text <- _get_label_for h;
         let answer := QA.answer qa label_text "text" in
         if truthy answer then clear h ;; send_keys h (py_str answer)
         else ret tt).

Definition _fill_text_inputs : M unit :=
  do inputs <- find_elements TextInput;
  for_each inputs fill_text.

Definition _fill_textareas : M unit :=
  do textareas <- find_elements Textarea;
  for_each textareas fill_text.

(** The option texts offered to the engine: blank and placeholder entries
    are left out. *)
Definition eligible_options (f : Field) : list string :=
  map o_text
      (List.filter (fun o => negb (strip (o_text o) =? "") &&
                        match o_value o with
                        | Some v => negb ((v =? "") || (v =? "Select an option"))
                        | None => true
                        end)
              (options f)).

Definition _fill_selects : M unit :=
  do selects <- find_elements SelectList;
  for_each selects (fun sel =>
    skip_field
      (do shown <- is_displayed sel;
       do active <- is_enabled sel;
       if negb shown || negb active then ret tt
       else
         do label_text <- _get_label_for sel;
         do f <- get_field sel;
         let opts := eligible_options f in
         match opts with
         | [] => ret tt
         | _ =>
             do best <- lift (QA.best_dropdown_option qa label_text opts);
             select_by_visible_text sel best
         end)).

(** [groups.setdefault(name, []).append(radio)] *)
Fixpoint group_add (groups : list (string * list nat)) (nm : string) (h : nat)
  : list (string * list nat) :=
  match groups with
  | [] => [(nm, [h])]
  | (n, hs) :: groups' =>
      if n =? nm then (n, (hs ++ [h])%list) :: groups'
      else (n, hs) :: group_add groups' nm h
  end.

Fixpoint collect_groups (radios : list nat) (groups : list (string * list nat))
  : M (list (string * list nat)) :=
  match radios with
  | [] => ret groups
  | radio :: radios' =>
      do groups' <-
        try_except
          (do f <- get_field radio;
           ret (group_add groups (default "" (name f)) radio))
          (fun e => match e with StaleElementReferenceException => true | _ => false end)
          (ret groups);
      collect_groups radios' groups'
  end.

(** [answer.lower() in sib_label.lower() or sib_label.lower() in answer.lower()] *)
Definition overlaps (answer_l sib_label : string) : bool :=
  str_in answer_l (lower sib_label) || str_in (lower sib_label) answer_l.

(** The adjacent text of a radio; none when no label follows it. *)
Definition sibling_label (f : Field) : string :=
  match following_label f with
  | Some text => strip text
  | None => ""
  end.

(** The body of the loop over the members of one group; [true] is [break]. *)
Definition try_radio (answer_l : string) (radio : nat) : M bool :=
  do f <- get_field radio;
  let sib_label := sibling_label f in
  if overlaps answer_l sib_label then
    try_except (click radio ;; ret true)
               (fun e => match e with ElementNotInteractableException => true | _ => false end)
               (ret false)
  else ret false.

Definition fill_group (radio_list : list nat) : M unit :=
  do chosen <- any_of radio_list is_selected;
  if chosen then ret tt
  else
    match radio_list with
    | [] => raise IndexError (* radio_list[0]; a group is never empty *)
    | first :: _ =>
        do label_text <- _get_label_for first;
        let answer := QA.answer qa label_text "boolean" in
        do answer_l <- lift (py_lower answer);
        for_each_break radio_list (try_radio answer_l)
    end.

Definition _fill_radios : M unit :=
  do radios <- find_elements Radio;
  do groups <- collect_groups radios [];
  for_each groups (fun g => fill_group (snd g)).

Definition _fill_checkboxes : M unit :=
  do checkboxes <- find_elements Checkbox;
  for_each checkboxes (fun cb =>
    skip_field
      (do shown <- is_displayed cb;
       if negb shown then ret tt
       else
         do label_text <- _get_label_for cb;
         let label_text := lower label_text in
         if existsb (fun kw => str_in kw label_text)
                    ["agree"; "consent"; "acknowledge"; "confirm"] then
           do checked <- is_selected cb;
           if negb checked then click cb else ret tt
         else ret tt)).

(** [os.path.isabs] on a POSIX host. *)
Definition isabs (path : string) : bool := startswith path "/".

Definition _handle_file_uploads : M unit :=
  do file_inputs <- find_elements FileInput;
  for_each file_inputs (fun fi =>
    skip_field
      (do label_text <- _get_label_for fi;
       let label_text := lower label_text in
       let path :=
         if str_in "cover" label_text
         then dict_get docs "cover_letter_path" (PyStr "")
         else dict_get docs "cv_path" (PyStr "") in
       do abs_path <-
         (if truthy path then
            match path with
            | PyStr p => ret (if isabs p then p else abspath p)
            | _ => raise TypeError
            end
          else ret "");
       if negb (abs_path =? "") && path_exists abs_path
       then send_keys fi abs_path
       else ret tt)).

(** The six passes over the modal, once it has been located. *)
Definition fill_modal : M unit :=
  _fill_text_inputs ;;
  _fill_selects ;;
  _fill_radios ;;
  _fill_checkboxes ;;
  _fill_textareas ;;
  _handle_file_uploads.

Definition _fill_current_page : M unit :=
  fun w =>
    if modal_present (page w) then fill_modal w
    else (Ok tt, w) (* TimeoutException: the modal was not found *).

(** One turn of a navigation loop: look the button up and click it if it
    is displayed and enabled.  [true] is [return True]; [false] lets the
    caller go on (a button that is missing or cannot be clicked). *)
Definition probe (text : string) : M bool :=
  try_except
    (do btn <- find_button text;
     do ready <- button_clickable btn;
     if ready then click_button navigate btn ;; ret true else ret false)
    (fun e => match e with NoSuchElementException => true | _ => false end)
    (ret false).

Fixpoint probe_each (texts : list string) : M bool :=
  match texts with
  | [] => ret false
  | text :: texts' =>
      do clicked <- probe text;
      if clicked then ret true else probe_each texts'
  end.

Definition _try_submit : M bool := probe_each ["Submit application"; "Submit"].

Definition _try_next : M bool := probe_each ["Next"; "Continue"; "Review"].

Definition _try_review : M bool := probe "Review".

Definition max_steps : nat := 15.

(** The loop [for step in range(max_steps)] of [fill_application]. *)
Fixpoint run_steps (steps : list nat) : M bool :=
  match steps with
  | [] => ret false
  | step :: steps' =>
      emit (EvStep (step + 1)) ;;
      _fill_current_page ;;
      do submitted <- _try_submit;
      if submitted then ret true
      else
        do advanced <- _try_next;
        if advanced then run_steps steps'
        else
          do reviewed <- _try_review;
          if reviewed then run_steps steps'
          else ret false
  end.

Definition fill_application : M bool := run_steps (seq 0 max_steps).

End Filler.
End FormFiller.

(** * Specification vocabulary

    The predicates in which the properties below are stated. *)

Module Spec.
Import Py QA Dom Driver FormFiller.

(** No key of a rule table occurs in the text [q]. *)
Definition no_rule_in {V : Type} (table : list (string * V)) (q : string) : Prop :=
  Forall (fun kv => str_in (fst kv) q = false) table.

(** The facts on which [best_dropdown_option] calls [lower] are strings
    (or absent, the defaults being strings). *)
Definition is_text (v : pyval) : Prop := exists s, v = PyStr s.

Definition text_facts (self : QuestionAnswerer) : Prop :=
  is_text (dict_get (background self) "highest_education" (PyStr "")) /\
  is_text (dict_get (personal self) "country" (PyStr "India")) /\
  is_text (dict_get (background self) "currency" (PyStr "INR")).

(** No option passes [test]. *)
Definition none_of (test : string -> bool) (options : list string) : Prop :=
  Forall (fun opt => test opt = false) options.

(** No word of the key of any narrative rule in [table] is found in [q]
    between word boundaries. *)
Definition no_word_hit (table : list (string * string)) (q : string) : Prop :=
  Forall (fun kv => forall word, In word (split (fst kv)) ->
                                 re_search_word word q = false) table.

(** An engine with the narrative table [rules] and nothing else. *)
Definition narrator (rules : list (string * string)) : QuestionAnswerer :=
  {| personal := ∅; background := ∅; eligibility := ∅;
     yes_no_map := []; numeric_map := []; star_map := rules |}.

(** The event is an operation on the control with handle [h]. *)
Definition event_on (h : nat) (e : Event) : Prop :=
  match e with
  | EvClear h' | EvSendKeys h' _ | EvClickField h' | EvSelect h' _ => h' = h
  | EvStep _ | EvClickButton _ => False
  end.

(** The control already holds a value: it is not empty after trimming. *)
Definition filled (f : Field) : Prop := strip (default "" (value f)) <> "".

(** From [w] to [w'] the control [h] kept its state and no operation was
    performed on it. *)
Definition untouched (h : nat) (w w' : World) : Prop :=
  fields (page w') !! h = fields (page w) !! h /\
  exists evs, trace w' = (trace w ++ evs)%list /\
              Forall (fun e => ~ event_on h e) evs.

(** Every run of the computation [m] relates the surface before to the
    surface after by [R]. *)
Definition keeps {A : Type} (R : World -> World -> Prop) (m : M A) : Prop :=
  forall w, R w (snd (m w)).

(** A control that holds a value stays as it is. *)
Definition filled_kept (h : nat) (w w' : World) : Prop :=
  (exists f, fields (page w) !! h = Some f /\ filled f) -> untouched h w w'.

(** The event is an operation on a form control, not a step or a click on
    a button of the document. *)
Definition field_event (e : Event) : Prop :=
  match e with
  | EvClear _ | EvSendKeys _ _ | EvClickField _ | EvSelect _ _ => True
  | EvStep _ | EvClickButton _ => False
  end.

(** What a fill pass leaves alone: the buttons, the labels, the presence
    of the modal and the number of controls; and it only operates on
    controls. *)
Definition fill_frame (w w' : World) : Prop :=
  buttons (page w') = buttons (page w) /\
  labels (page w') = labels (page w) /\
  modal_present (page w') = modal_present (page w) /\
  length (fields (page w')) = length (fields (page w)) /\
  exists evs, trace w' = (trace w ++ evs)%list /\ Forall field_event evs.

Definition clickable (b : Button) : bool := b_displayed b && b_enabled b.

(** Button [i] is the first of [bs], in document order, whose text
    contains [text]: the element that [find_element] returns. *)
Definition first_match (text : string) (bs : list Button) (i : nat) (btn : Button)
  : Prop :=
  bs !! i = Some btn /\ str_in text (b_text btn) = true /\
  forall j b, j < i -> bs !! j = Some b -> str_in text (b_text b) = false.

(** A probe for [text] clicks nothing on the page: no button has the text,
    or the first that has it is hidden or disabled. *)
Definition probe_fails (text : string) (p : Page) : Prop :=
  Forall (fun b => str_in text (b_text b) = false) (buttons p) \/
  exists i btn, first_match text (buttons p) i btn /\ clickable btn = false.

(** A probe for [text] finds button [i] and can click it. *)
Definition probe_hits (text : string) (p : Page) (i : nat) : Prop :=
  exists btn, first_match text (buttons p) i btn /\ clickable btn = true.

(** The surface after a click on button [i] of a site that reacts by
    [navigate]. *)
Definition clicked (navigate : Page -> nat -> Page) (w : World) (i : nat) : World :=
  {| page := navigate (page w) i; trace := (trace w ++ [EvClickButton i])%list |}.

Definition is_step (e : Event) : bool :=
  match e with
  | EvStep _ => true
  | _ => false
  end.

(** The number of steps of the driving loop among the events. *)
Definition count_steps (evs : list Event) : nat :=
  length (List.filter is_step evs).

(** From [w] to [w'] at most [n] steps were run. *)
Definition steps_within (n : nat) (w w' : World) : Prop :=
  exists evs, trace w' = (trace w ++ evs)%list /\ count_steps evs <= n.

(** The fill pass over page [p] raises nothing. *)
Definition fill_completes (qa : QA.QuestionAnswerer) (docs : gmap string pyval)
    (abspath : string -> string) (path_exists : string -> bool) (p : Page) : Prop :=
  forall tr,
    fst (_fill_current_page qa docs abspath path_exists {| page := p; trace := tr |})
    = Ok tt.

(** The texts of the three navigation probes. *)
Definition probe_texts : list string :=
  ["Submit application"; "Submit"; "Next"; "Continue"; "Review"].

(** The key under which [_fill_radios] files a radio: its name, or the
    empty text. *)
Definition group_key (f : Field) : string := default "" (name f).

(** Handle [h] is a radio of the group [k] among the controls [fs]. *)
Definition member (fs : list Field) (k : string) (h : nat) : Prop :=
  exists f, fs !! h = Some f /\ kind f = Radio /\ group_key f = k.

(** The member of the group that comes first in the document. *)
Definition first_member (fs : list Field) (k : string) (h : nat) : Prop :=
  member fs k h /\ forall h', member fs k h' -> h <= h'.

Definition any_selected (fs : list Field) (k : string) : Prop :=
  exists h f, fs !! h = Some f /\ kind f = Radio /\ group_key f = k /\
              selected f = true.

(** The desired answer text, lower-cased, for the group whose first
    member is [f]: the boolean reply to the label of [f]. *)
Definition desired (qa : QA.QuestionAnswerer) (ls : list (string * string))
    (f : Field) : string :=
  lower (py_str (QA.answer qa (label_of ls f) "boolean")).

(** The surface after a successful click on radio [h], whose state was [f]. *)
Definition radio_clicked (w : World) (h : nat) (f : Field) : World :=
  {| page := set_fields (page w) (Driver.check_radio h f (fields (page w)));
     trace := (trace w ++ [EvClickField h])%list |}.

(** Every handle of the list points at a radio. *)
Definition radios_at (fs : list Field) (hs : list nat) : Prop :=
  Forall (fun h => exists f, fs !! h = Some f /\ kind f = Radio) hs.

Definition selected_at (fs : list Field) (h : nat) : bool :=
  match fs !! h with
  | Some f => selected f
  | None => false
  end.

(** The radios of [radios] filed under [k], in order. *)
Definition members_of (fs : list Field) (k : string) (radios : list nat) : list nat :=
  List.filter (fun h => match fs !! h with
                   | Some f => group_key f =? k
                   | None => false
                   end) radios.

(** The dictionary that the first loop of [_fill_radios] builds. *)
Fixpoint grouped (fs : list Field) (radios : list nat)
    (groups : list (string * list nat)) : list (string * list nat) :=
  match radios with
  | [] => groups
  | radio :: radios' =>
      match fs !! radio with
      | Some f => grouped fs radios' (group_add groups (group_key f) radio)
      | None => grouped fs radios' groups
      end
  end.

(** [groups.get(k, [])] *)
Definition group_get (groups : list (string * list nat)) (k : string) : list nat :=
  match find (fun g => fst g =? k) groups with
  | Some g => snd g
  | None => []
  end.

(** From [fs] to [fs'] only the checked state of controls changed. *)
Definition shape (fs fs' : list Field) : Prop :=
  forall h f, fs !! h = Some f -> exists b, fs' !! h = Some (set_selected f b).

(** From [w] to [w'] the members of group [k] kept their state and were
    not clicked; elsewhere only checked states changed. *)
Definition group_kept (k : string) (w w' : World) : Prop :=
  labels (page w') = labels (page w) /\
  shape (fields (page w)) (fields (page w')) /\
  (forall h, member (fields (page w)) k h ->
             fields (page w') !! h = fields (page w) !! h) /\
  exists evs, trace w' = (trace w ++ evs)%list /\
              forall h, member (fields (page w)) k h -> ~ In (EvClickField h) evs.

(** A group as [_fill_radios] holds it: a key and its radios, not empty. *)
Definition group_ok (fs : list Field) (g : string * list nat) : Prop :=
  snd g <> [] /\ Forall (member fs (fst g)) (snd g).

(** The body of the loop of [_fill_radios] over the groups. *)
Definition group_body (qa : QA.QuestionAnswerer) (g : string * list nat) : M unit :=
  fill_group qa (snd g).

(** What the radio pass, which went from [w] to [w'] by the events [evs],
    owes to the group [k]. *)
Definition group_verdict (qa : QA.QuestionAnswerer) (k : string)
    (w w' : World) (evs : list Event) : Prop :=
  let fs := fields (page w) in
  let kept := forall h, member fs k h ->
                fields (page w') !! h = fs !! h /\ ~ In (EvClickField h) evs in
  (any_selected fs k -> kept) /\
  (~ any_selected fs k ->
   forall first f1,
     first_member fs k first -> fs !! first = Some f1 ->
     let want := desired qa (labels (page w)) f1 in
     (forall h f, member fs k h -> fs !! h = Some f ->
                  In (EvClickField h) evs ->
                  overlaps want (sibling_label f) = true) /\
     ((forall h f, member fs k h -> fs !! h = Some f ->
                   overlaps want (sibling_label f) = false) -> kept)).

(** The computation raises nothing. *)
Definition total {A : Type} (m : M A) : Prop :=
  forall w, exists a, fst (m w) = Ok a.

(** The computation raises only exceptions that pass [allowed]. *)
Definition raises_only {A : Type} (allowed : exn -> bool) (m : M A) : Prop :=
  forall w, match fst (m w) with
            | Ok _ => True
            | Raise e => allowed e = true
            end.

(** A configured document path is a string, or is falsy and unused. *)
Definition path_fact (v : pyval) : Prop := truthy v = true -> is_text v.

Definition doc_paths (docs : gmap string pyval) : Prop :=
  path_fact (dict_get docs "cover_letter_path" (PyStr "")) /\
  path_fact (dict_get docs "cv_path" (PyStr "")).

End Spec.

(** ** Sample surfaces and profiles *)

Module Samples.
Import Py QA Dom.

Definition button (text : string) (shown : bool) : Button :=
  {| b_text := text; b_displayed := shown; b_enabled := true |}.

Definition page_of (bs : list Button) : Page :=
  {| modal_present := true; labels := []; fields := []; buttons := bs |}.

(** A page whose only button reads "Review". *)
Definition review_page : Page := page_of [button "Review" true].

(** A page with a "Submit application" and a "Next" button. *)
Definition submit_page : Page :=
  page_of [button "Submit application" true; button "Next" true].

(** The same page, where a hidden button with "Submit" in its text comes
    first in the document. *)
Definition shadowed_page : Page :=
  page_of [button "Submit application" false;
           button "Submit application" true; button "Next" true].

(** A page with a "Dismiss" button only. *)
Definition dead_page : Page := page_of [button "Dismiss" true].

(** A site whose every click leads to a page without buttons. *)
Definition leave : Page -> nat -> Page := fun _ _ => page_of [].

Definition start (p : Page) : World := {| page := p; trace := [] |}.

Definition plain_qa : QuestionAnswerer :=
  {| personal := ∅; background := ∅; eligibility := ∅;
     yes_no_map := []; numeric_map := []; star_map := [] |}.

(** A displayed, enabled and empty text input whose accessible name is
    [label]. *)
Definition text_input (label : string) : Field :=
  {| kind := TextInput; aria_label := Some label; placeholder := None;
     el_id := None; name := None; value := None; ancestor_label := None;
     preceding_label := None; following_label := None; options := [];
     selected := false; displayed := true; enabled := true;
     interactable := true |}.

Definition form_of (fs : list Field) : Page :=
  {| modal_present := true; labels := []; fields := fs; buttons := [] |}.

(** A profile with every kind of fact and one rule in each table. *)
Definition demo_qa : QuestionAnswerer :=
  {| personal := {[ "country" := PyStr "India" ]};
     background := {[ "years_of_experience" := PyInt 3;
                      "currency" := PyStr "INR" ]};
     eligibility := {[ "require_sponsorship" := PyBool false;
                       "legally_authorized" := PyBool true ]};
     yes_no_map := [("willing to relocate", PyBool true)];
     numeric_map := [("notice period", PyInt 30)];
     star_map := [("tell me about yourself",
                   "  I am a cybersecurity professional. ")] |}.

(** A text input that already reads "Jane". *)
Definition filled_input : Field :=
  {| kind := TextInput; aria_label := Some "First name"; placeholder := None;
     el_id := None; name := None; value := Some "Jane"; ancestor_label := None;
     preceding_label := None; following_label := None; options := [];
     selected := false; displayed := true; enabled := true;
     interactable := true |}.

(** A radio of the group [group], followed by a label that reads [text];
    the question is its accessible name. *)
Definition radio (group question text : string) : Field :=
  {| kind := Radio; aria_label := Some question; placeholder := None;
     el_id := None; name := Some group; value := None; ancestor_label := None;
     preceding_label := None; following_label := Some text; options := [];
     selected := false; displayed := true; enabled := true;
     interactable := true |}.

(** A yes/no question asked by two radios. *)
Definition radio_form : Page :=
  form_of [radio "q1" "Are you authorized to work in India?" "No";
           radio "q1" "Are you authorized to work in India?" "Yes"].

(** The configuration of tests/test_question_answerer.py. *)
Definition SAMPLE_CONFIG : Config :=
  {| cfg_personal := Some (list_to_map
       [("first_name", PyStr "John"); ("last_name", PyStr "Doe");
        ("email", PyStr "john@example.com"); ("phone", PyStr "+91 9999999999");
        ("city", PyStr "Bangalore"); ("country", PyStr "India");
        ("linkedin_profile", PyStr "https://linkedin.com/in/johndoe")]);
     cfg_background := Some (list_to_map
       [("years_of_experience", PyInt 3);
        ("highest_education", PyStr "Bachelor's Degree");
        ("notice_period_days", PyInt 30); ("expected_salary", PyInt 800000);
        ("currency", PyStr "INR")]);
     cfg_eligibility := Some (list_to_map
       [("legally_authorized", PyBool true); ("require_sponsorship", PyBool false)]);
     cfg_answers := Some
       {| yes_no := Some [("authorized to work", PyBool true);
                          ("require sponsorship", PyBool false);
                          ("willing to relocate", PyBool true)];
          numeric := Some [("years of experience", PyInt 3);
                           ("notice period", PyInt 30)];
          star_answers := Some [("tell me about yourself",
                                 "I am a cybersecurity professional.")] |} |}.

(** The fixture [qa] of the tests. *)
Definition sample_qa : QuestionAnswerer := init SAMPLE_CONFIG.

End Samples.

(** * Further vocabulary *)

Module XSpec.
Import Py QA Dom Driver FormFiller Spec.

(** [" ".join(words)] *)
Fixpoint join_spaces (words : list string) : string :=
  match words with
  | [] => ""
  | [w] => w
  | w :: ws => w ++ " " ++ join_spaces ws
  end.

Definition head_is_space (s : string) : bool :=
  match s with
  | "" => false
  | String c _ => is_space c
  end.

(** The only whitespace of the text is the space character, and no two
    of them are adjacent. *)
Fixpoint single_spaced (s : string) : bool :=
  match s with
  | "" => true
  | String c s' =>
      (negb (is_space c) || (Ascii.eqb c " " && negb (head_is_space s')))
      && single_spaced s'
  end.

(** The text has no whitespace at either end. *)
Definition trimmed (s : string) : Prop :=
  s = "" \/ (first_solid s = true /\ last_solid s = true).

(** [d.get(k)] on an insertion-ordered dictionary. *)
Definition dict_lookup {V : Type} (d : list (string * V)) (k : string) : option V :=
  option_map snd (find (fun kv => fst kv =? k) d).

(** A configured rule with its key in lower case. *)
Definition lower_item {V : Type} (kv : string * V) : string * V :=
  (lower (fst kv), snd kv).

(** A rule table as the engine expects it: no key twice, every key in
    lower case. *)
Definition table_ok {V : Type} (table : list (string * V)) : Prop :=
  NoDup (map fst table) /\ Forall (fun k => lower k = k) (map fst table).

(** The text is made of whitespace only. *)
Fixpoint blank (s : string) : bool :=
  match s with
  | "" => true
  | String c s' => is_space c && blank s'
  end.

(** The keywords of the contact fields, which the free-text chain tries
    before the figures and the canned paragraphs. *)
Definition contact_words : list string :=
  ["first name"; "last name"; "surname"; "email"; "phone"; "mobile"; "city";
   "linkedin"; "github"; "portfolio"; "website"].

(** [opt] is the first of the options, in the order listed, that passes
    [test]. *)
Definition first_with (test : string -> bool) (options : list string)
    (opt : string) : Prop :=
  exists before after,
    options = (before ++ opt :: after)%list /\
    none_of test before /\ test opt = true.

(** The [id] can stand between the quotes of the selector
    [label[for='id']] as it is: it holds no quote, no backslash, no line
    break (LF, FF, CR) and no NUL. *)
Definition selector_safe (id : string) : bool :=
  negb (existsb (fun c => str_in (String c "") id)
                ["039"; "092"; "010"; "012"; "013"; "000"]%char).

(** The control has no [id], or one that is safe in a selector. *)
Definition safe_id (f : Field) : Prop :=
  forall id, el_id f = Some id -> selector_safe id = true.

(** From [w] to [w'] the labels of the modal stayed, and so did the
    control [h] unless it is a radio. *)
Definition same_field (h : nat) (w w' : World) : Prop :=
  labels (page w') = labels (page w) /\
  forall f, fields (page w) !! h = Some f -> kind f <> Radio ->
            fields (page w') !! h = Some f.

(** The state in which a text pass leaves the control [f] of a modal with
    labels [ls]: typed into when it is displayed, enabled, empty after
    trimming, answered by the engine and ready for input. *)
Definition text_outcome (qa : QA.QuestionAnswerer) (ls : list (string * string))
    (f : Field) : Field :=
  let answer := QA.answer qa (label_of ls f) "text" in
  if displayed f && enabled f && (strip (default "" (value f)) =? "")
     && truthy answer && interactable f
  then set_value f (Some (py_str answer))
  else f.

(** The label asks for consent. *)
Definition wants_consent (label : string) : bool :=
  existsb (fun kw => str_in kw (lower label))
          ["agree"; "consent"; "acknowledge"; "confirm"].

(** The state in which the checkbox pass leaves the checkbox [f]. *)
Definition checkbox_outcome (ls : list (string * string)) (f : Field) : Field :=
  if displayed f && wants_consent (label_of ls f) && negb (selected f)
     && interactable f
  then set_selected f true
  else f.

(** The state in which the select pass leaves the list [f], for which
    the engine picked [best]. *)
Definition select_outcome (f : Field) (best : string) : Field :=
  if displayed f && enabled f && interactable f then
    match eligible_options f with
    | [] => f
    | _ => set_value f (Some best)
    end
  else f.

(** The path that the upload pass holds ready for a file input with the
    label [label]: the configured cover letter or CV, made absolute; the
    empty text when none is configured. *)
Definition upload_path (docs : gmap string pyval) (abspath : string -> string)
    (label : string) : result string :=
  let path :=
    if str_in "cover" (lower label)
    then dict_get docs "cover_letter_path" (PyStr "")
    else dict_get docs "cv_path" (PyStr "") in
  if truthy path then
    match path with
    | PyStr p => Ok (if isabs p then p else abspath p)
    | _ => Raise TypeError
    end
  else Ok "".

(** The state in which the upload pass leaves the file input [f]. *)
Definition upload_outcome (docs : gmap string pyval) (abspath : string -> string)
    (path_exists : string -> bool) (ls : list (string * string)) (f : Field)
  : Field :=
  match upload_path docs abspath (label_of ls f) with
  | Ok p =>
      if negb (p =? "") && path_exists p && interactable f
      then set_value f (Some p)
      else f
  | Raise _ => f
  end.

(** An option that the select pass may choose: it is listed, its text is
    not blank, and its value is neither empty nor the placeholder. *)
Definition proper_option (f : Field) (text : string) : Prop :=
  exists o, In o (options f) /\ o_text o = text /\ strip text <> "" /\
            o_value o <> Some "" /\ o_value o <> Some "Select an option".

(** The event is the upload of a file that exists. *)
Definition upload_event (path_exists : string -> bool) (e : Event) : Prop :=
  match e with
  | EvSendKeys _ p => p <> "" /\ path_exists p = true
  | _ => False
  end.

(** From [w] to [w'] nothing happened but uploads of existing files. *)
Definition only_uploads (path_exists : string -> bool) (w w' : World) : Prop :=
  exists evs, trace w' = (trace w ++ evs)%list /\
              Forall (upload_event path_exists) evs.

(** What a navigation probe over [texts], run on [w], may come to: one
    click on the button that is first in the document for one of the
    texts, displayed and enabled; or nothing at all, every text being
    missing or found first on a button that cannot be clicked. *)
Definition probe_verdict (navigate : Page -> nat -> Page) (texts : list string)
    (w : World) (r : result bool * World) : Prop :=
  (exists text i btn,
     In text texts /\ r = (Ok true, clicked navigate w i) /\
     first_match text (buttons (page w)) i btn /\ clickable btn = true) \/
  (r = (Ok false, w) /\ Forall (fun text => probe_fails text (page w)) texts).

(** From [w] to [w'] every control kept everything but, possibly, its
    value and its checked state. *)
Definition state_only (w w' : World) : Prop :=
  forall h f, fields (page w) !! h = Some f ->
              exists v b, fields (page w') !! h = Some (set_selected (set_value f v) b).

(** The run ended on a click on button [i] of the surface [w0], a button
    that can be clicked and has "Submit" in its text. *)
Definition ended_on_submit (navigate : Page -> nat -> Page) (w' : World) : Prop :=
  exists w0 i btn,
    w' = clicked navigate w0 i /\ buttons (page w0) !! i = Some btn /\
    str_in "Submit" (b_text btn) = true /\ clickable btn = true.

(** On the page, no submit button can be clicked and an advance button
    can. *)
Definition advances_only (p : Page) : Prop :=
  probe_fails "Submit application" p /\ probe_fails "Submit" p /\
  ((exists i, probe_hits "Next" p i) \/ (exists i, probe_hits "Continue" p i) \/
   (exists i, probe_hits "Review" p i)).

Definition is_button_click (e : Event) : bool :=
  match e with
  | EvClickButton _ => true
  | _ => false
  end.

(** Is handle [h] a radio of the group [k]? *)
Definition is_member (fs : list Field) (k : string) (h : nat) : bool :=
  match fs !! h with
  | Some f => bool_decide (kind f = Radio) && (group_key f =? k)
  | None => false
  end.

(** The number of clicks on radios of the group [k] among the events. *)
Definition member_clicks (fs : list Field) (k : string) (evs : list Event) : nat :=
  length (List.filter (fun e => match e with
                                | EvClickField h => is_member fs k h
                                | _ => false
                                end) evs).

Definition is_field_click (e : Event) : Prop :=
  match e with
  | EvClickField _ => True
  | _ => False
  end.

(** From [w] to [w'] nothing happened but clicks on controls. *)
Definition only_clicks (w w' : World) : Prop :=
  exists evs, trace w' = (trace w ++ evs)%list /\ Forall is_field_click evs.

Section Bodies.
Variable qa : QA.QuestionAnswerer.
Variable docs : gmap string pyval.
Variable abspath : string -> string.
Variable path_exists : string -> bool.

(** The body of the loop of [_fill_selects]. *)
Definition select_body (sel : nat) : M unit :=
  skip_field
    (do shown <- is_displayed sel;
     do active <- is_enabled sel;
     if negb shown || negb active then ret tt
     else
       do label_text <- _get_label_for sel;
       do f <- get_field sel;
       let opts := eligible_options f in
       match opts with
       | [] => ret tt
       | _ =>
           do best <- lift (QA.best_dropdown_option qa label_text opts);
           select_by_visible_text sel best
       end).

(** The body of the loop of [_fill_checkboxes]. *)
Definition checkbox_body (cb : nat) : M unit :=
  skip_field
    (do shown <- is_displayed cb;
     if negb shown then ret tt
     else
       do label_text <- _get_label_for cb;
       let label_text := lower label_text in
       if existsb (fun kw => str_in kw label_text)
                  ["agree"; "consent"; "acknowledge"; "confirm"] then
         do checked <- is_selected cb;
         if negb checked then click cb else ret tt
       else ret tt).

(** The body of the loop of [_handle_file_uploads]. *)
Definition upload_body (fi : nat) : M unit :=
  skip_field
    (do label_text <- _get_label_for fi;
     let label_text := lower label_text in
     let path :=
       if str_in "cover" label_text
       then dict_get docs "cover_letter_path" (PyStr "")
       else dict_get docs "cv_path" (PyStr "") in
     do abs_path <-
       (if truthy path then
          match path with
          | PyStr p => ret (if isabs p then p else abspath p)
          | _ => raise TypeError
          end
        else ret "");
     if negb (abs_path =? "") && path_exists abs_path
     then send_keys fi abs_path
     else ret tt).

(** The state in which the fill pass over the page leaves the control
    [f], not a radio, when the engine picks [best] among its options. *)
Definition page_outcome (ls : list (string * string)) (f : Field) (best : string)
  : Field :=
  match kind f with
  | TextInput | Textarea => text_outcome qa ls f
  | SelectList => select_outcome f best
  | Checkbox => checkbox_outcome ls f
  | FileInput => upload_outcome docs abspath path_exists ls f
  | Radio => f
  end.

End Bodies.

End XSpec.

(** ** Further sample surfaces and profiles *)

Module XSamples.
Import Py QA Dom Spec Samples.

(** Yes/no rules configured with capital letters. *)
Definition capital_rules : list (string * pyval) :=
  [("Authorized To Work", PyBool true); ("Require Sponsorship", PyBool false)].

Definition capital_config : Config :=
  {| cfg_personal := None; cfg_background := None; cfg_eligibility := None;
     cfg_answers := Some {| yes_no := Some capital_rules; numeric := None;
                            star_answers := None |} |}.

(** A profile whose highest education was written as a number. *)
Definition untyped_qa : QuestionAnswerer :=
  {| personal := ∅; background := {[ "highest_education" := PyInt 3 ]};
     eligibility := ∅; yes_no_map := []; numeric_map := []; star_map := [] |}.

(** A displayed, enabled and unchecked checkbox whose accessible name is
    [label]. *)
Definition checkbox (label : string) : Field :=
  {| kind := Checkbox; aria_label := Some label; placeholder := None;
     el_id := None; name := None; value := None; ancestor_label := None;
     preceding_label := None; following_label := None; options := [];
     selected := false; displayed := true; enabled := true;
     interactable := true |}.

Definition option_of (text : string) : SelectOption :=
  {| o_text := text; o_value := Some text |}.

(** A displayed and enabled select list whose accessible name is [label],
    with a placeholder entry before the options [texts]. *)
Definition select_list (label : string) (texts : list string) : Field :=
  {| kind := SelectList; aria_label := Some label; placeholder := None;
     el_id := None; name := None; value := None; ancestor_label := None;
     preceding_label := None; following_label := None;
     options := {| o_text := "Select an option"; o_value := Some "Select an option" |}
                :: map option_of texts;
     selected := false; displayed := true; enabled := true;
     interactable := true |}.

(** A hidden file input, as upload widgets have them. *)
Definition file_input (label : string) : Field :=
  {| kind := FileInput; aria_label := Some label; placeholder := None;
     el_id := None; name := None; value := None; ancestor_label := None;
     preceding_label := None; following_label := None; options := [];
     selected := false; displayed := false; enabled := true;
     interactable := true |}.

Definition cv_docs : gmap string pyval := {[ "cv_path" := PyStr "/home/user/cv.pdf" ]}.

(** A host on which the CV exists and nothing else. *)
Definition cv_exists (path : string) : bool := path =? "/home/user/cv.pdf".

(** A text input without accessible name, bound by its [id] to a label
    of the modal. *)
Definition bound_input : Field :=
  {| kind := TextInput; aria_label := None; placeholder := None;
     el_id := Some "city"; name := None; value := None;
     ancestor_label := Some "Address"; preceding_label := None;
     following_label := None; options := [];
     selected := false; displayed := true; enabled := true;
     interactable := true |}.

Definition bound_form : Page :=
  {| modal_present := true; labels := [("city", " City ")];
     fields := [bound_input]; buttons := [] |}.

(** A page with one control of every kind but the radio. *)
Definition mixed_form : Page :=
  form_of [text_input "City"; select_list "Country" ["United States"; "India"];
           checkbox "I agree to the terms"; file_input "Resume"].

(** A page that asks for the degree in a select list. *)
Definition degree_form : Page :=
  form_of [text_input "City"; select_list "Highest degree" ["BSc"; "MSc"]].

(** A page with a "Next" button, on a site that never leaves it. *)
Definition next_page : Page := page_of [button "Next" true].

Definition stay : Page -> nat -> Page := fun p _ => p.

End XSamples.

(** * Properties *)

(** ** Python strings: trimming does not hide a keyword *)

Module PyFacts.
Import Py.

Lemma space_not_word c : is_space c = true -> is_word c = false.
Proof.
  unfold is_space, is_word. generalize (nat_of_ascii c). intros n H.
  repeat match goal with
  | H : _ || _ = true |- _ => apply orb_true_iff in H; destruct H as [H|H]
  | H : _ && _ = true |- _ => apply andb_true_iff in H; destruct H as [? ?]
  | H : (_ <=? _)%nat = true |- _ => apply Nat.leb_le in H
  end;
  repeat (apply orb_false_iff; split); try (apply andb_false_iff);
  try (apply Nat.eqb_neq; lia);
  try (left; apply Nat.leb_gt; lia); try (right; apply Nat.leb_gt; lia).
Qed.

Lemma eqb_space_solid c d :
  is_space d = true -> is_space c = false -> Ascii.eqb c d = false.
Proof.
  intros Hd Hc. destruct (Ascii.eqb_spec c d) as [->|]; congruence.
Qed.

Lemma startswith_nil_r p : startswith "" p = match p with "" => true | _ => false end.
Proof. destruct p; reflexivity. Qed.

Lemma str_in_lstrip kw s :
  first_solid kw = true -> str_in kw (lstrip s) = str_in kw s.
Proof.
  intros Hk. induction s as [|c s IH]; [reflexivity|].
  cbn [lstrip]. destruct (is_space c) eqn:Hc; [|reflexivity].
  rewrite IH. cbn [str_in].
  destruct kw as [|k kw]; [discriminate|]. cbn in Hk.
  cbn [startswith]. rewrite eqb_space_solid; auto.
  now apply negb_true_iff.
Qed.

Lemma rstrip_cons c s :
  rstrip (String c s) =
  match rstrip s with
  | "" => if is_space c then "" else String c ""
  | r => String c r
  end.
Proof. reflexivity. Qed.

Lemma startswith_rstrip kw s :
  last_solid kw = true -> startswith (rstrip s) kw = startswith s kw.
Proof.
  revert kw. induction s as [|c s IH]; intros kw Hk; [reflexivity|].
  destruct kw as [|k kw]; [discriminate|].
  rewrite rstrip_cons. destruct kw as [|k' kw].
  - cbn in Hk. apply negb_true_iff in Hk.
    assert (E : forall t, startswith t "" = true) by (now intros []).
    destruct (rstrip s); [destruct (is_space c) eqn:Hc|]; cbn [startswith];
      rewrite ?E, ?andb_true_r; auto.
    symmetry. now apply eqb_space_solid.
  - specialize (IH (String k' kw) Hk).
    destruct (rstrip s) eqn:Hr.
    + destruct (is_space c); cbn [startswith]; rewrite <- IH;
        cbn; now rewrite ?andb_false_r.
    + cbn [startswith] in *. now rewrite IH.
Qed.

Lemma str_in_rstrip kw s :
  last_solid kw = true -> str_in kw (rstrip s) = str_in kw s.
Proof.
  intros Hk. induction s as [|c s IH]; [reflexivity|].
  cbn [str_in]. rewrite <- IH, <- (startswith_rstrip kw (String c s)) by assumption.
  rewrite rstrip_cons. destruct (rstrip s) eqn:Hr.
  - destruct (is_space c); cbn [str_in]; rewrite ?orb_false_r, ?orb_diag; reflexivity.
  - reflexivity.
Qed.

Lemma str_in_strip kw s :
  first_solid kw = true -> last_solid kw = true ->
  str_in kw (strip s) = str_in kw s.
Proof.
  intros. unfold strip. now rewrite str_in_rstrip, str_in_lstrip.
Qed.

Lemma str_in_lstrip_sub k s : str_in k (lstrip s) = true -> str_in k s = true.
Proof.
  induction s as [|c s IH]; [auto|]. cbn [lstrip].
  destruct (is_space c); [|auto]. intros H. cbn [str_in].
  rewrite (IH H). apply orb_true_r.
Qed.

Lemma startswith_rstrip_sub k s :
  startswith (rstrip s) k = true -> startswith s k = true.
Proof.
  revert k. induction s as [|c s IH]; intros k; [auto|].
  rewrite rstrip_cons. destruct k as [|a k]; [reflexivity|].
  destruct (rstrip s) eqn:Hr.
  - destruct (is_space c); cbn [startswith]; [discriminate|].
    intros H. apply andb_true_iff in H as [-> H]. cbn.
    apply IH. now rewrite startswith_nil_r in *.
  - cbn [startswith]. intros H. apply andb_true_iff in H as [-> H]. cbn. auto.
Qed.

Lemma str_in_rstrip_sub k s : str_in k (rstrip s) = true -> str_in k s = true.
Proof.
  induction s as [|c s IH]; [auto|].
  intros H. cbn [str_in].
  destruct (startswith (String c s) k) eqn:Hs; [reflexivity|]. cbn.
  apply IH. 
  assert (Hn : startswith (rstrip (String c s)) k = false).
  { destruct (startswith (rstrip (String c s)) k) eqn:E; [|reflexivity].
    apply startswith_rstrip_sub in E. congruence. }
  rewrite rstrip_cons in *. destruct (rstrip s) eqn:Hr.
  - destruct (is_space c); cbn [str_in] in H; rewrite Hn in H; cbn in H.
    + discriminate.
    + rewrite orb_false_r in H. cbn. now rewrite H.
  - cbn [str_in] in H. rewrite Hn in H. exact H.
Qed.

Lemma str_in_strip_sub k s : str_in k (strip s) = true -> str_in k s = true.
Proof. intros H. now apply str_in_lstrip_sub, str_in_rstrip_sub. Qed.

Lemma head_is_word_rstrip s : head_is_word (rstrip s) = head_is_word s.
Proof.
  destruct s as [|c s]; [reflexivity|]. rewrite rstrip_cons.
  destruct (rstrip s); [|reflexivity].
  destruct (is_space c) eqn:Hc; [|reflexivity].
  cbn. symmetry. now apply space_not_word.
Qed.

Lemma match_word_nil_r prev w : w <> "" -> match_word prev w "" = false.
Proof. destruct w; [congruence|reflexivity]. Qed.

Lemma match_word_cons prev c w d s :
  match_word prev (String c w) (String d s) =
  Ascii.eqb c d && match_word (is_word c) w s.
Proof. reflexivity. Qed.

Lemma match_word_rstrip prev w s :
  last_solid w = true -> match_word prev w (rstrip s) = match_word prev w s.
Proof.
  revert prev w. induction s as [|c s IH]; intros prev w Hw; [reflexivity|].
  destruct w as [|k w]; [discriminate|].
  destruct w as [|k' w].
  - cbn in Hw. apply negb_true_iff in Hw.
    cbn [match_word]. rewrite <- (head_is_word_rstrip s), rstrip_cons.
    destruct (rstrip s); [destruct (is_space c) eqn:Hc|]; try reflexivity.
    cbn. now rewrite eqb_space_solid.
  - specialize (IH (is_word k) (String k' w) Hw).
    rewrite (match_word_cons prev k (String k' w) c s), <- IH.
    rewrite rstrip_cons. destruct (rstrip s) eqn:Hr.
    + destruct (is_space c); [cbn; now rewrite andb_false_r|].
      rewrite match_word_cons. reflexivity.
    + now rewrite match_word_cons.
Qed.

Lemma match_at_rstrip prev w s :
  last_solid w = true -> match_at prev w (rstrip s) = match_at prev w s.
Proof.
  intros. unfold match_at. now rewrite head_is_word_rstrip, match_word_rstrip.
Qed.

Lemma search_from_rstrip prev w s :
  last_solid w = true -> search_from prev w (rstrip s) = search_from prev w s.
Proof.
  intros Hw. revert prev. induction s as [|c s IH]; intros prev; [reflexivity|].
  cbn [search_from]. rewrite <- IH, <- (match_at_rstrip prev w (String c s)) by assumption.
  rewrite rstrip_cons. destruct (rstrip s) eqn:Hr; [|reflexivity].
  destruct (is_space c) eqn:Hc; cbn [search_from]; [|reflexivity].
  rewrite (space_not_word _ Hc). unfold match_at. cbn.
  now rewrite ?andb_false_r, ?orb_false_r.
Qed.

Lemma search_from_lstrip w s :
  search_from false w (lstrip s) = search_from false w s.
Proof.
  induction s as [|c s IH]; [reflexivity|]. cbn [lstrip].
  destruct (is_space c) eqn:Hc; [|reflexivity].
  rewrite IH. cbn [search_from]. unfold match_at. cbn [head_is_word].
  now rewrite (space_not_word _ Hc).
Qed.

Lemma re_search_word_strip w s :
  last_solid w = true -> re_search_word w (strip s) = re_search_word w s.
Proof.
  intros. unfold re_search_word, strip.
  now rewrite search_from_rstrip, search_from_lstrip.
Qed.

Lemma split_last_solid key w : In w (split key) -> last_solid w = true.
Proof.
  revert w. induction key as [|c s IH]; intros w; [intros []|].
  cbn [split]. destruct (is_space c) eqn:Hc; [apply IH|].
  destruct s as [|d s'].
  - intros [<-|[]]. cbn. now rewrite Hc.
  - destruct (is_space d) eqn:Hd.
    + intros [<-|H]; [cbn; now rewrite Hc | now apply IH].
    + destruct (split (String d s')) as [|w0 ws] eqn:Hs.
      * intros [<-|[]]. cbn. now rewrite Hc.
      * intros [<-|H]; [|apply IH; now right].
        assert (Hw0 : last_solid w0 = true) by (apply IH; now left).
        destruct w0; [discriminate|exact Hw0].
Qed.

(** *** What the searches mean *)

Lemma startswith_spec s p :
  startswith s p = true <-> exists post, s = p ++ post.
Proof.
  revert s. induction p as [|c p IH]; intros s.
  - split; [intros _; now exists s|intros _; now destruct s].
  - destruct s as [|d s]; cbn [startswith].
    + split; [discriminate|intros [post H]; discriminate].
    + rewrite andb_true_iff, IH. split.
      * intros [Hc [post ->]]. apply Ascii.eqb_eq in Hc as ->. now exists post.
      * intros [post H]. cbn in H. injection H as -> ->.
        split; [apply Ascii.eqb_refl|now exists post].
Qed.

(** [sub in s] holds exactly when [sub] occurs in [s]. *)
Lemma str_in_spec sub s :
  str_in sub s = true <-> exists pre post, s = pre ++ sub ++ post.
Proof.
  induction s as [|d s IH]; cbn [str_in]; rewrite orb_true_iff, startswith_spec.
  - split.
    + intros [[post H]|H]; [|discriminate]. now exists "", post.
    + intros (pre & post & H). left. destruct pre; [now exists post|discriminate].
  - rewrite IH. split.
    + intros [[post H]|(pre & post & ->)]; [now exists "", post|].
      now exists (String d pre), post.
    + intros (pre & post & H). destruct pre as [|c pre].
      * left. now exists post.
      * right. cbn in H. injection H as -> ->. now exists pre, post.
Qed.

Lemma match_word_spec prev w s :
  match_word prev w s = true <->
  exists post, s = w ++ post /\
               xorb (last_is_word prev w) (head_is_word post) = true.
Proof.
  revert prev s. induction w as [|c w IH]; intros prev s.
  - cbn. split; [intros H; now exists s|intros (post & -> & H); exact H].
  - destruct s as [|d s]; cbn [match_word last_is_word].
    + split; [discriminate|intros (post & H & _); discriminate].
    + rewrite andb_true_iff, IH. split.
      * intros [Hc (post & -> & H)]. apply Ascii.eqb_eq in Hc as ->.
        now exists post.
      * intros (post & H & Hx). cbn in H. injection H as -> ->.
        split; [apply Ascii.eqb_refl|now exists post].
Qed.

Lemma search_from_spec prev w s :
  search_from prev w s = true <->
  exists pre post,
    s = pre ++ w ++ post /\
    xorb (last_is_word prev pre) (head_is_word (w ++ post)) = true /\
    xorb (last_is_word prev (pre ++ w)) (head_is_word post) = true.
Proof.
  assert (Hhere : forall prev s,
            match_at prev w s = true <->
            exists post, s = "" ++ w ++ post /\
              xorb (last_is_word prev "") (head_is_word (w ++ post)) = true /\
              xorb (last_is_word prev ("" ++ w)) (head_is_word post) = true).
  { intros p t. unfold match_at. rewrite andb_true_iff, match_word_spec.
    change (last_is_word p "") with p.
    split.
    - intros [Hx (post & -> & Hy)]. exists post. now repeat split.
    - intros (post & H & Hx & Hy). change ("" ++ w ++ post) with (w ++ post) in H.
      subst t. split; [exact Hx|now exists post]. }
  revert prev. induction s as [|d s IH]; intros prev; cbn [search_from];
    rewrite orb_true_iff, Hhere.
  - split.
    + intros [(post & H)|H]; [now exists "", post|discriminate].
    + intros (pre & post & H & Hx & Hy). left.
      destruct pre; [now exists post|discriminate].
  - rewrite IH. split.
    + intros [(post & H)|(pre & post & -> & Hx & Hy)]; [now exists "", post|].
      exists (String d pre), post. now repeat split.
    + intros (pre & post & H & Hx & Hy). destruct pre as [|c pre].
      * left. now exists post.
      * right. change (String c pre ++ w ++ post) with (String c (pre ++ w ++ post)) in H.
        injection H as -> ->. exists pre, post. now repeat split.
Qed.

(** The search of [_free_text_answer] succeeds exactly when the word
    occurs in the text between two word boundaries. *)
Lemma re_search_word_spec w q :
  re_search_word w q = true <->
  exists pre post, q = pre ++ w ++ post /\ whole_word_at pre w post.
Proof. apply search_from_spec. Qed.

End PyFacts.

(** ** The answer engine *)

Module QAFacts.
Import Py PyFacts QA Spec Samples.

Lemma find_none_Forall {A : Type} (f : A -> bool) (l : list A) :
  Forall (fun x => f x = false) l -> find f l = None.
Proof.
  induction 1 as [|x l Hx _ IH]; [reflexivity|]. cbn. now rewrite Hx.
Qed.

Lemma first_rule_strip_none {V : Type} (table : list (string * V)) (s : string) :
  no_rule_in table s -> first_rule table (strip s) = None.
Proof.
  intros H. apply find_none_Forall.
  eapply Forall_impl; [exact H|]. intros kv Hkv. cbn beta in *.
  destruct (str_in (fst kv) (strip s)) eqn:E; [|reflexivity].
  apply str_in_strip_sub in E. congruence.
Qed.

Lemma answer_boolean self label :
  answer self label "boolean" =
  PyStr (if _lookup_yes_no self (strip (lower label)) then "Yes" else "No").
Proof. reflexivity. Qed.

Lemma answer_numeric self label :
  answer self label "numeric" =
  PyStr (py_str (_lookup_numeric self (strip (lower label)))).
Proof. reflexivity. Qed.

Lemma answer_text self label :
  answer self label "text" = _free_text_answer self (strip (lower label)).
Proof. reflexivity. Qed.

(** Rewrites every keyword test on the trimmed label into the test on the
    label itself. *)
Ltac untrim := rewrite ?str_in_strip by reflexivity.

Lemma lookup_yes_no_default self s :
  no_rule_in (yes_no_map self) s ->
  _lookup_yes_no self (strip s) =
  if str_in "sponsorship" s || str_in "visa" s then
    truthy (dict_get (eligibility self) "require_sponsorship" (PyBool false))
  else if str_in "authorized" s || str_in "eligible" s then
    truthy (dict_get (eligibility self) "legally_authorized" (PyBool true))
  else true.
Proof.
  intros H. unfold _lookup_yes_no. rewrite (first_rule_strip_none _ _ H).
  untrim. reflexivity.
Qed.

Lemma lookup_numeric_default self s :
  no_rule_in (numeric_map self) s ->
  _lookup_numeric self (strip s) =
  if str_in "experience" s then
    dict_get (background self) "years_of_experience" (PyInt 2)
  else if str_in "notice" s then
    dict_get (background self) "notice_period_days" (PyInt 0)
  else if str_in "salary" s || str_in "ctc" s || str_in "compensation" s then
    dict_get (background self) "expected_salary" (PyInt 600000)
  else PyInt 0.
Proof.
  intros H. unfold _lookup_numeric. rewrite (first_rule_strip_none _ _ H).
  untrim. reflexivity.
Qed.

(** C6.  A boolean question is answered by the literal "Yes" or "No".
    When no key of the yes/no table occurs in the lower-cased label, the
    cases are tried in this order: a label with "sponsorship" or "visa"
    takes the truth value of the eligibility fact [require_sponsorship]
    (false when absent); otherwise a label with "authorized" or "eligible"
    takes that of [legally_authorized] (true when absent); any other label
    is answered "Yes".  With [require_sponsorship] false and no rule,
    "Will you require sponsorship?" is answered "No". *)
Theorem boolean_answer_defaults :
  (forall (self : QuestionAnswerer) (label : string),
     let q := lower label in
     let reply := answer self label "boolean" in
     let yes_no (b : bool) := PyStr (if b then "Yes" else "No") in
     (reply = PyStr "Yes" \/ reply = PyStr "No") /\
     (no_rule_in (yes_no_map self) q ->
      (str_in "sponsorship" q || str_in "visa" q = true ->
       reply = yes_no (truthy (dict_get (eligibility self)
                                        "require_sponsorship" (PyBool false)))) /\
      (str_in "sponsorship" q || str_in "visa" q = false ->
       str_in "authorized" q || str_in "eligible" q = true ->
       reply = yes_no (truthy (dict_get (eligibility self)
                                        "legally_authorized" (PyBool true)))) /\
      (str_in "sponsorship" q || str_in "visa" q = false ->
       str_in "authorized" q || str_in "eligible" q = false ->
       reply = PyStr "Yes"))) /\
  (forall self : QuestionAnswerer,
     no_rule_in (yes_no_map self) (lower "Will you require sponsorship?") ->
     dict_get (eligibility self) "require_sponsorship" (PyBool false) = PyBool false ->
     answer self "Will you require sponsorship?" "boolean" = PyStr "No").
Proof.
  split.
  - intros self label q reply yes_no. subst q reply yes_no. cbn beta.
    rewrite answer_boolean. split.
    + destruct (_lookup_yes_no self _); auto.
    + intros H. rewrite (lookup_yes_no_default _ _ H).
      repeat split; intros; repeat match goal with H : _ = _ |- _ => rewrite H end;
        reflexivity.
  - intros self H Hs. rewrite answer_boolean, (lookup_yes_no_default _ _ H).
    cbn [orb]. change (str_in "sponsorship" _) with true. cbn. now rewrite Hs.
Qed.

(** C9.  A numeric question for which no key of the numeric table occurs
    in the lower-cased label is answered, the cases being tried in this
    order: with "experience", by the background fact [years_of_experience]
    (2 when absent); with "notice", by [notice_period_days] (0 when
    absent); with "salary", "ctc" or "compensation", by [expected_salary]
    (600000 when absent); otherwise by 0.  The reply is [str] of that
    value: with 3 years of experience and no rule, "How many years of
    experience do you have?" is answered "3". *)
Theorem numeric_answer_defaults :
  (forall (self : QuestionAnswerer) (label : string),
     let q := lower label in
     let reply := answer self label "numeric" in
     let fact key dflt := PyStr (py_str (dict_get (background self) key dflt)) in
     no_rule_in (numeric_map self) q ->
     (str_in "experience" q = true ->
      reply = fact "years_of_experience" (PyInt 2)) /\
     (str_in "experience" q = false -> str_in "notice" q = true ->
      reply = fact "notice_period_days" (PyInt 0)) /\
     (str_in "experience" q = false -> str_in "notice" q = false ->
      str_in "salary" q || str_in "ctc" q || str_in "compensation" q = true ->
      reply = fact "expected_salary" (PyInt 600000)) /\
     (str_in "experience" q = false -> str_in "notice" q = false ->
      str_in "salary" q || str_in "ctc" q || str_in "compensation" q = false ->
      reply = PyStr "0")) /\
  (forall self : QuestionAnswerer,
     no_rule_in (numeric_map self)
                (lower "How many years of experience do you have?") ->
     background self !! "years_of_experience" = Some (PyInt 3) ->
     answer self "How many years of experience do you have?" "numeric" = PyStr "3").
Proof.
  split.
  - intros self label q reply fact H. subst q reply fact. cbn beta.
    rewrite answer_numeric, (lookup_numeric_default _ _ H).
    repeat split; intros; repeat match goal with H : _ = _ |- _ => rewrite H end;
      reflexivity.
  - intros self H Hs. rewrite answer_numeric, (lookup_numeric_default _ _ H).
    change (str_in "experience" _) with true. cbn iota.
    unfold dict_get. now rewrite Hs.
Qed.

Lemma first_option_In test options opt :
  first_option test options = Some opt -> In opt options.
Proof. intros H. now apply find_some in H. Qed.

Lemma first_option_none test options :
  none_of test options -> first_option test options = None.
Proof. apply find_none_Forall. Qed.

(** Unfolds the error monad of the engine. *)
Ltac unmonad :=
  unfold or_next, mbind, result_bind, mret, result_ret, Py.bind_result in *;
  cbn [py_lower] in *.

Lemma or_next_Ok block next r :
  or_next block next = Ok r ->
  block = Ok (Some r) \/ (block = Ok None /\ next = Ok r).
Proof.
  destruct block as [[opt|]|e]; unmonad; intros H;
    [left; congruence | right; now split | discriminate].
Qed.

Lemma or_next_none block next : block = Ok None -> or_next block next = next.
Proof. now intros ->. Qed.

Lemma py_lower_text v : is_text v -> exists t, py_lower v = Ok t.
Proof. intros [s ->]. now eexists. Qed.

Section Blocks.
Variable self : QuestionAnswerer.
Variables (q : string) (options : list string).

Lemma education_block_In opt :
  education_block self q options = Ok (Some opt) -> In opt options.
Proof.
  unfold education_block. destruct (_ || _); [|discriminate].
  destruct (py_lower _); unmonad; [|discriminate].
  intros [= H]. eauto using first_option_In.
Qed.

Lemma experience_block_In opt :
  experience_block self q options = Ok (Some opt) -> In opt options.
Proof.
  unfold experience_block. destruct (str_in _ _); [|discriminate].
  intros [= H]. eauto using first_option_In.
Qed.

Lemma country_block_In opt :
  country_block self q options = Ok (Some opt) -> In opt options.
Proof.
  unfold country_block. destruct (str_in _ _); [|discriminate].
  destruct (py_lower _); unmonad; [|discriminate].
  intros [= H]. eauto using first_option_In.
Qed.

Lemma currency_block_In opt :
  currency_block self q options = Ok (Some opt) -> In opt options.
Proof.
  unfold currency_block. destruct (str_in _ _); [|discriminate].
  destruct (py_lower _); unmonad; [|discriminate].
  intros [= H]. eauto using first_option_In.
Qed.

Lemma blocks_return :
  text_facts self ->
  (exists o, education_block self q options = Ok o) /\
  (exists o, experience_block self q options = Ok o) /\
  (exists o, country_block self q options = Ok o) /\
  (exists o, currency_block self q options = Ok o).
Proof.
  intros (He & Hc & Hu).
  apply py_lower_text in He as [te He], Hc as [tc Hc], Hu as [tu Hu].
  unfold education_block, experience_block, country_block, currency_block.
  rewrite He, Hc, Hu. unmonad.
  repeat split;
    match goal with |- context [if ?b then _ else _] => destruct b end;
    eexists; reflexivity.
Qed.

End Blocks.

Lemma best_dropdown_option_sound self label options r :
  options <> [] ->
  best_dropdown_option self label options = Ok r -> In r options.
Proof.
  intros Hne. unfold best_dropdown_option.
  destruct options as [|o0 os]; [congruence|].
  destruct (_is_yes_no_question _).
  - destruct (first_option _ _) eqn:E; intros [= <-].
    + eauto using first_option_In.
    + now left.
  - intros H.
    repeat (apply or_next_Ok in H as [H|[_ H]];
            [eauto using education_block_In, experience_block_In,
               country_block_In, currency_block_In|]).
    injection H as <-. now left.
Qed.

Lemma best_dropdown_option_returns self label options :
  text_facts self -> exists r, best_dropdown_option self label options = Ok r.
Proof.
  intros Ht. unfold best_dropdown_option.
  destruct options as [|o0 os]; [now eexists|].
  destruct (_is_yes_no_question _).
  - destruct (first_option _ _); now eexists.
  - destruct (blocks_return self (lower label) (o0 :: os) Ht)
      as ([o1 ->] & [o2 ->] & [o3 ->] & [o4 ->]).
    unmonad.
    destruct o1; [now eexists|]. destruct o2; [now eexists|].
    destruct o3; [now eexists|]. destruct o4; now eexists.
Qed.

(** C3.  Given options, [best_dropdown_option] returns one of them: any
    value it returns is a listed option, and it does return when the facts
    it lower-cases are strings.  It returns the first listed option when
    every rule that fires finds no option with its target: the yes/no rule
    no option containing "yes"/"no", the education rule none containing
    the highest education (or that fact is empty), the experience rule
    none containing the years, the country and currency rules none
    containing the country, the currency.  With no rule firing at all, as
    for "Unknown question" and the options "Option A", "Option B", the
    first option is returned. *)
Theorem best_option_is_offered :
  (forall (self : QuestionAnswerer) (label : string) (options : list string),
     options <> [] ->
     (forall r, best_dropdown_option self label options = Ok r -> In r options) /\
     (text_facts self ->
      exists r, best_dropdown_option self label options = Ok r /\ In r options)) /\
  (forall (self : QuestionAnswerer) (label : string) (options : list string),
     let q := lower label in
     options <> [] ->
     (_is_yes_no_question q = true ->
      none_of (fun opt =>
                 str_in (lower (if _lookup_yes_no self q then "Yes" else "No"))
                        (lower opt)) options) ->
     (_is_yes_no_question q = false ->
      (str_in "education" q || str_in "degree" q = true ->
       exists t, dict_get (background self) "highest_education" (PyStr "") = PyStr t /\
                 (lower t = "" \/ none_of (fun opt => str_in (lower t) (lower opt)) options)) /\
      (str_in "experience" q = true ->
       none_of (fun opt =>
                  str_in (py_str (dict_get (background self)
                                           "years_of_experience" (PyInt 2))) opt)
               options) /\
      (str_in "country" q = true ->
       exists t, dict_get (personal self) "country" (PyStr "India") = PyStr t /\
                 none_of (fun opt => str_in (lower t) (lower opt)) options) /\
      (str_in "currency" q = true ->
       exists t, dict_get (background self) "currency" (PyStr "INR") = PyStr t /\
                 none_of (fun opt => str_in (lower t) (lower opt)) options)) ->
     best_dropdown_option self label options = Ok (hd "" options)) /\
  (forall self : QuestionAnswerer,
     best_dropdown_option self "Unknown question" ["Option A"; "Option B"]
     = Ok "Option A").
Proof.
  split; [|split].
  - intros self label options Hne. split.
    + intros r. now apply best_dropdown_option_sound.
    + intros Ht. destruct (best_dropdown_option_returns self label options Ht) as [r Hr].
      exists r. split; [exact Hr|]. eapply best_dropdown_option_sound; eauto.
  - intros self label options q Hne Hyn Hrest.
    unfold best_dropdown_option. fold q.
    destruct options as [|o0 os]; [congruence|]. cbn [hd].
    destruct (_is_yes_no_question q).
    + now rewrite (first_option_none _ _ (Hyn eq_refl)).
    + destruct (Hrest eq_refl) as (He & Hx & Hc & Hu).
      rewrite or_next_none; [rewrite or_next_none; [rewrite or_next_none;
        [rewrite or_next_none; [reflexivity|]|]|]|].
      * unfold currency_block. destruct (str_in "currency" q); [|reflexivity].
        destruct (Hu eq_refl) as (t & -> & Hn). unmonad.
        now rewrite (first_option_none _ _ Hn).
      * unfold country_block. destruct (str_in "country" q); [|reflexivity].
        destruct (Hc eq_refl) as (t & -> & Hn). unmonad.
        now rewrite (first_option_none _ _ Hn).
      * unfold experience_block. destruct (str_in "experience" q); [|reflexivity].
        unmonad. now rewrite (first_option_none _ _ (Hx eq_refl)).
      * unfold education_block. destruct (_ || _); [|reflexivity].
        destruct (He eq_refl) as (t & -> & [Hn|Hn]); unmonad.
        -- rewrite Hn. cbn. rewrite first_option_none; [reflexivity|].
           unfold none_of. apply Forall_forall. reflexivity.
        -- rewrite first_option_none; [reflexivity|].
           eapply Forall_impl; [exact Hn|]. cbn beta. intros x ->.
           apply andb_false_r.
  - intros self. reflexivity.
Qed.

Lemma existsb_eq_in {A : Type} (f g : A -> bool) (l : list A) :
  (forall x, In x l -> f x = g x) -> existsb f l = existsb g l.
Proof.
  induction l as [|x l IH]; intros H; [reflexivity|]. cbn.
  rewrite (H x), IH; auto with datatypes.
Qed.

Lemma star_hit_strip key s : star_hit key (strip s) = star_hit key s.
Proof.
  unfold star_hit. apply existsb_eq_in. intros w Hw.
  apply re_search_word_strip. eapply split_last_solid; eauto.
Qed.

Lemma star_hit_true key q :
  star_hit key q = true <->
  exists word, In word (split key) /\ re_search_word word q = true.
Proof. unfold star_hit. apply existsb_exists. Qed.

Lemma star_hit_false key q :
  star_hit key q = false <->
  forall word, In word (split key) -> re_search_word word q = false.
Proof.
  unfold star_hit. rewrite <- not_true_iff_false, existsb_exists. split.
  - intros H w Hw. apply not_true_iff_false. intros Ht. apply H. eauto.
  - intros H (w & Hw & Ht). rewrite (H w Hw) in Ht. discriminate.
Qed.

Lemma find_first {A : Type} (f : A -> bool) (before after : list A) (x : A) :
  Forall (fun y => f y = false) before -> f x = true ->
  find f (before ++ x :: after) = Some x.
Proof.
  induction 1 as [|y l Hy _ IH]; intros Hx; cbn.
  - now rewrite Hx.
  - rewrite Hy. auto.
Qed.

Lemma star_rule_none self s :
  no_word_hit (star_map self) s -> star_rule self (strip s) = None.
Proof.
  intros H. apply find_none_Forall. eapply Forall_impl; [exact H|].
  cbn beta. intros kv Hkv. rewrite star_hit_strip. now apply star_hit_false.
Qed.

(** C1, as the code has it.  A narrative rule is used when AT LEAST ONE
    whitespace-delimited word of its key is found in the lower-cased
    label between word boundaries: the first rule, in the order of the
    table, that has such a word gives the reply, which is its text
    trimmed.  When no rule has such a word no narrative text is used and
    the reply comes from the chain of well-known fields.  A rule keyed
    "art" is not used for "Please describe your start date". *)
Theorem narrative_rule_any_word :
  (forall (self : QuestionAnswerer) (label : string)
          (before after : list (string * string)) (key text : string),
     star_map self = (before ++ (key, text) :: after)%list ->
     (exists word, In word (split key) /\
                   re_search_word word (lower label) = true) ->
     no_word_hit before (lower label) ->
     answer self label "text" = PyStr (strip text)) /\
  (forall (self : QuestionAnswerer) (label : string),
     no_word_hit (star_map self) (lower label) ->
     answer self label "text" = common_field self (strip (lower label))) /\
  (forall text : string,
     no_word_hit [("art", text)] (lower "Please describe your start date") /\
     answer (narrator [("art", text)]) "Please describe your start date" "text"
     = PyStr generic_text).
Proof.
  split; [|split].
  - intros self label before after key text Hmap Hhit Hbefore.
    rewrite answer_text. unfold _free_text_answer, star_rule. rewrite Hmap.
    rewrite (find_first _ before after (key, text)); [reflexivity| |].
    + eapply Forall_impl; [exact Hbefore|]. cbn beta. intros kv Hkv.
      rewrite star_hit_strip. now apply star_hit_false.
    + cbn [fst]. rewrite star_hit_strip. now apply star_hit_true.
  - intros self label H. rewrite answer_text. unfold _free_text_answer.
    now rewrite (star_rule_none _ _ H).
  - intros text. split.
    + constructor; [|constructor]. cbn [fst]. intros word [<-|[]].
      vm_compute. reflexivity.
    + vm_compute. reflexivity.
Qed.

(** C1, as stated, fails: every word of the key is not required.  The
    label "Tell us your first name" has the word "tell" of the key "tell
    me about yourself" but not its word "me", and the rule is used all the
    same. *)
Lemma narrative_rule_not_every_word :
  let rules := [("tell me about yourself", "I am a cybersecurity professional.")] in
  let label := "Tell us your first name" in
  answer (narrator rules) label "text" = PyStr "I am a cybersecurity professional." /\
  In "me" (split "tell me about yourself") /\
  re_search_word "me" (lower label) = false.
Proof.
  split; [vm_compute; reflexivity|].
  split; [vm_compute; auto|vm_compute; reflexivity].
Qed.

(** The well-known fields whose fact defaults to the empty text. *)
Lemma common_field_empty self s :
  let q := strip s in
  let absent key := personal self !! key = None in
  (str_in "first name" s = true -> absent "first_name" ->
   common_field self q = PyStr "") /\
  (str_in "first name" s = false ->
   str_in "last name" s || str_in "surname" s = false ->
   str_in "email" s = true -> absent "email" ->
   common_field self q = PyStr "") /\
  (str_in "first name" s = false ->
   str_in "last name" s || str_in "surname" s = false ->
   str_in "email" s = false ->
   str_in "phone" s || str_in "mobile" s = true -> absent "phone" ->
   common_field self q = PyStr "") /\
  (str_in "first name" s = false ->
   str_in "last name" s || str_in "surname" s = false ->
   str_in "email" s = false ->
   str_in "phone" s || str_in "mobile" s = false ->
   str_in "city" s = false ->
   (str_in "linkedin" s = true -> absent "linkedin_profile" ->
    common_field self q = PyStr "") /\
   (str_in "linkedin" s = false -> str_in "github" s = true ->
    absent "github_url" -> common_field self q = PyStr "") /\
   (str_in "linkedin" s = false -> str_in "github" s = false ->
    str_in "portfolio" s || str_in "website" s = true ->
    absent "portfolio_url" -> common_field self q = PyStr "")).
Proof.
  intros q absent. subst q absent. unfold common_field, dict_get. untrim.
  repeat split; intros;
    repeat match goal with H : _ = _ |- _ => rewrite H; clear H end;
    reflexivity.
Qed.

End QAFacts.

(** ** Computations on the surface *)

Module MFacts.
Import Py Dom Driver Spec.

Lemma bind_run {A B : Type} (m : M A) (k : A -> M B) w :
  bind m k w =
  match m w with
  | (Ok a, w') => k a w'
  | (Raise e, w') => (Raise e, w')
  end.
Proof. reflexivity. Qed.

Section Keeps.
(** A relation between the surface before and after that every step of a
    computation maintains. *)
Variable R : World -> World -> Prop.
Hypothesis R_refl : forall w, R w w.
Hypothesis R_trans : forall w1 w2 w3, R w1 w2 -> R w2 w3 -> R w1 w3.


Lemma keeps_ret {A : Type} (a : A) : keeps R (ret a).
Proof. intros w. apply R_refl. Qed.

Lemma keeps_raise {A : Type} (e : exn) : keeps R (@raise A e).
Proof. intros w. apply R_refl. Qed.

Lemma keeps_lift {A : Type} (r : result A) : keeps R (lift r).
Proof. intros w. apply R_refl. Qed.

Lemma keeps_bind {A B : Type} (m : M A) (k : A -> M B) :
  keeps R m -> (forall a, keeps R (k a)) -> keeps R (bind m k).
Proof.
  intros Hm Hk w. rewrite bind_run. specialize (Hm w).
  destruct (m w) as [[a|e] w1]; cbn in *; [|assumption].
  eapply R_trans; [exact Hm|apply Hk].
Qed.

Lemma keeps_try_except {A : Type} (m : M A) caught (handler : M A) :
  keeps R m -> keeps R handler -> keeps R (try_except m caught handler).
Proof.
  intros Hm Hh w. unfold try_except. specialize (Hm w).
  destruct (m w) as [[a|e] w1]; cbn in *; [assumption|].
  destruct (caught e); cbn; [|assumption].
  eapply R_trans; [exact Hm|apply Hh].
Qed.

Lemma keeps_for_each {A : Type} (xs : list A) (body : A -> M unit) :
  (forall x, In x xs -> keeps R (body x)) -> keeps R (for_each xs body).
Proof.
  induction xs as [|x xs IH]; intros H; cbn [for_each].
  - apply keeps_ret.
  - apply keeps_bind; [apply H; now left|]. intros _. apply IH.
    intros y Hy. apply H. now right.
Qed.

Lemma keeps_for_each_break {A : Type} (xs : list A) (body : A -> M bool) :
  (forall x, In x xs -> keeps R (body x)) -> keeps R (for_each_break xs body).
Proof.
  induction xs as [|x xs IH]; intros H; cbn [for_each_break].
  - apply keeps_ret.
  - apply keeps_bind; [apply H; now left|]. intros [|]; [apply keeps_ret|].
    apply IH. intros y Hy. apply H. now right.
Qed.

Lemma keeps_any_of {A : Type} (xs : list A) (test : A -> M bool) :
  (forall x, In x xs -> keeps R (test x)) -> keeps R (any_of xs test).
Proof.
  induction xs as [|x xs IH]; intros H; cbn [any_of].
  - apply keeps_ret.
  - apply keeps_bind; [apply H; now left|]. intros [|]; [apply keeps_ret|].
    apply IH. intros y Hy. apply H. now right.
Qed.

Lemma keeps_get_field h : keeps R (get_field h).
Proof. intros w. unfold get_field. destruct (_ !! _); apply R_refl. Qed.

Lemma keeps_find_elements k : keeps R (find_elements k).
Proof. intros w. apply R_refl. Qed.

End Keeps.

(** Splits a goal [keeps R m] along the structure of [m]; [Rr] and [Rt]
    prove that [R] is reflexive and transitive. *)
Ltac keeps_step Rr Rt :=
  first
    [ apply (keeps_ret _ Rr)
    | apply (keeps_raise _ Rr)
    | apply (keeps_lift _ Rr)
    | apply (keeps_get_field _ Rr)
    | apply (keeps_find_elements _ Rr)
    | apply (keeps_bind _ Rt); [|intros]
    | apply (keeps_try_except _ Rt)
    | match goal with
      | |- keeps _ (if ?b then _ else _) => destruct b
      | |- keeps _ (match ?x with _ => _ end) => destruct x
      end ].

End MFacts.

(** ** Text inputs and text areas *)

Module TextFacts.
Import Py Dom Driver FormFiller Spec MFacts.

Lemma untouched_refl h w : untouched h w w.
Proof.
  split; [reflexivity|]. exists []. split; [now rewrite app_nil_r|constructor].
Qed.

Lemma untouched_trans h w1 w2 w3 :
  untouched h w1 w2 -> untouched h w2 w3 -> untouched h w1 w3.
Proof.
  intros [Hf1 (e1 & Ht1 & He1)] [Hf2 (e2 & Ht2 & He2)]. split; [congruence|].
  exists (e1 ++ e2)%list. split.
  - now rewrite Ht2, Ht1, app_assoc.
  - now apply Forall_app.
Qed.


Lemma filled_kept_refl h w : filled_kept h w w.
Proof. intros _. apply untouched_refl. Qed.

Lemma filled_kept_trans h w1 w2 w3 :
  filled_kept h w1 w2 -> filled_kept h w2 w3 -> filled_kept h w1 w3.
Proof.
  intros H1 H2 Hf. specialize (H1 Hf). eapply untouched_trans; [exact H1|].
  apply H2. destruct Hf as (f & Hf & Hv). exists f. split; [|exact Hv].
  destruct H1 as [-> _]. exact Hf.
Qed.

Section Text.
Variable qa : QA.QuestionAnswerer.

Lemma get_field_some h w f :
  fields (page w) !! h = Some f -> get_field h w = (Ok f, w).
Proof. intros H. unfold get_field. now rewrite H. Qed.

Lemma is_displayed_some h w f :
  fields (page w) !! h = Some f -> is_displayed h w = (Ok (displayed f), w).
Proof. intros H. unfold is_displayed. now rewrite bind_run, (get_field_some h w f H). Qed.

Lemma is_enabled_some h w f :
  fields (page w) !! h = Some f -> is_enabled h w = (Ok (enabled f), w).
Proof. intros H. unfold is_enabled. now rewrite bind_run, (get_field_some h w f H). Qed.

Lemma is_selected_some h w f :
  fields (page w) !! h = Some f -> is_selected h w = (Ok (selected f), w).
Proof. intros H. unfold is_selected. now rewrite bind_run, (get_field_some h w f H). Qed.

Lemma get_label_for_some h w f :
  fields (page w) !! h = Some f ->
  _get_label_for h w = (Ok (label_of (labels (page w)) f), w).
Proof. intros H. unfold _get_label_for. now rewrite bind_run, (get_field_some h w f H). Qed.

Lemma fill_text_skips h w f :
  fields (page w) !! h = Some f -> filled f -> fill_text qa h w = (Ok tt, w).
Proof.
  intros Hf Hv. unfold fill_text, skip_field, try_except.
  rewrite bind_run, (is_displayed_some h w f Hf). cbv beta iota.
  rewrite bind_run, (is_enabled_some h w f Hf). cbv beta iota.
  destruct (negb (displayed f) || negb (enabled f)); [reflexivity|].
  rewrite bind_run, (get_field_some h w f Hf). cbv beta iota zeta.
  destruct (String.eqb_spec (strip (default "" (value f))) ""); [contradiction|reflexivity].
Qed.

Lemma untouched_put_field h h' f :
  h' <> h -> keeps (untouched h) (put_field h' f).
Proof.
  intros Hne w. split.
  - cbn. now apply list_lookup_insert_ne.
  - exists []. split; [cbn; now rewrite app_nil_r|constructor].
Qed.

Lemma untouched_emit h e : ~ event_on h e -> keeps (untouched h) (emit e).
Proof.
  intros He w. split; [reflexivity|].
  exists [e]. split; [reflexivity|]. now repeat constructor.
Qed.

Lemma fill_text_other h h' : h' <> h -> keeps (untouched h) (fill_text qa h').
Proof.
  intros Hne.
  unfold fill_text, skip_field, is_displayed, is_enabled, _get_label_for,
    clear, send_keys.
  repeat first
    [ apply untouched_put_field; exact Hne
    | apply untouched_emit; exact Hne
    | keeps_step (untouched_refl h) (untouched_trans h)
    | intros w; apply untouched_refl ].
Qed.

Lemma fill_text_keeps h h' : keeps (filled_kept h) (fill_text qa h').
Proof.
  intros w (f & Hf & Hv). destruct (decide (h' = h)) as [->|Hne].
  - rewrite (fill_text_skips h w f Hf Hv). apply untouched_refl.
  - now apply fill_text_other.
Qed.

Lemma fill_pass_keeps h k :
  keeps (filled_kept h) (do hs <- find_elements k; for_each hs (fill_text qa)).
Proof.
  apply (keeps_bind _ (filled_kept_trans h));
    [apply (keeps_find_elements _ (filled_kept_refl h))|].
  intros hs. apply (keeps_for_each _ (filled_kept_refl h) (filled_kept_trans h)).
  intros h' _. apply fill_text_keeps.
Qed.

End Text.

(** C7.  A short-text or long-text control that holds a value (non-empty
    after trimming) is skipped by the fill policy: the body of the loop
    returns at once, the surface being as it was.  Hence a pass over the
    text inputs or over the text areas, run once or twice, leaves the
    control as it is and performs no operation on it. *)
Theorem text_fill_idempotent (qa : QA.QuestionAnswerer) (w : World) (h : nat) (f : Field) :
  fields (page w) !! h = Some f ->
  filled f ->
  fill_text qa h w = (Ok tt, w) /\
  (forall pass,
     pass = _fill_text_inputs qa \/ pass = _fill_textareas qa ->
     untouched h w (snd (pass w)) /\
     untouched h w (snd (pass (snd (pass w))))).
Proof.
  intros Hf Hv. split; [now apply (fill_text_skips qa h w f)|].
  intros pass Hpass.
  assert (Hk : keeps (filled_kept h) pass).
  { destruct Hpass as [-> | ->]; apply fill_pass_keeps. }
  assert (H1 : untouched h w (snd (pass w))) by (apply Hk; eauto).
  split; [exact H1|]. eapply untouched_trans; [exact H1|].
  apply Hk. exists f. split; [|exact Hv]. destruct H1 as [-> _]. exact Hf.
Qed.

End TextFacts.

(** ** What the fill pass leaves alone *)

Module FrameFacts.
Import Py Dom Driver FormFiller Spec MFacts.

Lemma fill_frame_refl w : fill_frame w w.
Proof.
  repeat split. exists []. split; [now rewrite app_nil_r|constructor].
Qed.

Lemma fill_frame_trans w1 w2 w3 :
  fill_frame w1 w2 -> fill_frame w2 w3 -> fill_frame w1 w3.
Proof.
  intros (Hb1 & Hl1 & Hm1 & Hn1 & e1 & Ht1 & He1)
         (Hb2 & Hl2 & Hm2 & Hn2 & e2 & Ht2 & He2).
  repeat split; try congruence.
  exists (e1 ++ e2)%list. split.
  - now rewrite Ht2, Ht1, app_assoc.
  - now apply Forall_app.
Qed.

Lemma frame_put_field h f : keeps fill_frame (put_field h f).
Proof.
  intros w. repeat split.
  - cbn. apply length_insert.
  - exists []. split; [cbn; now rewrite app_nil_r|constructor].
Qed.

Lemma frame_emit e : field_event e -> keeps fill_frame (emit e).
Proof.
  intros He w. repeat split.
  exists [e]. split; [reflexivity|]. now repeat constructor.
Qed.

Lemma frame_check_radio h f :
  keeps fill_frame
        (fun w => (Ok tt, {| page := set_fields (page w)
                                       (check_radio h f (fields (page w)));
                             trace := trace w |})).
Proof.
  intros w. repeat split.
  - cbn. unfold check_radio. apply length_imap.
  - exists []. split; [cbn; now rewrite app_nil_r|constructor].
Qed.

(** Splits a goal [keeps fill_frame m]. *)
Ltac frame_step :=
  first
    [ apply frame_put_field
    | apply frame_check_radio
    | apply frame_emit; exact I
    | apply (keeps_for_each _ fill_frame_refl fill_frame_trans); intros
    | apply (keeps_for_each_break _ fill_frame_refl fill_frame_trans); intros
    | apply (keeps_any_of _ fill_frame_refl fill_frame_trans); intros
    | keeps_step fill_frame_refl fill_frame_trans
    | intros ?; apply fill_frame_refl ].

Section Filler.
Variable qa : QA.QuestionAnswerer.
Variable docs : gmap string pyval.
Variable abspath : string -> string.
Variable path_exists : string -> bool.

Lemma frame_collect_groups radios groups :
  keeps fill_frame (collect_groups radios groups).
Proof.
  revert groups. induction radios as [|r radios IH]; intros groups;
    cbn [collect_groups]; [repeat frame_step|].
  apply (keeps_bind _ fill_frame_trans); [repeat frame_step|].
  intros groups'. apply IH.
Qed.

Lemma frame_fill_current_page :
  keeps fill_frame (_fill_current_page qa docs abspath path_exists).
Proof.
  intros w. unfold _fill_current_page.
  destruct (modal_present (page w)); [|apply fill_frame_refl].
  revert w. fold (keeps fill_frame (fill_modal qa docs abspath path_exists)).
  unfold fill_modal, _fill_text_inputs, _fill_selects, _fill_radios,
    _fill_checkboxes, _fill_textareas, _handle_file_uploads, fill_text,
    fill_group, try_radio, skip_field, is_displayed, is_enabled, is_selected,
    _get_label_for, clear, send_keys, click, select_by_visible_text.
  repeat first [ apply frame_collect_groups | frame_step ].
Qed.

End Filler.

End FrameFacts.

(** ** The navigation probes *)

Module NavFacts.
Import Py Dom Driver FormFiller Spec MFacts FrameFacts.

Lemma first_button_none k text bs :
  Forall (fun b => str_in text (b_text b) = false) bs ->
  first_button k text bs = None.
Proof.
  intros H. revert k. induction H as [|b bs Hb _ IH]; intros k; cbn; [reflexivity|].
  now rewrite Hb.
Qed.

Lemma first_button_match k text bs i btn :
  first_match text bs i btn -> first_button k text bs = Some (k + i).
Proof.
  revert k i. induction bs as [|b bs IH]; intros k i (Hi & Hb & Hlt).
  - discriminate.
  - cbn [first_button]. destruct i as [|i].
    + cbn in Hi. injection Hi as ->. rewrite Hb. f_equal. lia.
    + rewrite (Hlt 0 b); [|lia|reflexivity].
      rewrite (IH (S k) i); [f_equal; lia|].
      split; [exact Hi|]. split; [exact Hb|].
      intros j b' Hj Hb'. apply (Hlt (S j) b'); [lia|exact Hb'].
Qed.

Lemma first_button_Some k text bs n :
  first_button k text bs = Some n ->
  exists i btn, n = k + i /\ first_match text bs i btn.
Proof.
  revert k. induction bs as [|b bs IH]; intros k; cbn [first_button]; [discriminate|].
  destruct (str_in text (b_text b)) eqn:Hb.
  - intros [= <-]. exists 0, b. split; [lia|]. split; [reflexivity|].
    split; [exact Hb|]. intros j b' Hj. lia.
  - intros H. apply IH in H as (i & btn & -> & Hi & Ht & Hlt).
    exists (S i), btn. split; [lia|]. split; [exact Hi|]. split; [exact Ht|].
    intros [|j] b' Hj Hb'.
    + cbn in Hb'. now injection Hb' as <-.
    + apply (Hlt j b'); [lia|exact Hb'].
Qed.

Lemma first_button_None k text bs :
  first_button k text bs = None ->
  Forall (fun b => str_in text (b_text b) = false) bs.
Proof.
  revert k. induction bs as [|b bs IH]; intros k; cbn [first_button]; [constructor|].
  destruct (str_in text (b_text b)) eqn:Hb; [discriminate|].
  intros H. constructor; eauto.
Qed.

Lemma probe_hits_or_fails text p :
  (exists i, probe_hits text p i) \/ probe_fails text p.
Proof.
  destruct (first_button 0 text (buttons p)) as [n|] eqn:E.
  - apply first_button_Some in E as (i & btn & _ & Hm).
    destruct (clickable btn) eqn:Hc.
    + left. exists i, btn. now split.
    + right. right. exists i, btn. now split.
  - right. left. eapply first_button_None; eauto.
Qed.

Lemma startswith_app s p r :
  startswith s (p ++ r) = true -> startswith s p = true.
Proof.
  revert s. induction p as [|c p IH]; intros s; [now destruct s|].
  destruct s as [|d s]; cbn; [discriminate|].
  intros H. apply andb_true_iff in H as [-> H]. cbn. eauto.
Qed.

Lemma str_in_app p r s : str_in (p ++ r) s = true -> str_in p s = true.
Proof.
  induction s as [|d s IH]; cbn [str_in]; intros H.
  - rewrite orb_false_r in *. eapply startswith_app; eauto.
  - apply orb_true_iff in H as [H|H]; apply orb_true_iff.
    + left. eapply startswith_app; eauto.
    + right. auto.
Qed.

Section Nav.
Variable navigate : Page -> nat -> Page.


Lemma probe_hit text w i :
  probe_hits text (page w) i -> probe navigate text w = (Ok true, clicked navigate w i).
Proof.
  intros (btn & Hm & Hc). pose proof Hm as (Hi & _).
  unfold probe, try_except. rewrite bind_run.
  unfold find_button. rewrite (first_button_match 0 text _ i btn Hm). cbn [Nat.add].
  rewrite bind_run. unfold button_clickable. rewrite Hi.
  unfold clickable in Hc. rewrite Hc. reflexivity.
Qed.

Lemma probe_miss text w :
  probe_fails text (page w) -> probe navigate text w = (Ok false, w).
Proof.
  intros [Hn | (i & btn & Hm & Hc)]; unfold probe, try_except; rewrite bind_run;
    unfold find_button.
  - now rewrite (first_button_none 0 text _ Hn).
  - pose proof Hm as (Hi & _).
    rewrite (first_button_match 0 text _ i btn Hm). cbn [Nat.add].
    rewrite bind_run. unfold button_clickable. rewrite Hi.
    unfold clickable in Hc. rewrite Hc. reflexivity.
Qed.

Lemma try_submit_miss w :
  probe_fails "Submit application" (page w) -> probe_fails "Submit" (page w) ->
  _try_submit navigate w = (Ok false, w).
Proof.
  intros H1 H2. unfold _try_submit. cbn [probe_each].
  rewrite bind_run, (probe_miss _ _ H1). cbv beta iota.
  rewrite bind_run, (probe_miss _ _ H2). reflexivity.
Qed.

Lemma try_next_miss w :
  probe_fails "Next" (page w) -> probe_fails "Continue" (page w) ->
  probe_fails "Review" (page w) ->
  _try_next navigate w = (Ok false, w).
Proof.
  intros H1 H2 H3. unfold _try_next. cbn [probe_each].
  rewrite bind_run, (probe_miss _ _ H1). cbv beta iota.
  rewrite bind_run, (probe_miss _ _ H2). cbv beta iota.
  rewrite bind_run, (probe_miss _ _ H3). reflexivity.
Qed.

(** The submit probe clicks when the first button with either of its
    texts can be clicked; the button it clicks has "Submit" in its text. *)
Lemma try_submit_hit w :
  (exists i, probe_hits "Submit application" (page w) i) \/
  (exists i, probe_hits "Submit" (page w) i) ->
  exists i btn,
    _try_submit navigate w = (Ok true, clicked navigate w i) /\
    buttons (page w) !! i = Some btn /\
    str_in "Submit" (b_text btn) = true /\ clickable btn = true.
Proof.
  assert (Hsub : forall i, probe_hits "Submit application" (page w) i ->
                 exists btn, probe navigate "Submit application" w
                             = (Ok true, clicked navigate w i) /\
                             buttons (page w) !! i = Some btn /\
                             str_in "Submit" (b_text btn) = true /\
                             clickable btn = true).
  { intros i Hi. pose proof Hi as (btn & (Hb & Ht & _) & Hc). exists btn.
    split; [now apply probe_hit|]. repeat split; auto.
    apply (str_in_app "Submit" " application"). exact Ht. }
  unfold _try_submit. cbn [probe_each]. rewrite bind_run.
  intros [[i Hi] | [i Hi]].
  - destruct (Hsub i Hi) as (btn & -> & H). exists i, btn. now split.
  - destruct (probe_hits_or_fails "Submit application" (page w)) as [[j Hj]|Hf].
    + destruct (Hsub j Hj) as (btn & -> & H). exists j, btn. now split.
    + rewrite (probe_miss _ _ Hf). cbv beta iota.
      rewrite bind_run, (probe_hit _ _ _ Hi).
      destruct Hi as (btn & (Hb & Ht & _) & Hc). exists i, btn. now repeat split.
Qed.

End Nav.

End NavFacts.

(** ** The step budget *)

Module StepFacts.
Import Py Dom Driver FormFiller Spec MFacts FrameFacts NavFacts.

Lemma count_steps_app e1 e2 :
  count_steps (e1 ++ e2) = count_steps e1 + count_steps e2.
Proof. unfold count_steps. now rewrite List.filter_app, length_app. Qed.

Lemma count_steps_field evs : Forall field_event evs -> count_steps evs = 0.
Proof.
  induction 1 as [|e evs He _ IH]; [reflexivity|].
  unfold count_steps in *. destruct e; cbn in *; try contradiction; exact IH.
Qed.

Lemma steps_within_refl w : steps_within 0 w w.
Proof. exists []. split; [now rewrite app_nil_r|reflexivity]. Qed.

Lemma steps_within_trans a b w1 w2 w3 :
  steps_within a w1 w2 -> steps_within b w2 w3 -> steps_within (a + b) w1 w3.
Proof.
  intros (e1 & H1 & Hc1) (e2 & H2 & Hc2). exists (e1 ++ e2)%list. split.
  - now rewrite H2, H1, app_assoc.
  - rewrite count_steps_app. lia.
Qed.

Lemma steps_within_le a b w w' : a <= b -> steps_within a w w' -> steps_within b w w'.
Proof. intros Hab (e & H & Hc). exists e. split; [exact H|lia]. Qed.

Lemma quiet_trans w1 w2 w3 :
  steps_within 0 w1 w2 -> steps_within 0 w2 w3 -> steps_within 0 w1 w3.
Proof. apply (steps_within_trans 0 0). Qed.

Section Steps.
Variable qa : QA.QuestionAnswerer.
Variable docs : gmap string pyval.
Variable navigate : Page -> nat -> Page.
Variable abspath : string -> string.
Variable path_exists : string -> bool.

Local Abbreviation fill := (_fill_current_page qa docs abspath path_exists).
Local Abbreviation run := (run_steps qa docs navigate abspath path_exists).

Lemma fill_quiet : keeps (steps_within 0) fill.
Proof.
  intros w. destruct (frame_fill_current_page qa docs abspath path_exists w)
    as (_ & _ & _ & _ & evs & Ht & He).
  exists evs. split; [exact Ht|]. now rewrite count_steps_field.
Qed.

Lemma probe_quiet text : keeps (steps_within 0) (probe navigate text).
Proof.
  unfold probe, find_button, button_clickable, click_button.
  repeat first
    [ keeps_step steps_within_refl quiet_trans
    | intros w; destruct (first_button _ _ _); apply steps_within_refl
    | intros w; destruct (_ !! _); apply steps_within_refl
    | intros w; exists [EvClickButton a]; split; reflexivity ].
Qed.

Lemma probe_each_quiet texts : keeps (steps_within 0) (probe_each navigate texts).
Proof.
  induction texts as [|text texts IH]; cbn [probe_each].
  - apply (keeps_ret _ steps_within_refl).
  - apply (keeps_bind _ quiet_trans); [apply probe_quiet|].
    intros [|]; [apply (keeps_ret _ steps_within_refl)|apply IH].
Qed.

Lemma try_submit_quiet : keeps (steps_within 0) (_try_submit navigate).
Proof. exact (probe_each_quiet ["Submit application"; "Submit"]). Qed.

Lemma try_next_quiet : keeps (steps_within 0) (_try_next navigate).
Proof. exact (probe_each_quiet ["Next"; "Continue"; "Review"]). Qed.

Lemma try_review_quiet : keeps (steps_within 0) (_try_review navigate).
Proof. exact (probe_quiet "Review"). Qed.

(** The loop runs at most one step for each element of its range. *)
Lemma run_steps_bound steps w :
  steps_within (length steps) w (snd (run steps w)).
Proof.
  revert w. induction steps as [|step steps IH]; intros w; [apply steps_within_refl|].
  cbn [run_steps length]. rewrite bind_run. cbn [emit].
  set (w0 := {| page := page w; trace := (trace w ++ [EvStep (step + 1)])%list |}).
  assert (H0 : steps_within 1 w w0) by (exists [EvStep (step + 1)]; now split).
  apply (steps_within_le (1 + length steps)); [lia|].
  eapply steps_within_trans; [exact H0|]. clear H0. generalize w0. clear w w0.
  assert (Hq : forall (m : M bool) (k : bool -> M bool) n,
             keeps (steps_within 0) m ->
             (forall b w, steps_within n w (snd (k b w))) ->
             forall w, steps_within n w (snd (bind m k w))).
  { intros m k n Hm Hk w. rewrite bind_run. specialize (Hm w).
    destruct (m w) as [[b|e] w1]; cbn in *.
    - apply (steps_within_trans 0 n w w1); [exact Hm|apply Hk].
    - apply (steps_within_le 0); [lia|exact Hm]. }
  intros w. rewrite bind_run. pose proof (fill_quiet w) as Hf.
  destruct (fill w) as [[[]|e] w1]; cbn in Hf |- *;
    [|apply (steps_within_le 0); [lia|exact Hf]].
  apply (steps_within_trans 0 (length steps) w w1); [exact Hf|]. clear Hf w.
  revert w1. apply Hq; [apply try_submit_quiet|]. intros [|] w.
  { apply (steps_within_le 0); [lia|apply steps_within_refl]. }
  revert w. apply Hq; [apply try_next_quiet|]. intros [|] w; [apply IH|].
  revert w. apply Hq; [apply try_review_quiet|]. intros [|] w; [apply IH|].
  apply (steps_within_le 0); [lia|apply steps_within_refl].
Qed.

End Steps.

End StepFacts.

(** ** The driving loop *)

Module RunFacts.
Import Py Dom Driver FormFiller Spec Samples MFacts FrameFacts NavFacts StepFacts.

Section Run.
Variable qa : QA.QuestionAnswerer.
Variable docs : gmap string pyval.
Variable navigate : Page -> nat -> Page.
Variable abspath : string -> string.
Variable path_exists : string -> bool.

Local Abbreviation fill := (_fill_current_page qa docs abspath path_exists).
Local Abbreviation run := (run_steps qa docs navigate abspath path_exists).

(** The start of a step, up to the probes: the step is logged and the
    page is filled, which changes no button. *)
Lemma step_prelude step w :
  fill_completes qa docs abspath path_exists (page w) ->
  exists w1 evs,
    fill {| page := page w; trace := (trace w ++ [EvStep (step + 1)])%list |}
    = (Ok tt, w1) /\
    buttons (page w1) = buttons (page w) /\
    trace w1 = (trace w ++ [EvStep (step + 1)] ++ evs)%list /\
    Forall field_event evs.
Proof.
  intros Hc. specialize (Hc (trace w ++ [EvStep (step + 1)])%list).
  set (w0 := {| page := page w; trace := _ |}) in *.
  destruct (frame_fill_current_page qa docs abspath path_exists w0)
    as (Hb & _ & _ & _ & evs & Ht & He).
  destruct (fill w0) as [r w1]. cbn in *. subst r.
  exists w1, evs. split; [reflexivity|]. split; [exact Hb|]. split; [|exact He].
  now rewrite Ht, <- app_assoc.
Qed.

Lemma probe_fails_buttons text p p' :
  buttons p' = buttons p -> probe_fails text p -> probe_fails text p'.
Proof. unfold probe_fails. now intros ->. Qed.

Lemma probe_hits_buttons text p p' i :
  buttons p' = buttons p -> probe_hits text p i -> probe_hits text p' i.
Proof. unfold probe_hits. now intros ->. Qed.

Lemma run_step_stuck step rest w :
  fill_completes qa docs abspath path_exists (page w) ->
  Forall (fun text => probe_fails text (page w)) probe_texts ->
  exists w' evs,
    run (step :: rest) w = (Ok false, w') /\
    trace w' = (trace w ++ [EvStep (step + 1)] ++ evs)%list /\
    Forall field_event evs.
Proof.
  intros Hc Hp. destruct (step_prelude step w Hc) as (w1 & evs & Hf & Hb & Ht & He).
  assert (Hp1 : Forall (fun text => probe_fails text (page w1)) probe_texts).
  { eapply Forall_impl; [exact Hp|]. intros text. now apply probe_fails_buttons. }
  unfold probe_texts in Hp1.
  repeat match goal with H : Forall _ (_ :: _) |- _ => apply Forall_cons_1 in H as [? H] end.
  exists w1, evs. split; [|now split].
  cbn [run_steps]. rewrite bind_run. cbn [emit].
  rewrite bind_run, Hf. cbv beta iota.
  rewrite bind_run, try_submit_miss by assumption. cbv beta iota.
  rewrite bind_run, try_next_miss by assumption. cbv beta iota.
  unfold _try_review. rewrite bind_run, probe_miss by assumption. reflexivity.
Qed.

End Run.

(** C2, where the code departs from it.  The advance probe [_try_next]
    looks for "Next", "Continue" and then "Review": on a page where the
    first two lookups click nothing and the first button with "Review" in
    its text can be clicked, the advance probe clicks that button.  So on
    a page whose only button reads "Review" the advance probe, not the
    review probe, takes it. *)
Theorem advance_probe_clicks_review :
  (forall (navigate : Page -> nat -> Page) (w : World) (i : nat),
     probe_fails "Next" (page w) -> probe_fails "Continue" (page w) ->
     probe_hits "Review" (page w) i ->
     _try_next navigate w = (Ok true, clicked navigate w i)) /\
  (forall (navigate : Page -> nat -> Page) (tr : list Event),
     _try_next navigate {| page := review_page; trace := tr |}
     = (Ok true, {| page := navigate review_page 0;
                    trace := (tr ++ [EvClickButton 0])%list |})).
Proof.
  split.
  - intros navigate w i Hnext Hcont Hrev. unfold _try_next. cbn [probe_each].
    rewrite bind_run, (probe_miss _ _ _ Hnext). cbv beta iota.
    rewrite bind_run, (probe_miss _ _ _ Hcont). cbv beta iota.
    rewrite bind_run, (probe_hit _ _ _ _ Hrev). reflexivity.
  - intros navigate tr. reflexivity.
Qed.

(** C4.  The driving loop runs at most [max_steps] = 15 steps on every
    surface.  On a page where none of the five probe texts leads to a
    button that can be clicked it runs one step and returns [False],
    provided that the fill pass of the step raises nothing.  Without the
    proviso the run can raise instead: the fill pass lets the
    [AttributeError] of a profile fact of the wrong type through. *)
Theorem stuck_run_is_abandoned
    (qa : QA.QuestionAnswerer) (docs : gmap string pyval)
    (navigate : Page -> nat -> Page)
    (abspath : string -> string) (path_exists : string -> bool) (w : World) :
  steps_within max_steps w
    (snd (fill_application qa docs navigate abspath path_exists w)) /\
  (fill_completes qa docs abspath path_exists (page w) ->
   Forall (fun text => probe_fails text (page w)) probe_texts ->
   exists w' evs,
     fill_application qa docs navigate abspath path_exists w = (Ok false, w') /\
     trace w' = (trace w ++ evs)%list /\
     count_steps evs = 1 /\ count_steps evs <= max_steps).
Proof.
  split.
  - apply (run_steps_bound qa docs navigate abspath path_exists (seq 0 max_steps)).
  - intros Hc Hp. unfold fill_application.
    change (seq 0 max_steps) with (0 :: seq 1 14).
    destruct (run_step_stuck qa docs navigate abspath path_exists 0 (seq 1 14) w Hc Hp)
      as (w' & evs & Hr & Ht & He).
    exists w', ([EvStep (0 + 1)] ++ evs)%list. split; [exact Hr|]. split; [exact Ht|].
    assert (Hn : count_steps ([EvStep (0 + 1)] ++ evs) = 1)
      by (rewrite count_steps_app, (count_steps_field evs He); reflexivity).
    rewrite Hn. unfold max_steps. lia.
Qed.

(** C5, as the code has it.  In any step of the loop whose fill pass
    raises nothing: when the first button, in
    document order, whose text contains "Submit application" can be
    clicked, or the first whose text contains "Submit" can, the step
    clicks a button with "Submit" in its text and the run returns [True];
    between the log line of the step and that click there are only
    operations on form controls, so that neither the advance nor the
    review probe clicks anything, whatever other buttons the page has. *)
Theorem submit_has_priority
    (qa : QA.QuestionAnswerer) (docs : gmap string pyval)
    (navigate : Page -> nat -> Page)
    (abspath : string -> string) (path_exists : string -> bool)
    (step : nat) (rest : list nat) (w : World) :
  fill_completes qa docs abspath path_exists (page w) ->
  (exists i, probe_hits "Submit application" (page w) i) \/
  (exists i, probe_hits "Submit" (page w) i) ->
  exists w' i btn evs,
    run_steps qa docs navigate abspath path_exists (step :: rest) w = (Ok true, w') /\
    trace w' = (trace w ++ [EvStep (step + 1)] ++ evs ++ [EvClickButton i])%list /\
    Forall field_event evs /\
    buttons (page w) !! i = Some btn /\
    str_in "Submit" (b_text btn) = true /\ clickable btn = true.
Proof.
  intros Hc Hs.
  destruct (step_prelude qa docs abspath path_exists step w Hc)
    as (w1 & evs & Hf & Hb & Ht & He).
  assert (Hs1 : (exists i, probe_hits "Submit application" (page w1) i) \/
                (exists i, probe_hits "Submit" (page w1) i)).
  { destruct Hs as [[i Hi]|[i Hi]]; [left|right]; exists i;
      eapply probe_hits_buttons; eauto. }
  destruct (try_submit_hit navigate w1 Hs1) as (i & btn & Hsub & Hi & Htxt & Hclk).
  exists (clicked navigate w1 i), i, btn, evs.
  split; [|split; [|split; [exact He|split; [now rewrite <- Hb|now split]]]].
  - cbn [run_steps]. rewrite bind_run. cbn [emit].
    rewrite bind_run, Hf. cbv beta iota.
    rewrite bind_run, Hsub. reflexivity.
  - cbn. rewrite Ht. now rewrite <- !app_assoc.
Qed.

(** C5, as stated, fails.  On [shadowed_page] a "Submit application"
    button (number 1) and a "Next" button (number 2) are both displayed
    and enabled, but a hidden button with the same text comes first: both
    lookups of the submit probe return the hidden one, and the step clicks
    "Next". *)
Lemma submit_shadowed_by_hidden_button :
  buttons shadowed_page !! 1 = Some (button "Submit application" true) /\
  buttons shadowed_page !! 2 = Some (button "Next" true) /\
  fill_application plain_qa ∅ leave id (fun _ => false) (start shadowed_page)
  = (Ok false, {| page := page_of [];
                  trace := [EvStep 1; EvClickButton 2; EvStep 2] |}).
Proof. repeat split. Qed.

End RunFacts.

(** ** Empty replies *)

Module EmptyFacts.
Import Py PyFacts QA QAFacts Dom Driver FormFiller Spec Samples MFacts TextFacts.

Lemma fill_text_no_answer qa h w f :
  fields (page w) !! h = Some f ->
  truthy (answer qa (label_of (labels (page w)) f) "text") = false ->
  fill_text qa h w = (Ok tt, w).
Proof.
  intros Hf Ha. unfold fill_text, skip_field, try_except.
  rewrite bind_run, (is_displayed_some h w f Hf). cbv beta iota.
  rewrite bind_run, (is_enabled_some h w f Hf). cbv beta iota.
  destruct (negb (displayed f) || negb (enabled f)); [reflexivity|].
  rewrite bind_run, (get_field_some h w f Hf). cbv beta iota zeta.
  destruct (negb _); [reflexivity|].
  rewrite bind_run, (get_label_for_some h w f Hf). cbv beta iota zeta.
  now rewrite Ha.
Qed.

(** C10.  The reply to a free-text question can be the empty text.  When
    no narrative rule has a word in the lower-cased label, the chain of
    well-known fields is tried in order, and a label that reaches "first
    name", "email", "phone"/"mobile", "linkedin", "github" or
    "portfolio"/"website" while the personal fact is absent is answered by
    the empty default of the lookup, not by the generic paragraph.  The
    text-fill body writes nothing for a reply that is empty (falsy): the
    surface stays as it was.  With an empty profile the input labelled
    "First name" is answered "" and stays empty. *)
Theorem text_answer_can_be_empty :
  (forall (self : QuestionAnswerer) (label : string),
     let q := lower label in
     let reply := answer self label "text" in
     let absent key := personal self !! key = None in
     no_word_hit (star_map self) q ->
     (str_in "first name" q = true -> absent "first_name" -> reply = PyStr "") /\
     (str_in "first name" q = false ->
      str_in "last name" q || str_in "surname" q = false ->
      str_in "email" q = true -> absent "email" -> reply = PyStr "") /\
     (str_in "first name" q = false ->
      str_in "last name" q || str_in "surname" q = false ->
      str_in "email" q = false ->
      str_in "phone" q || str_in "mobile" q = true -> absent "phone" ->
      reply = PyStr "") /\
     (str_in "first name" q = false ->
      str_in "last name" q || str_in "surname" q = false ->
      str_in "email" q = false ->
      str_in "phone" q || str_in "mobile" q = false ->
      str_in "city" q = false ->
      (str_in "linkedin" q = true -> absent "linkedin_profile" ->
       reply = PyStr "") /\
      (str_in "linkedin" q = false -> str_in "github" q = true ->
       absent "github_url" -> reply = PyStr "") /\
      (str_in "linkedin" q = false -> str_in "github" q = false ->
       str_in "portfolio" q || str_in "website" q = true ->
       absent "portfolio_url" -> reply = PyStr ""))) /\
  (forall (qa : QuestionAnswerer) (w : World) (h : nat) (f : Field),
     fields (page w) !! h = Some f ->
     truthy (answer qa (label_of (labels (page w)) f) "text") = false ->
     fill_text qa h w = (Ok tt, w)) /\
  (answer plain_qa "First name" "text" = PyStr "" /\
   answer plain_qa "First name" "text" <> PyStr generic_text /\
   let w := start (form_of [text_input "First name"]) in
   _fill_text_inputs plain_qa w = (Ok tt, w)).
Proof.
  split; [|split].
  - intros self label q reply absent Hn. subst q reply absent. cbn beta.
    rewrite answer_text. unfold _free_text_answer.
    rewrite (star_rule_none _ _ Hn). apply common_field_empty.
  - intros qa w h f. apply fill_text_no_answer.
  - split; [vm_compute; reflexivity|]. split; [vm_compute; discriminate|].
    vm_compute. reflexivity.
Qed.

End EmptyFacts.

(** ** One group of radios *)

Module GroupFacts.
Import Py PyFacts QA QAFacts Dom Driver FormFiller Spec MFacts TextFacts.

Section Group.
Variable qa : QuestionAnswerer.

Lemma any_of_selected_run hs w :
  radios_at (fields (page w)) hs ->
  any_of hs is_selected w = (Ok (existsb (selected_at (fields (page w))) hs), w).
Proof.
  induction 1 as [|h hs (f & Hf & _) _ IH]; [reflexivity|].
  cbn [any_of existsb]. rewrite bind_run, (is_selected_some h w f Hf).
  unfold selected_at at 1. rewrite Hf. cbv beta iota.
  destruct (selected f); [reflexivity|exact IH].
Qed.

Lemma click_radio_run h w f :
  fields (page w) !! h = Some f -> kind f = Radio ->
  click h w = if interactable f then (Ok tt, radio_clicked w h f)
              else (Raise ElementNotInteractableException, w).
Proof.
  intros Hf Hk. unfold click. rewrite bind_run, (get_field_some h w f Hf).
  cbv beta iota. rewrite Hk. destruct (interactable f); reflexivity.
Qed.

Lemma try_radio_run a h w f :
  fields (page w) !! h = Some f -> kind f = Radio ->
  try_radio a h w =
  if overlaps a (sibling_label f) && interactable f
  then (Ok true, radio_clicked w h f) else (Ok false, w).
Proof.
  intros Hf Hk. unfold try_radio. rewrite bind_run, (get_field_some h w f Hf).
  cbv beta iota zeta. destruct (overlaps a (sibling_label f)); [|reflexivity].
  unfold try_except. rewrite bind_run, (click_radio_run h w f Hf Hk).
  destruct (interactable f); reflexivity.
Qed.

(** The loop over the members of a group clicks nothing, or clicks one
    member whose adjacent text overlaps the desired answer. *)
Lemma radio_loop_run a hs w :
  radios_at (fields (page w)) hs ->
  for_each_break hs (try_radio a) w = (Ok tt, w) \/
  exists h f, In h hs /\ fields (page w) !! h = Some f /\
              overlaps a (sibling_label f) = true /\
              for_each_break hs (try_radio a) w = (Ok tt, radio_clicked w h f).
Proof.
  induction 1 as [|h hs (f & Hf & Hk) _ IH]; [now left|].
  cbn [for_each_break]. rewrite bind_run, (try_radio_run a h w f Hf Hk).
  destruct (overlaps a (sibling_label f)) eqn:Ho; cbn [andb].
  - destruct (interactable f).
    + right. exists h, f. repeat split; auto. now left.
    + destruct IH as [IH|(h' & f' & Hin & IH)]; [now left|].
      right. exists h', f'. split; [now right|exact IH].
  - destruct IH as [IH|(h' & f' & Hin & IH)]; [now left|].
    right. exists h', f'. split; [now right|exact IH].
Qed.

Lemma radio_loop_none a hs w :
  radios_at (fields (page w)) hs ->
  (forall h f, In h hs -> fields (page w) !! h = Some f ->
               overlaps a (sibling_label f) = false) ->
  for_each_break hs (try_radio a) w = (Ok tt, w).
Proof.
  intros Hr Hn. destruct (radio_loop_run a hs w Hr) as [H|(h & f & Hin & Hf & Ho & _)];
    [exact H|]. rewrite (Hn h f Hin Hf) in Ho. discriminate.
Qed.

Lemma py_lower_boolean label :
  py_lower (answer qa label "boolean") = Ok (lower (py_str (answer qa label "boolean"))).
Proof. rewrite answer_boolean. reflexivity. Qed.

(** What [fill_group] does to a group of radios with first member [first]. *)
Lemma fill_group_run first f1 rest w :
  radios_at (fields (page w)) (first :: rest) ->
  fields (page w) !! first = Some f1 ->
  fill_group qa (first :: rest) w =
  if existsb (selected_at (fields (page w))) (first :: rest)
  then (Ok tt, w)
  else for_each_break (first :: rest)
                      (try_radio (desired qa (labels (page w)) f1)) w.
Proof.
  intros Hr Hf. unfold fill_group.
  rewrite bind_run, (any_of_selected_run _ w Hr).
  destruct (existsb _ _); [reflexivity|]. cbv beta iota.
  rewrite bind_run, (get_label_for_some first w f1 Hf). cbv beta iota zeta.
  rewrite bind_run. unfold lift. rewrite py_lower_boolean. reflexivity.
Qed.

End Group.

End GroupFacts.

(** ** Grouping the radios *)

Module CollectFacts.
Import Py Dom Driver FormFiller Spec MFacts TextFacts GroupFacts.

Lemma handles_from_In i k fs h :
  In h (handles_from i k fs) <->
  i <= h /\ exists f, fs !! (h - i) = Some f /\ kind f = k.
Proof.
  revert i. induction fs as [|f fs IH]; intros i; cbn [handles_from].
  - split; [intros []|]. intros (_ & g & Hg & _). discriminate.
  - assert (Htail : In h (handles_from (S i) k fs) <->
                    i < h /\ exists g, (f :: fs) !! (h - i) = Some g /\ kind g = k).
    { rewrite IH. split.
      - intros (Hle & g & Hg & Hk). split; [lia|]. exists g. split; [|exact Hk].
        replace (h - i) with (S (h - S i)) by lia. exact Hg.
      - intros (Hlt & g & Hg & Hk). split; [lia|]. exists g. split; [|exact Hk].
        replace (h - i) with (S (h - S i)) in Hg by lia. exact Hg. }
    destruct (decide (kind f = k)) as [Hk|Hk].
    + cbn [In]. rewrite Htail. split.
      * intros [<-|(Hlt & Hg)]; [|split; [lia|exact Hg]].
        split; [lia|]. exists f. now rewrite Nat.sub_diag.
      * intros (Hle & g & Hg & Hkg).
        destruct (decide (i = h)) as [->|Hne]; [now left|].
        right. split; [lia|]. now exists g.
    + rewrite Htail. split.
      * intros (Hlt & Hg). split; [lia|exact Hg].
      * intros (Hle & g & Hg & Hkg).
        destruct (decide (i = h)) as [->|Hne].
        -- rewrite Nat.sub_diag in Hg. cbn in Hg. congruence.
        -- split; [lia|]. now exists g.
Qed.

Lemma handles_from_sorted i k fs : StronglySorted lt (handles_from i k fs).
Proof.
  revert i. induction fs as [|f fs IH]; intros i; cbn [handles_from]; [constructor|].
  destruct (decide (kind f = k)); [|apply IH].
  constructor; [apply IH|]. apply List.Forall_forall. intros h Hh.
  apply handles_from_In in Hh. lia.
Qed.

Lemma filter_sorted (test : nat -> bool) l :
  StronglySorted lt l -> StronglySorted lt (List.filter test l).
Proof.
  induction 1 as [|x l Hs IH Hx]; cbn; [constructor|].
  destruct (test x); [|exact IH]. constructor; [exact IH|].
  apply List.Forall_forall. intros y Hy. apply filter_In in Hy as [Hy _].
  rewrite List.Forall_forall in Hx. auto.
Qed.

Lemma sorted_head_least x l y :
  StronglySorted lt (x :: l) -> In y (x :: l) -> x <= y.
Proof.
  intros Hs [<-|Hy]; [lia|]. apply StronglySorted_inv in Hs as [_ Hx].
  rewrite List.Forall_forall in Hx. specialize (Hx y Hy). lia.
Qed.

(** The radios of the page filed under [k] are the members of the group. *)
Lemma members_of_In fs k h :
  In h (members_of fs k (handles_from 0 Radio fs)) <-> member fs k h.
Proof.
  unfold members_of, member. rewrite filter_In, handles_from_In, Nat.sub_0_r. split.
  - intros ((_ & f & Hf & Hk) & Hkey). rewrite Hf in Hkey.
    exists f. repeat split; auto. now apply String.eqb_eq.
  - intros (f & Hf & Hk & Hkey). split; [split; [lia|now exists f]|].
    rewrite Hf. now apply String.eqb_eq.
Qed.

Lemma group_get_add groups k h k' :
  group_get (group_add groups k h) k' =
  if k =? k' then (group_get groups k' ++ [h])%list else group_get groups k'.
Proof.
  unfold group_get. induction groups as [|[n hs] groups IH]; cbn [group_add find fst snd].
  - destruct (k =? k'); reflexivity.
  - destruct (String.eqb_spec n k) as [->|Hnk]; cbn [find fst snd].
    + destruct (k =? k'); reflexivity.
    + destruct (String.eqb_spec n k') as [->|Hnk'].
      * destruct (String.eqb_spec k k'); [congruence|reflexivity].
      * exact IH.
Qed.

Lemma grouped_get fs radios groups k :
  group_get (grouped fs radios groups) k =
  (group_get groups k ++ members_of fs k radios)%list.
Proof.
  unfold members_of. revert groups.
  induction radios as [|r radios IH]; intros groups; cbn [grouped List.filter];
    [now rewrite app_nil_r|].
  destruct (fs !! r) as [f|]; [|apply IH].
  rewrite IH, group_get_add. destruct (group_key f =? k); [|reflexivity].
  now rewrite <- app_assoc.
Qed.

Lemma group_add_keys groups k h :
  map fst (group_add groups k h) =
  if existsb (fun n => n =? k) (map fst groups) then map fst groups
  else (map fst groups ++ [k])%list.
Proof.
  induction groups as [|[n hs] groups IH]; cbn [group_add map fst existsb];
    [reflexivity|].
  destruct (n =? k); cbn [map fst orb]; [reflexivity|].
  rewrite IH. destruct (existsb _ _); reflexivity.
Qed.

Lemma group_add_NoDup groups k h :
  NoDup (map fst groups) -> NoDup (map fst (group_add groups k h)).
Proof.
  intros Hn. rewrite group_add_keys.
  destruct (existsb _ _) eqn:E; [exact Hn|].
  apply NoDup_app. split; [exact Hn|]. split; [|repeat constructor; intros []%elem_of_nil].
  intros n Hin Hk%list_elem_of_singleton. subst n.
  apply list_elem_of_In in Hin.
  assert (existsb (fun n => n =? k) (map fst groups) = true); [|congruence].
  apply existsb_exists. exists k. split; [exact Hin|apply String.eqb_refl].
Qed.

Lemma grouped_NoDup fs radios groups :
  NoDup (map fst groups) -> NoDup (map fst (grouped fs radios groups)).
Proof.
  revert groups. induction radios as [|r radios IH]; intros groups Hn;
    cbn [grouped]; [exact Hn|].
  destruct (fs !! r); auto using group_add_NoDup.
Qed.

Lemma group_get_In groups k hs :
  NoDup (map fst groups) -> In (k, hs) groups -> group_get groups k = hs.
Proof.
  unfold group_get. induction groups as [|[n hs'] groups IH]; intros Hn Hin; [destruct Hin|].
  cbn [map fst] in Hn. apply NoDup_cons in Hn as [Hnotin Hn].
  cbn [find fst snd]. destruct Hin as [[= -> ->]|Hin].
  - now rewrite String.eqb_refl.
  - destruct (String.eqb_spec n k) as [->|_]; [|auto].
    exfalso. apply Hnotin. apply list_elem_of_In.
    change k with (fst (k, hs)). now apply in_map.
Qed.

(** The first loop of [_fill_radios] reads the controls and changes
    nothing. *)
Lemma collect_groups_run radios groups w :
  collect_groups radios groups w = (Ok (grouped (fields (page w)) radios groups), w).
Proof.
  revert groups. induction radios as [|r radios IH]; intros groups;
    cbn [collect_groups grouped]; [reflexivity|].
  rewrite bind_run. unfold try_except. rewrite bind_run. unfold get_field.
  destruct (fields (page w) !! r) as [f|]; cbv beta iota; apply IH.
Qed.

End CollectFacts.

(** ** Groups do not interfere *)

Module KeptFacts.
Import Py Dom Driver FormFiller Spec MFacts TextFacts GroupFacts CollectFacts.

Lemma set_selected_selected f : set_selected f (selected f) = f.
Proof. now destruct f. Qed.

Lemma set_selected_twice f b b' :
  set_selected (set_selected f b) b' = set_selected f b'.
Proof. reflexivity. Qed.

Lemma shape_refl fs : shape fs fs.
Proof. intros h f Hf. exists (selected f). now rewrite set_selected_selected. Qed.

Lemma shape_trans fs1 fs2 fs3 : shape fs1 fs2 -> shape fs2 fs3 -> shape fs1 fs3.
Proof.
  intros H1 H2 h f Hf. destruct (H1 h f Hf) as [b Hb].
  destruct (H2 h _ Hb) as [b' Hb']. exists b'. now rewrite Hb', set_selected_twice.
Qed.

Lemma member_shape fs fs' k h : shape fs fs' -> member fs k h -> member fs' k h.
Proof.
  intros Hs (f & Hf & Hk & Hkey). destruct (Hs h f Hf) as [b Hb].
  exists (set_selected f b). now repeat split.
Qed.

Lemma group_ok_shape fs fs' g : shape fs fs' -> group_ok fs g -> group_ok fs' g.
Proof.
  intros Hs [Hne Hm]. split; [exact Hne|].
  eapply Forall_impl; [exact Hm|]. intros h. now apply member_shape.
Qed.

Lemma group_kept_refl k w : group_kept k w w.
Proof.
  split; [reflexivity|]. split; [apply shape_refl|]. split; [reflexivity|].
  exists []. split; [now rewrite app_nil_r|]. intros h _ [].
Qed.

Lemma group_kept_trans k w1 w2 w3 :
  group_kept k w1 w2 -> group_kept k w2 w3 -> group_kept k w1 w3.
Proof.
  intros (Hl1 & Hs1 & Hm1 & e1 & Ht1 & He1) (Hl2 & Hs2 & Hm2 & e2 & Ht2 & He2).
  split; [congruence|]. split; [eapply shape_trans; eauto|]. split.
  - intros h Hh. rewrite <- (Hm1 h Hh). apply Hm2. eapply member_shape; eauto.
  - exists (e1 ++ e2)%list. split; [now rewrite Ht2, Ht1, app_assoc|].
    intros h Hh Hin. apply List.in_app_iff in Hin as [Hin|Hin].
    + now apply (He1 h).
    + apply (He2 h); [eapply member_shape; eauto|exact Hin].
Qed.

Lemma check_radio_lookup h f fs j :
  check_radio h f fs !! j =
  (fun g => if decide (j = h) then set_selected g true
            else if decide (kind g = Radio /\ name g = name f /\
                            default "" (name f) <> "")
                 then set_selected g false else g) <$> fs !! j.
Proof. unfold check_radio. now rewrite list_lookup_imap. Qed.

Lemma shape_check_radio h f fs : shape fs (check_radio h f fs).
Proof.
  intros j g Hg. rewrite check_radio_lookup, Hg. cbn.
  destruct (decide (j = h)); [now eexists|].
  destruct (decide _); [now eexists|].
  exists (selected g). now rewrite set_selected_selected.
Qed.

(** A click on a radio of another group leaves the group [k] alone. *)
Lemma group_kept_click k w h f :
  fields (page w) !! h = Some f -> kind f = Radio -> group_key f <> k ->
  group_kept k w (radio_clicked w h f).
Proof.
  intros Hf Hk Hkey. split; [reflexivity|]. split; [apply shape_check_radio|]. split.
  - intros j (g & Hg & Hkg & Hkeyg). cbn. rewrite check_radio_lookup, Hg. cbn.
    destruct (decide (j = h)) as [->|Hne]; [congruence|].
    destruct (decide _) as [(_ & Hn & _)|_]; [|reflexivity].
    exfalso. apply Hkey. unfold group_key in *. now rewrite <- Hn.
  - exists [EvClickField h]. split; [reflexivity|].
    intros j (g & Hg & _ & Hkeyg) [[= ->]|[]]. congruence.
Qed.

Section Groups.
Variable qa : QA.QuestionAnswerer.

Lemma members_radios_at fs k hs : Forall (member fs k) hs -> radios_at fs hs.
Proof.
  intros H. eapply Forall_impl; [exact H|].
  intros h (f & Hf & Hk & _). now exists f.
Qed.

(** The outcome of [fill_group] on a group: nothing, or one click on a
    member whose adjacent text overlaps the desired answer, no member
    being selected. *)
Lemma fill_group_cases k0 first rest f1 w :
  Forall (member (fields (page w)) k0) (first :: rest) ->
  fields (page w) !! first = Some f1 ->
  fill_group qa (first :: rest) w = (Ok tt, w) \/
  exists h f,
    In h (first :: rest) /\ fields (page w) !! h = Some f /\
    existsb (selected_at (fields (page w))) (first :: rest) = false /\
    overlaps (desired qa (labels (page w)) f1) (sibling_label f) = true /\
    fill_group qa (first :: rest) w = (Ok tt, radio_clicked w h f).
Proof.
  intros Hm Hf1. pose proof (members_radios_at _ _ _ Hm) as Hr.
  rewrite (fill_group_run qa first f1 rest w Hr Hf1).
  destruct (existsb _ _) eqn:Hsel; [now left|].
  destruct (radio_loop_run (desired qa (labels (page w)) f1) (first :: rest) w Hr)
    as [H|(h & f & Hin & Hf & Ho & H)]; [now left|].
  right. exists h, f. now repeat split.
Qed.


(** Processing groups other than [k] raises nothing and leaves [k] alone. *)
Lemma others_run k groups w :
  Forall (fun g => fst g <> k /\ group_ok (fields (page w)) g) groups ->
  exists w1, for_each groups (group_body qa) w = (Ok tt, w1) /\ group_kept k w w1.
Proof.
  revert w. induction groups as [|[k0 hs] groups IH]; intros w Hg.
  - exists w. split; [reflexivity|apply group_kept_refl].
  - apply Forall_cons_1 in Hg as [(Hk0 & Hne & Hm) Hg]. cbn [fst snd] in *.
    destruct hs as [|first rest]; [congruence|].
    assert (Hfirst : member (fields (page w)) k0 first).
    { apply Forall_cons_1 in Hm. tauto. }
    destruct Hfirst as (f1 & Hf1 & _).
    assert (Hstep : exists w1, group_body qa (k0, first :: rest) w = (Ok tt, w1) /\
                               group_kept k w w1).
    { unfold group_body. cbn [snd].
      destruct (fill_group_cases k0 first rest f1 w Hm Hf1)
        as [H|(h & f & Hin & Hf & _ & _ & H)]; rewrite H.
      - exists w. split; [reflexivity|apply group_kept_refl].
      - exists (radio_clicked w h f). split; [reflexivity|].
        rewrite Forall_forall in Hm. apply list_elem_of_In in Hin.
        destruct (Hm h Hin) as (f' & Hf' & Hkind & Hkey).
        rewrite Hf in Hf'. injection Hf' as <-.
        apply group_kept_click; auto. congruence. }
    destruct Hstep as (w1 & Hb & Hk1). pose proof Hk1 as (_ & Hs & _).
    destruct (IH w1) as (w2 & Hrest & Hk2).
    { eapply Forall_impl; [exact Hg|]. intros g [? ?]. split; [assumption|].
      eapply group_ok_shape; eauto. }
    exists w2. split; [|eapply group_kept_trans; eauto].
    cbn [for_each]. rewrite bind_run, Hb. exact Hrest.
Qed.

Lemma for_each_app {A : Type} (l1 l2 : list A) (f : A -> M unit) w :
  for_each (l1 ++ l2) f w =
  match for_each l1 f w with
  | (Ok _, w1) => for_each l2 f w1
  | (Raise e, w1) => (Raise e, w1)
  end.
Proof.
  revert w. induction l1 as [|x l1 IH]; intros w; [reflexivity|].
  cbn [app for_each]. rewrite !bind_run.
  destruct (f x w) as [[[]|e] w1]; [apply IH|reflexivity].
Qed.

End Groups.

End KeptFacts.

(** ** The radio pass *)

Module RadioFacts.
Import Py Dom Driver FormFiller Spec MFacts TextFacts GroupFacts
  CollectFacts KeptFacts.

Lemma group_add_nonempty groups k h g :
  Forall (fun g => snd g <> []) groups ->
  In g (group_add groups k h) -> snd g <> [].
Proof.
  induction 1 as [|[n hs] groups Hg Hrest IH]; cbn [group_add].
  - intros [<-|[]]. discriminate.
  - destruct (n =? k).
    + intros [<-|Hin]; cbn [snd].
      * now destruct hs.
      * rewrite List.Forall_forall in Hrest. auto.
    + intros [<-|Hin]; [exact Hg|auto].
Qed.

Lemma grouped_nonempty fs radios groups :
  Forall (fun g => snd g <> []) groups ->
  Forall (fun g => snd g <> []) (grouped fs radios groups).
Proof.
  revert groups. induction radios as [|r radios IH]; intros groups Hg;
    cbn [grouped]; [exact Hg|].
  destruct (fs !! r) as [f|]; [|auto]. apply IH.
  apply List.Forall_forall. intros g. now apply group_add_nonempty.
Qed.

Section Pass.
Variable qa : QA.QuestionAnswerer.
Variable w : World.

Local Abbreviation fs := (fields (page w)).
Local Abbreviation radios := (handles_from 0 Radio (fields (page w))).
Local Abbreviation groups := (grouped (fields (page w)) radios []).

Lemma groups_NoDup : NoDup (map fst groups).
Proof. apply grouped_NoDup. constructor. Qed.

Lemma groups_members k hs : In (k, hs) groups -> hs = members_of fs k radios.
Proof.
  intros Hin. rewrite <- (group_get_In groups k hs groups_NoDup Hin).
  now rewrite grouped_get.
Qed.

Lemma groups_ok g : In g groups -> group_ok fs g.
Proof.
  intros Hin. split.
  - pose proof (grouped_nonempty fs radios [] (List.Forall_nil _)) as H.
    rewrite List.Forall_forall in H. auto.
  - destruct g as [k hs]. cbn [fst snd]. rewrite (groups_members k hs Hin).
    apply List.Forall_forall. intros h. apply members_of_In.
Qed.

Lemma members_sorted k : StronglySorted lt (members_of fs k radios).
Proof. apply filter_sorted, handles_from_sorted. Qed.

(** When the pass left the group alone the verdict holds. *)
Lemma verdict_kept k w' :
  group_kept k w w' ->
  exists evs, trace w' = (trace w ++ evs)%list /\ group_verdict qa k w w' evs.
Proof.
  intros (_ & _ & Hm & evs & Ht & He). exists evs. split; [exact Ht|].
  assert (Hkept : forall h, member fs k h ->
            fields (page w') !! h = fs !! h /\ ~ In (EvClickField h) evs)
    by (intros h Hh; split; auto).
  split; [intros _; exact Hkept|].
  intros _ first f1 _ _. split; [|intros _; exact Hkept].
  intros h f Hh _ Hin. now destruct (He h Hh).
Qed.

(** When the pass clicked one member of the group, which overlaps the
    desired answer while no member was selected, the verdict holds. *)
Lemma verdict_click k first rest w1 w3 h f f1 :
  members_of fs k radios = first :: rest ->
  group_kept k w w1 ->
  In h (first :: rest) ->
  fields (page w1) !! h = Some f ->
  fields (page w1) !! first = Some f1 ->
  existsb (selected_at (fields (page w1))) (first :: rest) = false ->
  overlaps (desired qa (labels (page w1)) f1) (sibling_label f) = true ->
  group_kept k (radio_clicked w1 h f) w3 ->
  exists evs, trace w3 = (trace w ++ evs)%list /\ group_verdict qa k w w3 evs.
Proof.
  intros Hhs (Hl1 & Hs1 & Hm1 & e1 & Ht1 & He1) Hin Hf Hf1 Hsel Ho
         (_ & _ & _ & e3 & Ht3 & He3).
  assert (Hmem : forall j, In j (first :: rest) <-> member fs k j).
  { intros j. rewrite <- Hhs. apply members_of_In. }
  assert (Hh : member fs k h) by now apply Hmem.
  assert (Hfw : fs !! h = Some f) by (rewrite <- (Hm1 h Hh); exact Hf).
  exists (e1 ++ [EvClickField h] ++ e3)%list. split.
  { rewrite Ht3. cbn [radio_clicked trace]. rewrite Ht1.
    now rewrite <- !app_assoc. }
  split.
  - intros (j & g & Hg & Hkg & Hkeyg & Hselg). exfalso.
    assert (Hj : member fs k j) by (exists g; now repeat split).
    assert (existsb (selected_at (fields (page w1))) (first :: rest) = true);
      [|congruence].
    apply existsb_exists. exists j. split; [now apply Hmem|].
    unfold selected_at. now rewrite (Hm1 j Hj), Hg.
  - intros _ first' f1' (Hfm & Hleast) Hf1'.
    assert (first' = first) as ->.
    { assert (first <= first') by
        (apply (sorted_head_least first rest);
         [rewrite <- Hhs; apply members_sorted|now apply Hmem]).
      assert (first' <= first) by (apply Hleast, Hmem; now left). lia. }
    assert (f1' = f1) as ->.
    { assert (Hm : member fs k first) by (apply Hmem; now left).
      rewrite <- (Hm1 first Hm), Hf1 in Hf1'. congruence. }
    rewrite <- Hl1. cbv zeta. split.
    + intros j g Hj Hg Hclick.
      apply List.in_app_iff in Hclick as [Hclick|Hclick];
        [now destruct (He1 j Hj)|].
      destruct Hclick as [[= ->]|Hclick]; [congruence|].
      exfalso. apply (He3 j); [|exact Hclick].
      eapply member_shape; [apply shape_check_radio|].
      eapply member_shape; eauto.
    + intros Hnone. rewrite (Hnone h f Hh Hfw) in Ho. discriminate.
Qed.

(** The radio pass raises nothing.  Seen from the group [k], it leaves
    the group alone, or it goes through three phases: other groups, one
    click on a member of [k] that overlaps the desired answer while no
    member is selected, other groups again. *)
Lemma radio_pass_run (k : string) :
  exists w',
    _fill_radios qa w = (Ok tt, w') /\
    (group_kept k w w' \/
     exists first rest w1 h f f1,
       members_of fs k radios = first :: rest /\
       group_kept k w w1 /\
       In h (first :: rest) /\
       fields (page w1) !! h = Some f /\
       fields (page w1) !! first = Some f1 /\
       existsb (selected_at (fields (page w1))) (first :: rest) = false /\
       overlaps (desired qa (labels (page w1)) f1) (sibling_label f) = true /\
       group_kept k (radio_clicked w1 h f) w').
Proof.
  unfold _fill_radios. rewrite bind_run. cbn [find_elements].
  rewrite bind_run, collect_groups_run. cbv beta iota.
  fold (group_body qa).
  assert (Hothers : forall gs, incl gs groups -> ~ In k (map fst gs) ->
            forall fs', shape fs fs' ->
            Forall (fun g => fst g <> k /\ group_ok fs' g) gs).
  { intros gs Hincl Hk fs' Hs. apply List.Forall_forall. intros g Hg. split.
    - intros <-. apply Hk. now apply in_map.
    - eapply group_ok_shape; [exact Hs|]. apply groups_ok, Hincl, Hg. }
  destruct (in_dec string_dec k (map fst groups)) as [Hin|Hout].
  - apply in_map_iff in Hin as ([k' hs] & Hk' & Hin). cbn [fst] in Hk'. subst k'.
    pose proof (groups_members k hs Hin) as Hhs.
    pose proof (groups_ok _ Hin) as [Hne Hmem]. cbn [fst snd] in Hne, Hmem.
    pose proof groups_NoDup as Hnd.
    apply in_split in Hin as (G1 & G2 & HG). rewrite HG in Hnd |- *.
    rewrite map_app in Hnd. cbn [map fst] in Hnd.
    apply NoDup_app in Hnd as (_ & Hdisj & Hnd2).
    apply NoDup_cons in Hnd2 as [Hk2 _].
    assert (Hk1 : ~ In k (map fst G1)).
    { intros H. apply list_elem_of_In in H. apply (Hdisj k H). now left. }
    assert (Hk2' : ~ In k (map fst G2)) by (now rewrite <- list_elem_of_In).
    assert (Hi1 : incl G1 groups).
    { rewrite HG. intros g Hg. apply List.in_app_iff. now left. }
    assert (Hi2 : incl G2 groups).
    { rewrite HG. intros g Hg. apply List.in_app_iff. right. now right. }
    destruct (others_run qa k G1 w (Hothers G1 Hi1 Hk1 fs (shape_refl fs)))
      as (w1 & Hrun1 & Hkept1).
    pose proof Hkept1 as (_ & Hs1 & Hm1 & _).
    rewrite for_each_app, Hrun1. cbn [for_each]. rewrite bind_run.
    destruct hs as [|first rest]; [congruence|].
    assert (Hmem1 : Forall (member (fields (page w1)) k) (first :: rest)).
    { eapply Forall_impl; [exact Hmem|]. intros h. now apply member_shape. }
    assert (Hf1 : exists f1, fields (page w1) !! first = Some f1).
    { apply Forall_cons_1 in Hmem1 as [(f1 & Hf1 & _) _]. now exists f1. }
    destruct Hf1 as [f1 Hf1]. unfold group_body at 1. cbn [snd].
    destruct (fill_group_cases qa k first rest f1 w1 Hmem1 Hf1)
      as [H|(h & f & Hinh & Hf & Hsel & Ho & H)]; rewrite H; cbv beta iota.
    + destruct (others_run qa k G2 w1 (Hothers G2 Hi2 Hk2' _ Hs1))
        as (w3 & Hrun3 & Hkept3).
      exists w3. split; [exact Hrun3|]. left.
      eapply group_kept_trans; eauto.
    + assert (Hs2 : shape fs (fields (page (radio_clicked w1 h f)))).
      { eapply shape_trans; [exact Hs1|apply shape_check_radio]. }
      destruct (others_run qa k G2 _ (Hothers G2 Hi2 Hk2' _ Hs2))
        as (w3 & Hrun3 & Hkept3).
      exists w3. split; [exact Hrun3|]. right.
      exists first, rest, w1, h, f, f1.
      exact (conj (eq_sym Hhs) (conj Hkept1 (conj Hinh (conj Hf (conj Hf1
               (conj Hsel (conj Ho Hkept3))))))).
  - destruct (others_run qa k groups w
                (Hothers groups (incl_refl _) Hout fs (shape_refl fs)))
      as (w1 & Hrun & Hkept).
    exists w1. split; [exact Hrun|now left].
Qed.

End Pass.

(** C8.  The radio pass raises nothing, and for every group of radios
    (the radios that share the key [k], their name): if a member is
    already selected, every member keeps its state and none is clicked;
    otherwise the desired answer is the boolean reply to the label of the
    first member, every member that is clicked has an adjacent text that
    overlaps it (either contains the other, case-insensitively), and when
    no member overlaps, every member keeps its state and none is
    clicked. *)
Theorem radio_group_policy (qa : QA.QuestionAnswerer) (w : World) (k : string) :
  let fs := fields (page w) in
  exists w' evs,
    _fill_radios qa w = (Ok tt, w') /\
    trace w' = (trace w ++ evs)%list /\
    let kept := forall h, member fs k h ->
                  fields (page w') !! h = fs !! h /\ ~ In (EvClickField h) evs in
    (any_selected fs k -> kept) /\
    (~ any_selected fs k ->
     forall first f1,
       first_member fs k first -> fs !! first = Some f1 ->
       let want := desired qa (labels (page w)) f1 in
       (forall h f, member fs k h -> fs !! h = Some f ->
                    In (EvClickField h) evs ->
                    overlaps want (sibling_label f) = true) /\
       ((forall h f, member fs k h -> fs !! h = Some f ->
                     overlaps want (sibling_label f) = false) -> kept)).
Proof.
  intros fs. destruct (radio_pass_run qa w k) as (w' & Hrun & Hcase).
  exists w'.
  assert (Hv : exists evs, trace w' = (trace w ++ evs)%list /\
                           group_verdict qa k w w' evs).
  { destruct Hcase as [Hkept|Hclick].
    - now apply verdict_kept.
    - destruct Hclick as (first & rest & w1 & h & f & f1 & Hhs & Hkept1 & Hin &
                          Hf & Hf1 & Hsel & Ho & Hkept3).
      eapply verdict_click; eauto. }
  destruct Hv as (evs & Ht & Hv). exists evs.
  split; [exact Hrun|]. split; [exact Ht|exact Hv].
Qed.

End RadioFacts.

(** ** On the quiet surface the fill pass raises nothing on a well-typed profile *)

Module TotalFacts.
Import Py QA Dom Driver FormFiller Spec MFacts QAFacts TextFacts RadioFacts.

Lemma total_ret {A : Type} (a : A) : total (ret a).
Proof. intros w. now exists a. Qed.

Lemma total_bind {A B : Type} (m : M A) (k : A -> M B) :
  total m -> (forall a, total (k a)) -> total (bind m k).
Proof.
  intros Hm Hk w. rewrite bind_run. destruct (Hm w) as [a Ha].
  destruct (m w) as [r w1]. cbn in Ha. subst r. apply Hk.
Qed.

Lemma total_for_each {A : Type} (xs : list A) (body : A -> M unit) :
  (forall x, total (body x)) -> total (for_each xs body).
Proof.
  intros H. induction xs as [|x xs IH]; cbn [for_each]; [apply total_ret|].
  apply total_bind; auto.
Qed.

Lemma total_find_elements k : total (find_elements k).
Proof. intros w. now eexists. Qed.

Section Allowed.
Variable allowed : exn -> bool.

Lemma ro_ret {A : Type} (a : A) : raises_only allowed (ret a).
Proof. intros w. exact I. Qed.

Lemma ro_raise {A : Type} (e : exn) :
  allowed e = true -> raises_only allowed (@raise A e).
Proof. intros H w. exact H. Qed.

Lemma ro_bind {A B : Type} (m : M A) (k : A -> M B) :
  raises_only allowed m -> (forall a, raises_only allowed (k a)) ->
  raises_only allowed (bind m k).
Proof.
  intros Hm Hk w. rewrite bind_run. specialize (Hm w).
  destruct (m w) as [[a|e] w1]; cbn in *; [apply Hk|exact Hm].
Qed.

Lemma ro_get_field h :
  allowed StaleElementReferenceException = true ->
  raises_only allowed (get_field h).
Proof. intros H w. unfold get_field. now destruct (_ !! _). Qed.

Lemma ro_put_field h f : raises_only allowed (put_field h f).
Proof. intros w. exact I. Qed.

Lemma ro_emit e : raises_only allowed (emit e).
Proof. intros w. exact I. Qed.

Lemma ro_state {A : Type} (f : World -> A * World) :
  raises_only allowed (fun w => (Ok (fst (f w)), snd (f w))).
Proof. intros w. exact I. Qed.

End Allowed.

Lemma total_skip_field body :
  raises_only stale_or_blocked body -> total (skip_field body).
Proof.
  intros H w. unfold skip_field, try_except. specialize (H w).
  destruct (body w) as [[[]|e] w1]; cbn in *; [now eexists|].
  rewrite H. now eexists.
Qed.

(** Splits a goal [raises_only stale_or_blocked m]. *)
Ltac ro_step :=
  first
    [ apply ro_ret
    | apply ro_raise; reflexivity
    | apply ro_get_field; reflexivity
    | apply ro_put_field
    | apply ro_emit
    | apply ro_bind; [|intros]
    | intros ?; exact I
    | match goal with
      | |- raises_only _ (if ?b then _ else _) => destruct b
      | |- raises_only _ (match ?x with _ => _ end) => destruct x
      end ].

Section Filler.
Variable qa : QuestionAnswerer.
Variable docs : gmap string pyval.
Variable abspath : string -> string.
Variable path_exists : string -> bool.
Hypothesis qa_typed : text_facts qa.
Hypothesis docs_typed : doc_paths docs.

Lemma total_fill_text h : total (fill_text qa h).
Proof.
  unfold fill_text. apply total_skip_field.
  unfold is_displayed, is_enabled, _get_label_for, clear, send_keys.
  repeat ro_step.
Qed.

Lemma total_fill_checkboxes : total _fill_checkboxes.
Proof.
  unfold _fill_checkboxes. apply total_bind; [apply total_find_elements|].
  intros hs. apply total_for_each. intros cb. apply total_skip_field.
  unfold is_displayed, is_selected, _get_label_for, click.
  repeat ro_step.
Qed.

Lemma ro_abs_path path :
  path_fact path ->
  raises_only stale_or_blocked
    (if truthy path then
       match path with
       | PyStr p => ret (if isabs p then p else abspath p)
       | _ => raise TypeError
       end
     else ret "").
Proof.
  intros Hp. destruct (truthy path) eqn:Ht; [|apply ro_ret].
  destruct (Hp Ht) as [s ->]. apply ro_ret.
Qed.

Lemma total_handle_file_uploads :
  total (_handle_file_uploads docs abspath path_exists).
Proof.
  destruct docs_typed as [Hcover Hcv].
  unfold _handle_file_uploads. apply total_bind; [apply total_find_elements|].
  intros hs. apply total_for_each. intros fi. apply total_skip_field.
  unfold _get_label_for.
  apply ro_bind; [repeat ro_step|]. intros label_text. cbv zeta.
  apply ro_bind.
  - destruct (str_in "cover" (lower label_text)); now apply ro_abs_path.
  - intros abs_path. unfold send_keys. repeat ro_step.
Qed.

(** The option that the engine picks is among those of the control. *)
Lemma eligible_option_listed f best :
  In best (eligible_options f) ->
  existsb (fun o => o_text o =? best) (options f) = true.
Proof.
  unfold eligible_options. intros H. apply in_map_iff in H as (o & <- & Ho).
  apply filter_In in Ho as [Ho _]. apply existsb_exists.
  exists o. split; [exact Ho|apply String.eqb_refl].
Qed.

Lemma total_fill_selects : total (_fill_selects qa).
Proof.
  unfold _fill_selects. apply total_bind; [apply total_find_elements|].
  intros hs. apply total_for_each. intros sel w.
  unfold skip_field, try_except. rewrite bind_run.
  destruct (fields (page w) !! sel) as [f|] eqn:Hf.
  2:{ unfold is_displayed. rewrite bind_run. unfold get_field. rewrite Hf.
      now eexists. }
  rewrite (is_displayed_some sel w f Hf). cbv beta iota.
  rewrite bind_run, (is_enabled_some sel w f Hf). cbv beta iota.
  destruct (negb (displayed f) || negb (enabled f)); [now eexists|].
  rewrite bind_run, (get_label_for_some sel w f Hf). cbv beta iota.
  rewrite bind_run, (get_field_some sel w f Hf). cbv beta iota zeta.
  destruct (eligible_options f) as [|o0 os] eqn:Hopts; [now eexists|].
  rewrite bind_run. unfold lift.
  destruct (best_dropdown_option_returns qa (label_of (labels (page w)) f)
              (o0 :: os) qa_typed) as [best Hbest].
  assert (Hin : In best (o0 :: os))
    by (eapply best_dropdown_option_sound; [discriminate|exact Hbest]).
  rewrite Hbest.
  unfold select_by_visible_text. rewrite bind_run, (get_field_some sel w f Hf).
  cbv beta iota. rewrite <- Hopts in Hin.
  rewrite (eligible_option_listed f best Hin).
  destruct (interactable f); now eexists.
Qed.

Lemma total_fill_radios : total (_fill_radios qa).
Proof.
  intros w. destruct (radio_pass_run qa w "") as (w' & -> & _).
  now eexists.
Qed.

Lemma total_fill_modal : total (fill_modal qa docs abspath path_exists).
Proof.
  unfold fill_modal, _fill_text_inputs, _fill_textareas.
  repeat first
    [ apply total_fill_selects | apply total_fill_radios
    | apply total_fill_checkboxes | apply total_handle_file_uploads
    | apply total_find_elements
    | apply total_for_each; intros; apply total_fill_text
    | apply total_bind; [|intros] ].
Qed.

(** The fill pass completes on every page when the profile facts that
    the engine lower-cases and the document paths are strings. *)
Lemma fill_completes_typed (p : Page) :
  fill_completes qa docs abspath path_exists p.
Proof.
  intros tr. unfold _fill_current_page. cbn [page].
  destruct (modal_present p); [|reflexivity].
  destruct (total_fill_modal {| page := p; trace := tr |}) as [[] H]. exact H.
Qed.

End Filler.
End TotalFacts.

(** ** The tests of the repository, run on the embedding *)

Module Tests.
Import Py QA Dom Driver FormFiller Spec Samples.

Example test_boolean_yes :
  answer sample_qa "Are you authorized to work in India?" "boolean" = PyStr "Yes".
Proof. vm_compute. reflexivity. Qed.

Example test_boolean_no :
  answer sample_qa "Will you require sponsorship?" "boolean" = PyStr "No".
Proof. vm_compute. reflexivity. Qed.

Example test_numeric_experience :
  answer sample_qa "How many years of experience do you have?" "numeric"
  = PyStr "3".
Proof. vm_compute. reflexivity. Qed.

Example test_numeric_notice :
  answer sample_qa "What is your notice period in days?" "numeric" = PyStr "30".
Proof. vm_compute. reflexivity. Qed.

Example test_free_text_first_name :
  answer sample_qa "first name" "text" = PyStr "John".
Proof. vm_compute. reflexivity. Qed.

Example test_free_text_last_name :
  answer sample_qa "last name" "text" = PyStr "Doe".
Proof. vm_compute. reflexivity. Qed.

Example test_free_text_email :
  answer sample_qa "email address" "text" = PyStr "john@example.com".
Proof. vm_compute. reflexivity. Qed.

Example test_free_text_city :
  answer sample_qa "city" "text" = PyStr "Bangalore".
Proof. vm_compute. reflexivity. Qed.

Example test_free_text_salary :
  answer sample_qa "What is your expected salary?" "text" = PyStr "800000".
Proof. vm_compute. reflexivity. Qed.

Example test_free_text_star :
  str_in "cybersecurity"
         (lower (py_str (answer sample_qa "tell me about yourself" "text")))
  = true.
Proof. vm_compute. reflexivity. Qed.

Example test_dropdown_best_option_yes_no :
  best_dropdown_option sample_qa "Are you willing to relocate?" ["Yes"; "No"]
  = Ok "Yes".
Proof. vm_compute. reflexivity. Qed.

Example test_dropdown_best_option_country :
  best_dropdown_option sample_qa "Country of residence"
                       ["United States"; "India"; "United Kingdom"]
  = Ok "India".
Proof. vm_compute. reflexivity. Qed.

Example test_dropdown_best_option_currency :
  best_dropdown_option sample_qa "Preferred currency" ["USD"; "EUR"; "INR"; "GBP"]
  = Ok "INR".
Proof. vm_compute. reflexivity. Qed.

Example test_dropdown_fallback_to_first :
  best_dropdown_option sample_qa "Unknown question" ["Option A"; "Option B"]
  = Ok "Option A".
Proof. vm_compute. reflexivity. Qed.

(** tests/test_form_filler.py, with a page in place of the mocked driver. *)

Example test_clicks_next_button :
  _try_next leave (start (page_of [button "Next" true]))
  = (Ok true, {| page := page_of []; trace := [EvClickButton 0] |}).
Proof. vm_compute. reflexivity. Qed.

Example test_returns_false_when_no_button :
  _try_next leave (start (page_of [])) = (Ok false, start (page_of [])).
Proof. vm_compute. reflexivity. Qed.

Example test_clicks_review_button :
  _try_review leave (start review_page)
  = (Ok true, {| page := page_of []; trace := [EvClickButton 0] |}).
Proof. vm_compute. reflexivity. Qed.

Example test_returns_false_when_no_review :
  _try_review leave (start (page_of [])) = (Ok false, start (page_of [])).
Proof. vm_compute. reflexivity. Qed.

Example test_clicks_submit_button :
  _try_submit leave (start (page_of [button "Submit" true]))
  = (Ok true, {| page := page_of []; trace := [EvClickButton 0] |}).
Proof. vm_compute. reflexivity. Qed.

Example test_returns_false_when_no_submit :
  _try_submit leave (start (page_of [])) = (Ok false, start (page_of [])).
Proof. vm_compute. reflexivity. Qed.

End Tests.

(** ** The properties at work on sample inputs *)

Module Witnesses.
Import Py QA Dom Driver FormFiller Spec Samples.
Import QAFacts TextFacts RunFacts EmptyFacts RadioFacts.

Lemma narrative_rule_any_word_witness :
  answer demo_qa "Could you tell us more?" "text"
  = PyStr "I am a cybersecurity professional.".
Proof.
  refine (proj1 narrative_rule_any_word demo_qa "Could you tell us more?"
            [] [] "tell me about yourself"
            "  I am a cybersecurity professional. " _ _ _).
  - reflexivity.
  - exists "tell". split; [vm_compute; auto|vm_compute; reflexivity].
  - constructor.
Defined.

Lemma best_option_is_offered_witness :
  In "INR" ["USD"; "EUR"; "INR"; "GBP"] /\
  best_dropdown_option demo_qa "Preferred shade" ["Red"; "Blue"] = Ok "Red".
Proof.
  split.
  - refine (proj1 (proj1 best_option_is_offered demo_qa "Preferred currency"
                     ["USD"; "EUR"; "INR"; "GBP"] _) "INR" _).
    + discriminate.
    + vm_compute. reflexivity.
  - refine (proj1 (proj2 best_option_is_offered) demo_qa "Preferred shade"
              ["Red"; "Blue"] _ _ _).
    + discriminate.
    + vm_compute. discriminate.
    + intros _. repeat split; vm_compute; discriminate.
Defined.

Lemma boolean_answer_defaults_witness :
  answer demo_qa "Are you eligible to work here?" "boolean" = PyStr "Yes" /\
  answer demo_qa "Will you require sponsorship?" "boolean" = PyStr "No".
Proof.
  split.
  - refine (proj1 (proj2 (proj2 (proj1 boolean_answer_defaults demo_qa
              "Are you eligible to work here?") _)) _ _).
    + repeat constructor.
    + vm_compute. reflexivity.
    + vm_compute. reflexivity.
  - refine (proj2 boolean_answer_defaults demo_qa _ _).
    + repeat constructor.
    + vm_compute. reflexivity.
Defined.

Lemma numeric_answer_defaults_witness :
  answer demo_qa "Expected CTC?" "numeric" = PyStr "600000" /\
  answer demo_qa "How many years of experience do you have?" "numeric" = PyStr "3".
Proof.
  split.
  - refine (proj1 (proj2 (proj2 (proj1 numeric_answer_defaults demo_qa
              "Expected CTC?" _))) _ _ _).
    + repeat constructor.
    + vm_compute. reflexivity.
    + vm_compute. reflexivity.
    + vm_compute. reflexivity.
  - refine (proj2 numeric_answer_defaults demo_qa _ _).
    + repeat constructor.
    + vm_compute. reflexivity.
Defined.

Lemma text_answer_can_be_empty_witness :
  answer plain_qa "Your e-mail (email)" "text" = PyStr "" /\
  fill_text plain_qa 0 (start (form_of [text_input "Email"]))
  = (Ok tt, start (form_of [text_input "Email"])).
Proof.
  split.
  - refine (proj1 (proj2 (proj1 text_answer_can_be_empty plain_qa
              "Your e-mail (email)" _)) _ _ _ _).
    + constructor.
    + vm_compute. reflexivity.
    + vm_compute. reflexivity.
    + vm_compute. reflexivity.
    + vm_compute. reflexivity.
  - refine (proj1 (proj2 text_answer_can_be_empty) plain_qa _ 0
              (text_input "Email") _ _).
    + reflexivity.
    + vm_compute. reflexivity.
Defined.

Lemma text_fill_idempotent_witness :
  fill_text demo_qa 0 (start (form_of [filled_input]))
  = (Ok tt, start (form_of [filled_input])).
Proof.
  refine (proj1 (text_fill_idempotent demo_qa (start (form_of [filled_input]))
                   0 filled_input _ _)).
  - reflexivity.
  - vm_compute. discriminate.
Defined.

Lemma advance_probe_clicks_review_witness :
  _try_next leave (start review_page) = (Ok true, clicked leave (start review_page) 0).
Proof.
  refine (proj1 advance_probe_clicks_review leave (start review_page) 0 _ _ _).
  - left. repeat constructor.
  - left. repeat constructor.
  - exists (button "Review" true). split; [|reflexivity].
    split; [reflexivity|]. split; [reflexivity|]. intros j b Hj. lia.
Defined.

Lemma stuck_run_is_abandoned_witness :
  exists w' evs,
    fill_application plain_qa ∅ leave id (fun _ => false) (start dead_page)
    = (Ok false, w') /\
    trace w' = ([] ++ evs)%list /\ count_steps evs = 1 /\ count_steps evs <= max_steps.
Proof.
  refine (proj2 (stuck_run_is_abandoned plain_qa ∅ leave id (fun _ => false)
                   (start dead_page)) _ _).
  - intros tr. vm_compute. reflexivity.
  - repeat constructor; left; repeat constructor.
Defined.

Lemma submit_has_priority_witness :
  exists w' i btn evs,
    run_steps plain_qa ∅ leave id (fun _ => false) [0; 1] (start submit_page)
    = (Ok true, w') /\
    trace w' = ([] ++ [EvStep (0 + 1)] ++ evs ++ [EvClickButton i])%list /\
    Forall field_event evs /\
    buttons submit_page !! i = Some btn /\
    str_in "Submit" (b_text btn) = true /\ clickable btn = true.
Proof.
  refine (submit_has_priority plain_qa ∅ leave id (fun _ => false) 0 [1]
            (start submit_page) _ _).
  - intros tr. vm_compute. reflexivity.
  - left. exists 0, (button "Submit application" true).
    split; [|reflexivity]. split; [reflexivity|]. split; [reflexivity|].
    intros j b Hj. lia.
Defined.

Lemma radio_group_policy_witness :
  exists w' evs,
    _fill_radios demo_qa (start radio_form) = (Ok tt, w') /\
    trace w' = ([] ++ evs)%list /\
    forall h f, member (fields radio_form) "q1" h ->
                fields radio_form !! h = Some f ->
                In (EvClickField h) evs ->
                overlaps "yes" (sibling_label f) = true.
Proof.
  destruct (radio_group_policy demo_qa (start radio_form) "q1")
    as (w' & evs & Hrun & Htrace & _ & Hfree).
  exists w', evs. split; [exact Hrun|]. split; [exact Htrace|].
  refine (proj1 (Hfree _ 0 (radio "q1" "Are you authorized to work in India?" "No")
                   _ _)).
  - intros (h & f & Hf & _ & _ & Hsel).
    destruct h as [|[|h]]; cbn in Hf; [| |discriminate];
      injection Hf as <-; discriminate.
  - split.
    + eexists. split; [reflexivity|]. split; reflexivity.
    + intros h' _. lia.
  - reflexivity.
Defined.

End Witnesses.

(** ** Label clean-up *)

Module CleanFacts.
Import Py PyFacts QA XSpec.

Lemma split_words_solid s : Forall (fun w => w <> "") (split s).
Proof.
  induction s as [|c s IH]; cbn [split]; [constructor|].
  destruct (is_space c); [exact IH|].
  destruct s as [|d s']; [repeat constructor; discriminate|].
  destruct (is_space d).
  - constructor; [discriminate | exact IH].
  - destruct (split (String d s')) as [|w ws].
    + repeat constructor; discriminate.
    + inversion IH; subst. constructor; [discriminate | assumption].
Qed.

Lemma split_solid_head c s :
  is_space c = false -> split (String c s) <> [].
Proof.
  intros Hc. cbn [split]. rewrite Hc.
  destruct s as [|d s']; [discriminate|].
  destruct (is_space d); [discriminate|].
  destruct (split (String d s')); discriminate.
Qed.

Lemma join_spaces_cons w ws :
  join_spaces (w :: ws) =
  match ws with [] => w | _ => w ++ " " ++ join_spaces ws end.
Proof. destruct ws; reflexivity. Qed.

Lemma join_spaces_nil ws :
  Forall (fun w => w <> "") ws -> join_spaces ws = "" -> ws = [].
Proof.
  intros Hs Hj. destruct ws as [|w ws]; [reflexivity|].
  inversion Hs as [|? ? Hw _]; subst. rewrite join_spaces_cons in Hj.
  destruct w; [congruence|]. destruct ws; discriminate.
Qed.

Lemma collapse_true_space c s :
  is_space c = true -> collapse_from true (String c s) = collapse_from true s.
Proof. intros Hc. cbn [collapse_from]. now rewrite Hc. Qed.

Lemma collapse_solid b c s :
  is_space c = false ->
  collapse_from b (String c s) = String c (collapse_from false s).
Proof. intros Hc. cbn [collapse_from]. now rewrite Hc. Qed.

Lemma lstrip_collapse b s :
  lstrip (collapse_from b s) = collapse_from true (lstrip s).
Proof.
  revert b. induction s as [|c s IH]; intros b; [reflexivity|].
  cbn [collapse_from lstrip]. destruct (is_space c) eqn:Hc.
  - destruct b; [apply IH|]. cbn [lstrip]. change (is_space " ") with true.
    apply IH.
  - cbn [lstrip collapse_from]. now rewrite Hc.
Qed.

Lemma split_lstrip s : split (lstrip s) = split s.
Proof.
  induction s as [|c s IH]; [reflexivity|].
  cbn [lstrip]. destruct (is_space c) eqn:Hc; [|reflexivity].
  rewrite IH. cbn [split]. now rewrite Hc.
Qed.

Lemma rstrip_collapse s :
  rstrip (collapse_from true s) = join_spaces (split s).
Proof.
  induction s as [|c s IH]; [reflexivity|].
  destruct (is_space c) eqn:Hc.
  - rewrite collapse_true_space by exact Hc. rewrite IH.
    cbn [split]. now rewrite Hc.
  - rewrite collapse_solid by exact Hc. rewrite rstrip_cons.
    destruct s as [|d s'].
    + cbn. now rewrite Hc.
    + destruct (is_space d) eqn:Hd.
      * rewrite collapse_true_space in IH by exact Hd.
        cbn [collapse_from]. rewrite Hd. rewrite rstrip_cons.
        change (is_space " ") with true.
        assert (Hsp : split (String c (String d s')) =
                      String c "" :: split (String d s')).
        { cbn [split]. rewrite Hc, Hd. reflexivity. }
        rewrite Hsp, join_spaces_cons. rewrite IH.
        destruct (join_spaces (split (String d s'))) eqn:Hj.
        -- apply join_spaces_nil in Hj; [|apply split_words_solid].
           rewrite Hj, Hc. reflexivity.
        -- destruct (split (String d s')); [discriminate|]. reflexivity.
      * rewrite (collapse_solid false d s' Hd).
        rewrite <- (collapse_solid true d s' Hd). rewrite IH.
        pose proof (split_solid_head d s' Hd) as Hne.
        pose proof (split_words_solid (String d s')) as Hws.
        assert (Hsp : split (String c (String d s')) =
                      match split (String d s') with
                      | w :: ws => String c w :: ws
                      | [] => [String c ""]
                      end).
        { cbn [split]. rewrite Hc, Hd. reflexivity. }
        rewrite Hsp. destruct (split (String d s')) as [|w ws]; [congruence|].
        inversion Hws as [|? ? Hw _]; subst.
        rewrite !join_spaces_cons.
        destruct w as [|e w]; [congruence|].
        destruct ws; reflexivity.
Qed.

(** X1. [clean_label] returns the words of the text without its
    asterisks, joined by single spaces:
    [" ".join(text.replace("*", "").split())]. *)
Theorem clean_label_joins_words (text : string) :
  clean_label text = join_spaces (split (delete_char "*" text)).
Proof.
  unfold clean_label, collapse_spaces, strip.
  rewrite lstrip_collapse, rstrip_collapse. apply f_equal, split_lstrip.
Qed.

(** *** The normal form *)

Lemma startswith_empty s : startswith s "" = true.
Proof. destruct s; reflexivity. Qed.

Lemma str_in_char c d s :
  str_in (String c "") (String d s) = Ascii.eqb c d || str_in (String c "") s.
Proof.
  cbn [str_in startswith]. now rewrite startswith_empty, andb_true_r.
Qed.

Lemma delete_char_free c s : str_in (String c "") (delete_char c s) = false.
Proof.
  induction s as [|d s IH]; [reflexivity|].
  cbn [delete_char]. destruct (Ascii.eqb d c) eqn:E; [exact IH|].
  rewrite str_in_char, IH, Ascii.eqb_sym, E. reflexivity.
Qed.

Lemma delete_char_id c s :
  str_in (String c "") s = false -> delete_char c s = s.
Proof.
  induction s as [|d s IH]; [reflexivity|].
  rewrite str_in_char. cbn [delete_char]. intros H.
  apply orb_false_iff in H as [H1 H2].
  rewrite Ascii.eqb_sym in H1. rewrite H1. now rewrite IH.
Qed.

Lemma star_in_collapse b s :
  str_in "*" (collapse_from b s) = true -> str_in "*" s = true.
Proof.
  revert b. induction s as [|c s IH]; intros b; [trivial|].
  cbn [collapse_from]. destruct (is_space c) eqn:Hc.
  - intros H. assert (Hs : str_in "*" s = true).
    { destruct b; [exact (IH _ H)|].
      rewrite str_in_char in H. exact (IH _ H). }
    rewrite str_in_char, Hs. apply orb_true_r.
  - rewrite !str_in_char. intros H.
    apply orb_true_iff in H as [H|H]; [now rewrite H|].
    rewrite (IH _ H). apply orb_true_r.
Qed.

Lemma head_collapse_true s : head_is_space (collapse_from true s) = false.
Proof.
  induction s as [|c s IH]; [reflexivity|].
  cbn [collapse_from]. destruct (is_space c) eqn:Hc; [exact IH|].
  cbn. exact Hc.
Qed.

Lemma single_spaced_collapse b s : single_spaced (collapse_from b s) = true.
Proof.
  revert b. induction s as [|c s IH]; intros b; [reflexivity|].
  cbn [collapse_from]. destruct (is_space c) eqn:Hc.
  - destruct b; [apply IH|]. cbn [single_spaced].
    rewrite head_collapse_true, IH. reflexivity.
  - cbn [single_spaced]. rewrite Hc, IH. reflexivity.
Qed.

Lemma single_spaced_lstrip s :
  single_spaced s = true -> single_spaced (lstrip s) = true.
Proof.
  induction s as [|c s IH]; [trivial|].
  cbn [lstrip]. destruct (is_space c); [|trivial].
  cbn [single_spaced]. intros H. apply andb_true_iff in H as [_ H]. auto.
Qed.

Lemma head_is_space_rstrip s :
  head_is_space s = false -> head_is_space (rstrip s) = false.
Proof.
  destruct s as [|c s]; [trivial|]. rewrite rstrip_cons. cbn [head_is_space].
  intros Hc. destruct (rstrip s); [rewrite Hc|]; cbn; trivial.
Qed.

Lemma single_spaced_rstrip s :
  single_spaced s = true -> single_spaced (rstrip s) = true.
Proof.
  induction s as [|c s IH]; [trivial|].
  cbn [single_spaced]. intros H. apply andb_true_iff in H as [Hc Hs].
  specialize (IH Hs). rewrite rstrip_cons.
  destruct (rstrip s) as [|d r] eqn:Hr.
  - destruct (is_space c) eqn:Hsp; [reflexivity|].
    cbn [single_spaced]. rewrite Hsp. reflexivity.
  - cbn [single_spaced] in IH |- *. rewrite IH, andb_true_r.
    apply orb_true_iff in Hc as [Hc|Hc]; [now rewrite Hc|].
    apply andb_true_iff in Hc as [Hc1 Hc2]. rewrite Hc1.
    apply negb_true_iff in Hc2. apply head_is_space_rstrip in Hc2.
    rewrite Hr in Hc2. cbn [head_is_space] in Hc2 |- *. rewrite Hc2.
    apply orb_true_r.
Qed.

Lemma first_solid_lstrip s : lstrip s = "" \/ first_solid (lstrip s) = true.
Proof.
  induction s as [|c s IH]; [now left|].
  cbn [lstrip]. destruct (is_space c) eqn:Hc; [exact IH|].
  right. cbn. now rewrite Hc.
Qed.

Lemma last_solid_cons c s :
  s <> "" -> last_solid (String c s) = last_solid s.
Proof. destruct s; [congruence|reflexivity]. Qed.

Lemma last_solid_rstrip s : rstrip s = "" \/ last_solid (rstrip s) = true.
Proof.
  induction s as [|c s IH]; [now left|].
  rewrite rstrip_cons. destruct (rstrip s) as [|d r] eqn:Hr.
  - destruct (is_space c) eqn:Hc; [now left|]. right. cbn. now rewrite Hc.
  - right. destruct IH as [IH|IH]; [discriminate|].
    rewrite last_solid_cons by discriminate. exact IH.
Qed.

Lemma first_solid_rstrip s :
  first_solid s = true -> first_solid (rstrip s) = true.
Proof.
  destruct s as [|c s]; [trivial|]. rewrite rstrip_cons. cbn [first_solid].
  intros Hc. apply negb_true_iff in Hc.
  destruct (rstrip s); [rewrite Hc|]; cbn; now rewrite Hc.
Qed.

Lemma trimmed_strip s : trimmed (strip s).
Proof.
  unfold trimmed, strip.
  destruct (last_solid_rstrip (lstrip s)) as [H|H]; [now left|].
  destruct (first_solid_lstrip s) as [E|E].
  - left. now rewrite E.
  - right. split; [now apply first_solid_rstrip | exact H].
Qed.

Lemma lstrip_solid s : first_solid s = true -> lstrip s = s.
Proof.
  destruct s as [|c s]; [trivial|]. cbn. intros Hc.
  apply negb_true_iff in Hc. now rewrite Hc.
Qed.

Lemma rstrip_solid s : last_solid s = true -> rstrip s = s.
Proof.
  induction s as [|c s IH]; [trivial|].
  intros H. rewrite rstrip_cons. destruct s as [|d s'].
  - cbn in *. apply negb_true_iff in H. now rewrite H.
  - rewrite last_solid_cons in H by discriminate. now rewrite IH.
Qed.

Lemma strip_trimmed s : trimmed s -> strip s = s.
Proof.
  intros [->|[H1 H2]]; [reflexivity|].
  unfold strip. now rewrite lstrip_solid, rstrip_solid.
Qed.

Lemma collapse_single_spaced b s :
  single_spaced s = true -> (b = true -> head_is_space s = false) ->
  collapse_from b s = s.
Proof.
  revert b. induction s as [|c s IH]; intros b Hs Hb; [reflexivity|].
  cbn [single_spaced] in Hs. apply andb_true_iff in Hs as [Hc Hs].
  cbn [collapse_from]. destruct (is_space c) eqn:Hsp.
  - cbn [negb orb] in Hc. apply andb_true_iff in Hc as [Hc1 Hc2].
    apply negb_true_iff in Hc2. apply Ascii.eqb_eq in Hc1. subst c.
    destruct b.
    + specialize (Hb eq_refl). cbn in Hb. discriminate.
    + f_equal. apply IH; auto.
  - f_equal. apply IH; [exact Hs | discriminate].
Qed.

Lemma clean_label_star_free text : str_in "*" (clean_label text) = false.
Proof.
  destruct (str_in "*" (clean_label text)) eqn:H; [|reflexivity].
  unfold clean_label, collapse_spaces in H.
  apply str_in_strip_sub, star_in_collapse in H.
  now rewrite delete_char_free in H.
Qed.

Lemma clean_label_single_spaced text : single_spaced (clean_label text) = true.
Proof.
  unfold clean_label, strip.
  apply single_spaced_rstrip, single_spaced_lstrip, single_spaced_collapse.
Qed.

(** X2. A cleaned label has no asterisk, no whitespace at either end, and
    no whitespace inside other than single spaces. *)
Theorem clean_label_normal_form (text : string) :
  let r := clean_label text in
  str_in "*" r = false /\ trimmed r /\ single_spaced r = true.
Proof.
  cbn zeta. split; [apply clean_label_star_free|].
  split; [apply trimmed_strip | apply clean_label_single_spaced].
Qed.

(** X3. Cleaning a label twice is cleaning it once. *)
Theorem clean_label_idempotent (text : string) :
  clean_label (clean_label text) = clean_label text.
Proof.
  set (r := clean_label text).
  assert (H1 : delete_char "*" r = r)
    by apply delete_char_id, clean_label_star_free.
  assert (H2 : collapse_spaces r = r).
  { apply collapse_single_spaced;
      [apply clean_label_single_spaced | discriminate]. }
  assert (H3 : strip r = r) by apply strip_trimmed, trimmed_strip.
  unfold clean_label at 1. fold r. now rewrite H1, H2, H3.
Qed.

End CleanFacts.

(** ** The rule tables built by the constructor *)

Module TableFacts.
Import Py PyFacts QA XSpec.

Lemma lower_char_idem c : lower_char (lower_char c) = lower_char c.
Proof.
  destruct c as [[] [] [] [] [] [] [] []]; reflexivity.
Qed.

Lemma lower_idem s : lower (lower s) = lower s.
Proof.
  induction s as [|c s IH]; [reflexivity|].
  cbn [lower]. now rewrite lower_char_idem, IH.
Qed.

Section Table.
Context {V : Type}.
Implicit Types (d : list (string * V)) (items : list (string * V)).

Local Abbreviation step :=
  (fun (d : list (string * V)) kv => dict_set d (lower (fst kv)) (snd kv)).

Lemma dict_lookup_app d1 d2 k :
  dict_lookup (d1 ++ d2) k =
  match dict_lookup d1 k with
  | Some v => Some v
  | None => dict_lookup d2 k
  end.
Proof.
  unfold dict_lookup. induction d1 as [|[k0 v0] d1 IH]; [reflexivity|].
  cbn [app find fst]. destruct (k0 =? k); [reflexivity | exact IH].
Qed.

Lemma dict_set_lookup d key v k :
  dict_lookup (dict_set d key v) k =
  if key =? k then Some v else dict_lookup d k.
Proof.
  unfold dict_lookup. induction d as [|[k0 v0] d IH]; [cbn; now destruct (key =? k)|].
  cbn [dict_set]. destruct (String.eqb_spec k0 key) as [->|Hne].
  - cbn [find fst]. destruct (key =? k); reflexivity.
  - cbn [find fst]. destruct (String.eqb_spec k0 k) as [->|Hk].
    + destruct (String.eqb_spec key k) as [->|_]; [congruence | reflexivity].
    + exact IH.
Qed.

Lemma fold_lookup items d k :
  dict_lookup (fold_left step items d) k =
  match dict_lookup (rev (map lower_item items)) k with
  | Some v => Some v
  | None => dict_lookup d k
  end.
Proof.
  revert d. induction items as [|kv items IH]; intros d; [reflexivity|].
  cbn [fold_left map rev]. rewrite IH, dict_lookup_app, dict_set_lookup.
  clear IH.
  destruct (dict_lookup (rev (map lower_item items)) k); [reflexivity|].
  assert (E : dict_lookup [lower_item kv] k =
              if lower (fst kv) =? k then Some (snd kv) else None).
  { unfold dict_lookup. cbn [find lower_item fst].
    destruct (lower (fst kv) =? k); reflexivity. }
  rewrite E. destruct (lower (fst kv) =? k); reflexivity.
Qed.

Lemma dict_set_keys d key v :
  map fst (dict_set d key v) =
  if existsb (fun n => n =? key) (map fst d) then map fst d
  else (map fst d ++ [key])%list.
Proof.
  induction d as [|[k0 v0] d IH]; [reflexivity|].
  cbn [dict_set map fst existsb]. destruct (String.eqb_spec k0 key) as [->|Hne].
  - reflexivity.
  - cbn [map fst orb]. rewrite IH.
    destruct (existsb (fun n => n =? key) (map fst d)); reflexivity.
Qed.

Lemma existsb_eqb_In key (ks : list string) :
  existsb (fun n => n =? key) ks = true <-> In key ks.
Proof.
  rewrite existsb_exists. split.
  - intros (n & Hn & E). apply String.eqb_eq in E. now subst.
  - intros H. exists key. split; [exact H | apply String.eqb_refl].
Qed.

Lemma dict_set_ok d key v :
  lower key = key -> table_ok d -> table_ok (dict_set d key v).
Proof.
  intros Hk [Hnd Hlow]. unfold table_ok. rewrite dict_set_keys.
  destruct (existsb (fun n => n =? key) (map fst d)) eqn:E; [now split|].
  assert (Hnot : ~ In key (map fst d)).
  { intros H. apply existsb_eqb_In in H. congruence. }
  split.
  - apply NoDup_app. repeat split; [exact Hnd | | apply NoDup_singleton].
    intros x Hx Hk'. apply list_elem_of_singleton in Hk'. subst x.
    apply Hnot, list_elem_of_In, Hx.
  - apply List.Forall_app. split; [exact Hlow | repeat constructor; exact Hk].
Qed.

Lemma fold_ok items d : table_ok d -> table_ok (fold_left step items d).
Proof.
  revert d. induction items as [|kv items IH]; intros d Hd; [exact Hd|].
  cbn [fold_left]. apply IH, dict_set_ok; [apply lower_idem | exact Hd].
Qed.

Lemma lower_keys_ok items : table_ok (lower_keys items).
Proof. apply fold_ok. split; [apply NoDup_nil_2 | constructor]. Qed.

Lemma dict_set_fresh d key v :
  ~ In key (map fst d) -> dict_set d key v = (d ++ [(key, v)])%list.
Proof.
  induction d as [|[k0 v0] d IH]; intros Hn; [reflexivity|].
  cbn [dict_set]. destruct (String.eqb_spec k0 key) as [->|Hne].
  - exfalso. apply Hn. now left.
  - cbn [app]. f_equal. apply IH. intros H. apply Hn. now right.
Qed.

Lemma fold_fresh items d :
  NoDup (map fst d ++ map fst (map lower_item items)) ->
  fold_left step items d = (d ++ map lower_item items)%list.
Proof.
  revert d. induction items as [|kv items IH]; intros d Hnd.
  - cbn. now rewrite app_nil_r.
  - cbn [fold_left map]. cbn [map] in Hnd.
    apply NoDup_app in Hnd as (Hd & Hdis & Hi).
    apply NoDup_cons in Hi as (Hnot & Hi).
    assert (Hfresh : ~ In (lower (fst kv)) (map fst d)).
    { intros H. apply list_elem_of_In in H. apply (Hdis _ H). now left. }
    rewrite dict_set_fresh by exact Hfresh. rewrite IH.
    + now rewrite <- app_assoc.
    + rewrite map_app. cbn [map fst]. apply NoDup_app. repeat split.
      * apply NoDup_app. repeat split; [exact Hd | | apply NoDup_singleton].
        intros x Hx Hk'. apply list_elem_of_singleton in Hk'. subst x.
        apply Hfresh, list_elem_of_In, Hx.
      * intros x Hx Hin. apply elem_of_app in Hx as [Hx|Hx].
        -- apply (Hdis _ Hx). now right.
        -- apply list_elem_of_singleton in Hx. subst x. exact (Hnot Hin).
      * exact Hi.
Qed.

Lemma fold_fresh_items items :
  NoDup (map (fun kv => lower (fst kv)) items) ->
  lower_keys items = map lower_item items.
Proof.
  intros Hnd. unfold lower_keys. rewrite fold_fresh; [reflexivity|].
  cbn [map app]. rewrite map_map. exact Hnd.
Qed.

End Table.

(** X4. The three rule tables of a freshly built engine hold no key twice
    and only lower-case keys, whatever the configuration. *)
Theorem init_tables_well_formed (config : Config) :
  table_ok (yes_no_map (init config)) /\
  table_ok (numeric_map (init config)) /\
  table_ok (star_map (init config)).
Proof. repeat split; apply lower_keys_ok. Qed.

(** X5. When several configured keys differ only by case, the rule table
    holds one entry for them, with the value that was configured last; a
    key that was configured is never lost. *)
Theorem lower_keys_last_wins {V : Type} (items : list (string * V)) (k : string) :
  dict_lookup (lower_keys items) k = dict_lookup (rev (map lower_item items)) k.
Proof.
  unfold lower_keys. rewrite fold_lookup.
  now destruct (dict_lookup (rev (map lower_item items)) k).
Qed.

(** X6. When the configured keys stay distinct in lower case, the rule
    table keeps the configured order and values, which is the order in
    which the rules are tried. *)
Theorem lower_keys_keeps_order {V : Type} (items : list (string * V)) :
  NoDup (map (fun kv => lower (fst kv)) items) ->
  lower_keys items = map lower_item items.
Proof.
  intros Hnd. unfold lower_keys. rewrite fold_fresh; [reflexivity|].
  cbn [map app]. rewrite map_map. exact Hnd.
Qed.

End TableFacts.

(** ** The answer engine: rules, hints and fallbacks *)

Module EngineFacts.
Import Py PyFacts QA QAFacts Spec XSpec TableFacts.

Lemma first_rule_hit {V : Type} (before after : list (string * V)) key (val : V) q :
  no_rule_in before q -> str_in key q = true ->
  first_rule (before ++ (key, val) :: after) q = Some (key, val).
Proof. intros Hb Hk. unfold first_rule. now apply find_first. Qed.

(** X7. Configured rules come before the built-in defaults, and among
    them the first whose key occurs in the lower-cased, trimmed label
    decides: a yes/no rule gives "Yes" or "No" by the truth value of its
    entry, a numeric rule gives its entry as text. *)
Theorem first_configured_rule_wins
    (self : QuestionAnswerer) (label : string)
    (before after : list (string * pyval)) (key : string) (val : pyval) :
  let q := strip (lower label) in
  no_rule_in before q -> str_in key q = true ->
  (yes_no_map self = (before ++ (key, val) :: after)%list ->
   answer self label "boolean" = PyStr (if truthy val then "Yes" else "No")) /\
  (numeric_map self = (before ++ (key, val) :: after)%list ->
   answer self label "numeric" = PyStr (py_str val)).
Proof.
  intros q Hb Hk. split; intros Hmap.
  - rewrite answer_boolean. fold q. unfold _lookup_yes_no.
    now rewrite Hmap, first_rule_hit.
  - rewrite answer_numeric. fold q. unfold _lookup_numeric.
    now rewrite Hmap, first_rule_hit.
Qed.

(** X8. Rule keys are matched without regard to the case in which they
    were configured: with the yes/no rules [items] of the configuration,
    distinct in lower case, the first item whose lower-cased key occurs in
    the lower-cased, trimmed label decides the boolean answer. *)
Theorem configured_rule_ignores_case
    (config : Config) (section : Answers) (items before after : list (string * pyval))
    (key : string) (val : pyval) (label : string) :
  let q := strip (lower label) in
  cfg_answers config = Some section ->
  yes_no section = Some items ->
  NoDup (map (fun kv => lower (fst kv)) items) ->
  items = (before ++ (key, val) :: after)%list ->
  Forall (fun kv => str_in (lower (fst kv)) q = false) before ->
  str_in (lower key) q = true ->
  answer (init config) label "boolean" = PyStr (if truthy val then "Yes" else "No").
Proof.
  intros q Hc Hs Hnd Hi Hb Hk.
  assert (Hmap : yes_no_map (init config) =
                 (map lower_item before ++ (lower key, val) :: map lower_item after)%list).
  { unfold init. cbn [yes_no_map]. rewrite Hc.
    change (yes_no (default _ (Some section))) with (yes_no section).
    rewrite Hs.
    change (default [] (Some items)) with items.
    rewrite fold_fresh_items by exact Hnd.
    rewrite Hi, map_app. reflexivity. }
  rewrite answer_boolean. fold q. unfold _lookup_yes_no.
  rewrite Hmap, first_rule_hit; [reflexivity| |exact Hk].
  unfold no_rule_in. rewrite List.Forall_map. exact Hb.
Qed.

Lemma answer_dropdown self label :
  answer self label "dropdown" = _dropdown_hint self (strip (lower label)).
Proof. reflexivity. Qed.

(** X9. The hint for a dropdown is the stored fact itself, by the first
    keyword found in the lower-cased label, in this order: "country" (the
    country, "India" when absent), "currency" (the currency, "INR" when
    absent), "education" or "degree" (the highest education, "Bachelor"
    when absent), "experience" (the years of experience as text, "2" when
    absent); with none of them the hint is empty. *)
Theorem dropdown_hint_cases (self : QuestionAnswerer) (label : string) :
  let q := lower label in
  let reply := answer self label "dropdown" in
  (str_in "country" q = true ->
   reply = dict_get (personal self) "country" (PyStr "India")) /\
  (str_in "country" q = false -> str_in "currency" q = true ->
   reply = dict_get (background self) "currency" (PyStr "INR")) /\
  (str_in "country" q = false -> str_in "currency" q = false ->
   str_in "education" q || str_in "degree" q = true ->
   reply = dict_get (background self) "highest_education" (PyStr "Bachelor")) /\
  (str_in "country" q = false -> str_in "currency" q = false ->
   str_in "education" q || str_in "degree" q = false ->
   str_in "experience" q = true ->
   reply = PyStr (py_str (dict_get (background self) "years_of_experience" (PyInt 2)))) /\
  (str_in "country" q = false -> str_in "currency" q = false ->
   str_in "education" q || str_in "degree" q = false ->
   str_in "experience" q = false ->
   reply = PyStr "").
Proof.
  intros q reply. subst q reply. rewrite answer_dropdown.
  unfold _dropdown_hint. untrim.
  repeat split; intros;
    repeat match goal with H : _ = _ |- _ => rewrite H; clear H end;
    reflexivity.
Qed.

(** *** Whitespace around a label *)

Lemma lower_app a b : lower (a ++ b) = lower a ++ lower b.
Proof.
  induction a as [|c a IH]; [reflexivity|].
  change (String c a ++ b) with (String c (a ++ b)).
  cbn [lower]. rewrite IH. reflexivity.
Qed.

Lemma is_space_lower_char c : is_space (lower_char c) = is_space c.
Proof. destruct c as [[] [] [] [] [] [] [] []]; reflexivity. Qed.

Lemma blank_lower s : blank (lower s) = blank s.
Proof.
  induction s as [|c s IH]; [reflexivity|].
  cbn [lower blank]. now rewrite is_space_lower_char, IH.
Qed.

Lemma lstrip_blank p : blank p = true -> lstrip p = "".
Proof.
  induction p as [|c p IH]; [trivial|]. cbn [blank lstrip].
  intros H. apply andb_true_iff in H as [-> H]. auto.
Qed.

Lemma rstrip_blank p : blank p = true -> rstrip p = "".
Proof.
  induction p as [|c p IH]; [trivial|]. cbn [blank].
  intros H. apply andb_true_iff in H as [Hc H].
  rewrite rstrip_cons, (IH H), Hc. reflexivity.
Qed.

Lemma lstrip_pad p s : blank p = true -> lstrip (p ++ s) = lstrip s.
Proof.
  induction p as [|c p IH]; [trivial|]. cbn [blank].
  intros H. apply andb_true_iff in H as [Hc H].
  change (String c p ++ s) with (String c (p ++ s)).
  cbn [lstrip]. rewrite Hc. auto.
Qed.

Lemma rstrip_pad s p : blank p = true -> rstrip (s ++ p) = rstrip s.
Proof.
  intros Hp. induction s as [|c s IH].
  - change ("" ++ p) with p. now rewrite rstrip_blank.
  - change (String c s ++ p) with (String c (s ++ p)).
    now rewrite !rstrip_cons, IH.
Qed.

Lemma strip_pad p1 s p2 :
  blank p1 = true -> blank p2 = true -> strip (p1 ++ s ++ p2) = strip s.
Proof.
  intros H1 H2. unfold strip. rewrite lstrip_pad by exact H1.
  induction s as [|c s IH].
  - change ("" ++ p2) with p2. now rewrite lstrip_blank.
  - change (String c s ++ p2) with (String c (s ++ p2)).
    cbn [lstrip]. destruct (is_space c); [exact IH|].
    change (String c (s ++ p2)) with (String c s ++ p2).
    now apply rstrip_pad.
Qed.

(** X10. Whitespace before and after a label does not change the answer,
    for every kind of field. *)
Theorem answer_ignores_padding
    (self : QuestionAnswerer) (pad1 label pad2 field_type : string) :
  blank pad1 = true -> blank pad2 = true ->
  answer self (pad1 ++ label ++ pad2) field_type = answer self label field_type.
Proof.
  intros H1 H2. unfold answer. rewrite !lower_app.
  rewrite strip_pad by now rewrite blank_lower. reflexivity.
Qed.

(** *** The tail of the free-text chain *)

Lemma common_field_tail self s :
  Forall (fun kw => str_in kw s = false) contact_words ->
  common_field self (strip s) =
  if str_in "salary" s || str_in "ctc" s || str_in "compensation" s then
    PyStr (py_str (dict_get (background self) "expected_salary" (PyStr "600000")))
  else if str_in "notice" s then
    PyStr (py_str (dict_get (background self) "notice_period_days" (PyInt 0)))
  else if str_in "experience" s then
    PyStr (py_str (dict_get (background self) "years_of_experience" (PyInt 2)))
  else if str_in "cover letter" s || str_in "motivation" s then
    PyStr cover_letter_text
  else PyStr generic_text.
Proof.
  intros H. unfold contact_words in H.
  repeat match goal with
         | H : Forall _ (_ :: _) |- _ =>
             let E := fresh "E" in inversion H as [|? ? E H']; subst; clear H;
             cbn beta in E; rename H' into H
         end.
  unfold common_field. untrim.
  repeat match goal with E : str_in _ s = false |- _ => rewrite E; clear E end.
  reflexivity.
Qed.

(** X11. A free-text label that hits no narrative rule and names no
    contact field is never left without an answer by the chain itself:
    with "salary", "ctc" or "compensation" the answer is the expected
    salary as text ("600000" when absent); otherwise with "notice" the
    notice period ("0" when absent); otherwise with "experience" the years
    of experience ("2" when absent); otherwise with "cover letter" or
    "motivation" the canned motivation paragraph; otherwise the generic
    paragraph, whatever the profile. *)
Theorem free_text_fallbacks (self : QuestionAnswerer) (label : string) :
  let q := lower label in
  let reply := answer self label "text" in
  let fact key dflt := PyStr (py_str (dict_get (background self) key dflt)) in
  no_word_hit (star_map self) q ->
  Forall (fun kw => str_in kw q = false) contact_words ->
  (str_in "salary" q || str_in "ctc" q || str_in "compensation" q = true ->
   reply = fact "expected_salary" (PyStr "600000")) /\
  (str_in "salary" q || str_in "ctc" q || str_in "compensation" q = false ->
   (str_in "notice" q = true -> reply = fact "notice_period_days" (PyInt 0)) /\
   (str_in "notice" q = false ->
    (str_in "experience" q = true -> reply = fact "years_of_experience" (PyInt 2)) /\
    (str_in "experience" q = false ->
     (str_in "cover letter" q || str_in "motivation" q = true ->
      reply = PyStr cover_letter_text) /\
     (str_in "cover letter" q || str_in "motivation" q = false ->
      reply = PyStr generic_text)))).
Proof.
  intros q reply fact Hstar Hcontact. subst q reply fact. cbn beta.
  rewrite answer_text. unfold _free_text_answer.
  rewrite (star_rule_none _ _ Hstar), (common_field_tail _ _ Hcontact).
  repeat split; intros;
    repeat match goal with H : _ = _ |- _ => rewrite H; clear H end;
    reflexivity.
Qed.

(** *** Choosing a dropdown option *)

Lemma first_option_first test options opt :
  first_with test options opt -> first_option test options = Some opt.
Proof.
  intros (before & after & -> & Hb & Ht). unfold first_option.
  now apply find_first.
Qed.

Lemma first_with_nonempty test options opt :
  first_with test options opt -> exists o os, options = o :: os.
Proof.
  intros (before & after & -> & _). destruct before; cbn; eauto.
Qed.

(** X12. For a yes/no question (a lower-cased label that starts with
    "are ", "is ", "do ", "will ", "have ", "can ", "were " or "did ") the
    dropdown choice never raises, whatever the facts, and it is the first
    option whose text contains, whatever the case, the word "yes" or "no"
    that the boolean lookup wants. *)
Theorem yes_no_dropdown_choice
    (self : QuestionAnswerer) (label : string) (options : list string) :
  let q := lower label in
  let want := if _lookup_yes_no self q then "yes" else "no" in
  _is_yes_no_question q = true ->
  (exists r, best_dropdown_option self label options = Ok r) /\
  (forall opt,
     first_with (fun o => str_in want (lower o)) options opt ->
     best_dropdown_option self label options = Ok opt).
Proof.
  intros q want Hq. subst q want. unfold best_dropdown_option.
  destruct options as [|o0 os].
  - split; [now eexists|]. intros opt H.
    apply first_with_nonempty in H as (? & ? & [=]).
  - rewrite Hq.
    assert (E : lower (if _lookup_yes_no self (lower label) then "Yes" else "No")
                = if _lookup_yes_no self (lower label) then "yes" else "no")
      by now destruct (_lookup_yes_no self (lower label)).
    rewrite E. split.
    + destruct (first_option _ _); now eexists.
    + intros opt H. now rewrite (first_option_first _ _ _ H).
Qed.

(** X13. For a label that is no yes/no question, the keyword blocks
    choose by the profile.  With "education" or "degree" in the label and
    a non-empty highest education, the first option containing it,
    whatever the case, is chosen.  Without those keywords but with
    "experience", the first option containing the years of experience as
    text.  With "country" alone of the four keywords, the first option
    containing the country; with "currency" alone, the first containing
    the currency. *)
Theorem keyword_dropdown_choice
    (self : QuestionAnswerer) (label : string) (options : list string) (opt : string) :
  let q := lower label in
  _is_yes_no_question q = false ->
  (forall t,
     str_in "education" q || str_in "degree" q = true ->
     dict_get (background self) "highest_education" (PyStr "") = PyStr t ->
     lower t <> "" ->
     first_with (fun o => str_in (lower t) (lower o)) options opt ->
     best_dropdown_option self label options = Ok opt) /\
  (str_in "education" q || str_in "degree" q = false ->
   (str_in "experience" q = true ->
    first_with (fun o => str_in (py_str (dict_get (background self)
                                                  "years_of_experience" (PyInt 2))) o)
               options opt ->
    best_dropdown_option self label options = Ok opt) /\
   (str_in "experience" q = false ->
    (forall t,
       str_in "country" q = true ->
       dict_get (personal self) "country" (PyStr "India") = PyStr t ->
       first_with (fun o => str_in (lower t) (lower o)) options opt ->
       best_dropdown_option self label options = Ok opt) /\
    (forall t,
       str_in "country" q = false -> str_in "currency" q = true ->
       dict_get (background self) "currency" (PyStr "INR") = PyStr t ->
       first_with (fun o => str_in (lower t) (lower o)) options opt ->
       best_dropdown_option self label options = Ok opt))).
Proof.
  intros q Hq. subst q.
  assert (Hstart : forall test, first_with test options opt ->
            best_dropdown_option self label options =
            or_next (education_block self (lower label) options)
           (or_next (experience_block self (lower label) options)
           (or_next (country_block self (lower label) options)
           (or_next (currency_block self (lower label) options)
                    (mret (hd "" options)))))).
  { intros test H. apply first_with_nonempty in H as (o & os & ->).
    unfold best_dropdown_option. now rewrite Hq. }
  split; [|intros Hedu; split; [|intros Hexp; split]].
  - intros t Hk Ht Hne Hf. rewrite (Hstart _ Hf).
    unfold education_block. rewrite Hk, Ht. unmonad.
    erewrite first_option_first; [reflexivity|].
    destruct Hf as (b & a & -> & Hb & Ho). exists b, a. repeat split.
    + eapply Forall_impl; [exact Hb|]. cbn beta. intros o ->. apply andb_false_r.
    + rewrite Ho. destruct (String.eqb_spec (lower t) ""); [congruence|reflexivity].
  - intros Hk Hf. rewrite (Hstart _ Hf).
    unfold education_block, experience_block. rewrite Hedu, Hk. unmonad.
    now rewrite (first_option_first _ _ _ Hf).
  - intros t Hk Ht Hf. rewrite (Hstart _ Hf).
    unfold education_block, experience_block, country_block.
    rewrite Hedu, Hexp, Hk, Ht. unmonad.
    now rewrite (first_option_first _ _ _ Hf).
  - intros t Hc Hk Ht Hf. rewrite (Hstart _ Hf).
    unfold education_block, experience_block, country_block, currency_block.
    rewrite Hedu, Hexp, Hc, Hk, Ht. unmonad.
    now rewrite (first_option_first _ _ _ Hf).
Qed.

(** X14. The dropdown choice raises [AttributeError] when a fact it
    lower-cases is not text: for a label that is no yes/no question and
    has "education" or "degree", a highest education that is not a string;
    for a label with "country" alone of the four keywords, such a country;
    with "currency" alone, such a currency. *)
Theorem dropdown_choice_needs_text
    (self : QuestionAnswerer) (label : string) (options : list string) :
  let q := lower label in
  let not_text v := forall s, v <> PyStr s in
  options <> [] ->
  _is_yes_no_question q = false ->
  (str_in "education" q || str_in "degree" q = true ->
   not_text (dict_get (background self) "highest_education" (PyStr "")) ->
   best_dropdown_option self label options = Raise AttributeError) /\
  (str_in "education" q || str_in "degree" q = false ->
   str_in "experience" q = false ->
   (str_in "country" q = true ->
    not_text (dict_get (personal self) "country" (PyStr "India")) ->
    best_dropdown_option self label options = Raise AttributeError) /\
   (str_in "country" q = false -> str_in "currency" q = true ->
    not_text (dict_get (background self) "currency" (PyStr "INR")) ->
    best_dropdown_option self label options = Raise AttributeError)).
Proof.
  intros q not_text Hne Hq. subst q not_text. cbn beta.
  destruct options as [|o0 os]; [congruence|].
  unfold best_dropdown_option. rewrite Hq.
  assert (Hlow : forall v, (forall s, v <> PyStr s) -> py_lower v = Raise AttributeError).
  { intros [] Hv; try reflexivity. exfalso. now apply (Hv s). }
  split; [|intros Hedu Hexp; split].
  - intros Hk Hv. unfold education_block. rewrite Hk, (Hlow _ Hv). reflexivity.
  - intros Hk Hv. unfold education_block, experience_block, country_block.
    rewrite Hedu, Hexp, Hk, (Hlow _ Hv). reflexivity.
  - intros Hc Hk Hv.
    unfold education_block, experience_block, country_block, currency_block.
    rewrite Hedu, Hexp, Hc, Hk, (Hlow _ Hv). reflexivity.
Qed.

End EngineFacts.

(** ** Label resolution *)

Module LabelFacts.
Import Py PyFacts Dom Driver FormFiller Spec XSpec MFacts TextFacts CleanFacts.

Lemma label_for_trimmed ls id text : label_for ls id = Some text -> trimmed text.
Proof.
  unfold label_for. destruct (find _ ls); [|discriminate].
  intros [= <-]. apply trimmed_strip.
Qed.

Lemma label_of_attribute ls f :
  let aria := default "" (aria_label f) in
  let hint := default "" (placeholder f) in
  (aria <> "" -> label_of ls f = aria) /\
  (aria = "" -> hint <> "" -> label_of ls f = hint).
Proof.
  cbn zeta. unfold label_of. split.
  - intros H. destruct (String.eqb_spec (default "" (aria_label f)) "");
      [congruence | reflexivity].
  - intros -> H. cbn. destruct (String.eqb_spec (default "" (placeholder f)) "");
      [congruence | reflexivity].
Qed.

Lemma label_of_element ls f :
  default "" (aria_label f) = "" -> default "" (placeholder f) = "" ->
  label_of ls f =
  match (match el_id f with
         | Some id => if negb (id =? "") then label_for ls id else None
         | None => None
         end), ancestor_label f, preceding_label f with
  | Some text, _, _ => text
  | None, Some text, _ => strip text
  | None, None, Some text => strip text
  | None, None, None => ""
  end.
Proof. intros Ha Hp. unfold label_of. rewrite Ha, Hp. reflexivity. Qed.

(** X15. When label resolution returns, it has changed nothing on the
    page, and its result is: a non-empty [aria-label], as it is; otherwise
    a non-empty [placeholder], as it is.  With neither, for a control whose
    [id] can stand in a selector as it is, the result is trimmed text:
    that of the [label] bound to a non-empty [id], even when that text is
    blank and other labels surround the control; without a bound label
    that of the enclosing label; without either that of the label just
    before; the empty text when there is none. *)
Theorem label_resolution (h : nat) (w w' : World) (f : Field) (label : string) :
  fields (page w) !! h = Some f ->
  _get_label_for h w = (Ok label, w') ->
  let ls := labels (page w) in
  let aria := default "" (aria_label f) in
  let hint := default "" (placeholder f) in
  w' = w /\
  (aria <> "" -> label = aria) /\
  (aria = "" -> hint <> "" -> label = hint) /\
  (aria = "" -> hint = "" -> safe_id f ->
   trimmed label /\
   (forall id text, el_id f = Some id -> id <> "" ->
                    label_for ls id = Some text -> label = text) /\
   ((forall id, el_id f = Some id -> id <> "" -> label_for ls id = None) ->
    (forall text, ancestor_label f = Some text -> label = strip text) /\
    (ancestor_label f = None ->
     (forall text, preceding_label f = Some text -> label = strip text) /\
     (preceding_label f = None -> label = "")))).
Proof.
  intros Hf Hrun ls aria hint. subst ls aria hint.
  rewrite (get_label_for_some h w f Hf) in Hrun. injection Hrun as <- <-.
  split; [reflexivity|].
  destruct (label_of_attribute (labels (page w)) f) as [Ha Hp].
  split; [exact Ha|]. split; [exact Hp|].
  intros Ea Ep _. rewrite (label_of_element _ _ Ea Ep).
  assert (Hfree : forall a p : option string,
            trimmed (match a, p with
                     | Some text, _ => strip text
                     | None, Some text => strip text
                     | None, None => ""
                     end)).
  { intros [a|] [p|]; try apply trimmed_strip. now left. }
  assert (Hrest : forall a p : option string,
            let l := match a, p with
                     | Some text, _ => strip text
                     | None, Some text => strip text
                     | None, None => ""
                     end in
            (forall text, a = Some text -> l = strip text) /\
            (a = None -> (forall text, p = Some text -> l = strip text) /\
                         (p = None -> l = ""))).
  { intros a p. cbv zeta. split.
    - intros text ->. reflexivity.
    - intros ->. split; [intros text ->; reflexivity | intros ->; reflexivity]. }
  destruct (el_id f) as [id|] eqn:Hid.
  - destruct (String.eqb_spec id "") as [->|Hne]; cbn [negb].
    + split; [apply Hfree|]. split.
      * intros id text [= <-] Hne. congruence.
      * intros _. apply Hrest.
    + destruct (label_for (labels (page w)) id) as [text|] eqn:Hl.
      * split; [eapply label_for_trimmed, Hl|]. split.
        -- intros id' text' [= <-] _ Hl'. congruence.
        -- intros Hnone. specialize (Hnone id eq_refl Hne). congruence.
      * split; [apply Hfree|]. split.
        -- intros id' text' [= <-] _ Hl'. congruence.
        -- intros _. apply Hrest.
  - split; [apply Hfree|]. split.
    + intros id text [=].
    + intros _. apply Hrest.
Qed.

End LabelFacts.

(** ** The passes over the controls, control by control *)

Module PassFacts.
Import Py PyFacts QA QAFacts Dom Driver FormFiller Spec XSpec.
Import MFacts TextFacts CollectFacts KeptFacts TotalFacts.

Lemma same_field_refl h w : same_field h w w.
Proof. split; auto. Qed.

Lemma same_field_trans h w1 w2 w3 :
  same_field h w1 w2 -> same_field h w2 w3 -> same_field h w1 w3.
Proof.
  intros [L1 F1] [L2 F2]. split; [congruence|].
  intros f Hf Hk. apply F2; [apply F1|]; assumption.
Qed.

Lemma same_put_field h h' f : h' <> h -> keeps (same_field h) (put_field h' f).
Proof.
  intros Hne w. split; [reflexivity|]. intros g Hg _. cbn.
  now rewrite list_lookup_insert_ne.
Qed.

Lemma same_emit h e : keeps (same_field h) (emit e).
Proof. intros w. split; [reflexivity|]. intros g Hg _. exact Hg. Qed.

Lemma same_check_radio h h' f :
  h' <> h ->
  keeps (same_field h)
        (fun w => (Ok tt, {| page := set_fields (page w)
                                       (check_radio h' f (fields (page w)));
                             trace := trace w |})).
Proof.
  intros Hne w. split; [reflexivity|]. intros g Hg Hk. cbn.
  rewrite check_radio_lookup, Hg. cbn.
  destruct (decide (h = h')); [congruence|].
  destruct (decide _) as [[Hr _]|_]; [congruence | reflexivity].
Qed.

Ltac same_step h :=
  first
    [ apply same_put_field; assumption
    | apply same_emit
    | apply same_check_radio; assumption
    | keeps_step (same_field_refl h) (same_field_trans h) ].

Section Bodies.
Variable qa : QuestionAnswerer.
Variable docs : gmap string pyval.
Variable abspath : string -> string.
Variable path_exists : string -> bool.

Lemma same_fill_text h h' : h' <> h -> keeps (same_field h) (fill_text qa h').
Proof.
  intros Hne. unfold fill_text, skip_field, is_displayed, is_enabled,
    _get_label_for, clear, send_keys.
  repeat same_step h. intros w. apply same_field_refl.
Qed.

Lemma same_select_body h h' : h' <> h -> keeps (same_field h) (select_body qa h').
Proof.
  intros Hne. unfold select_body, skip_field, is_displayed, is_enabled,
    _get_label_for, select_by_visible_text.
  repeat same_step h. intros w. apply same_field_refl.
Qed.

Lemma same_checkbox_body h h' : h' <> h -> keeps (same_field h) (checkbox_body h').
Proof.
  intros Hne. unfold checkbox_body, skip_field, is_displayed, is_selected,
    _get_label_for, click.
  repeat same_step h. intros w. apply same_field_refl.
Qed.

End Bodies.

Lemma sorted_lt_NoDup l : StronglySorted lt l -> List.NoDup l.
Proof.
  induction 1 as [|x l Hs IH Hx]; constructor; [|exact IH].
  intros Hin. rewrite List.Forall_forall in Hx. specialize (Hx x Hin). lia.
Qed.

(** A loop over distinct handles whose body, on any other handle, leaves
    the control [h] as it is: what it does to [h] is what one run of the
    body on [h] does. *)
Lemma for_each_focus (body : nat -> M unit) (h : nat) (hs : list nat) w :
  (forall h', h' <> h -> keeps (same_field h) (body h')) ->
  (forall h', total (body h')) ->
  List.NoDup hs -> In h hs ->
  exists w1 w2 w3,
    same_field h w w1 /\ body h w1 = (Ok tt, w2) /\ same_field h w2 w3 /\
    for_each hs body w = (Ok tt, w3).
Proof.
  intros Hother Htot Hnd Hin.
  apply in_split in Hin as (l1 & l2 & ->).
  assert (H1 : ~ In h l1 /\ ~ In h l2).
  { apply List.NoDup_remove_2 in Hnd. split; intros H; apply Hnd, in_or_app; auto. }
  destruct H1 as [Hl1 Hl2].
  assert (Hrun : forall l w0, ~ In h l ->
            exists w', for_each l body w0 = (Ok tt, w') /\ same_field h w0 w').
  { intros l w0 Hl.
    pose proof (total_for_each l body Htot w0) as [[] Hr].
    assert (Hk : keeps (same_field h) (for_each l body)).
    { apply (keeps_for_each _ (same_field_refl h) (same_field_trans h)).
      intros x Hx. apply Hother. intros ->. exact (Hl Hx). }
    specialize (Hk w0). destruct (for_each l body w0) as [r w'].
    cbn in Hr, Hk. subst r. now exists w'. }
  destruct (Hrun l1 w Hl1) as (w1 & E1 & S1).
  destruct (Htot h w1) as [[] Hb].
  destruct (body h w1) as [r w2] eqn:E2. cbn in Hb. subst r.
  destruct (Hrun l2 w2 Hl2) as (w3 & E3 & S3).
  exists w1, w2, w3. repeat split; try assumption; try apply S1; try apply S3.
  rewrite for_each_app, E1. cbn [for_each]. rewrite bind_run, E2. exact E3.
Qed.

Lemma pass_bodies qa docs abspath path_exists :
  _fill_selects qa = (do hs <- find_elements SelectList; for_each hs (select_body qa)) /\
  _fill_checkboxes = (do hs <- find_elements Checkbox; for_each hs checkbox_body) /\
  _handle_file_uploads docs abspath path_exists =
    (do hs <- find_elements FileInput;
     for_each hs (upload_body docs abspath path_exists)).
Proof. repeat split. Qed.

(** A pass over the controls of kind [k] leaves the control [h] of that
    kind as one run of its body does. *)
Lemma pass_focus (k : Kind) (body : nat -> M unit) (h : nat) (f : Field) w :
  (forall h1 h2, h2 <> h1 -> keeps (same_field h1) (body h2)) ->
  (forall h', total (body h')) ->
  fields (page w) !! h = Some f -> kind f = k -> k <> Radio ->
  exists w1 w2 w3,
    labels (page w1) = labels (page w) /\ fields (page w1) !! h = Some f /\
    body h w1 = (Ok tt, w2) /\
    (forall g, fields (page w2) !! h = Some g -> kind g <> Radio ->
               fields (page w3) !! h = Some g) /\
    labels (page w3) = labels (page w) /\
    (do hs <- find_elements k; for_each hs body) w = (Ok tt, w3).
Proof.
  intros Hother Htot Hf Hk Hr.
  assert (Hin : In h (handles_from 0 k (fields (page w)))).
  { apply handles_from_In. split; [lia|]. exists f. now rewrite Nat.sub_0_r. }
  destruct (for_each_focus body h _ w (Hother h) Htot
              (sorted_lt_NoDup _ (handles_from_sorted 0 k (fields (page w)))) Hin)
    as (w1 & w2 & w3 & [L1 F1] & E2 & [L3 F3] & E).
  assert (L2 : labels (page w2) = labels (page w1)).
  { pose proof (Hother (S h) h (Nat.neq_succ_diag_r h) w1) as [L _].
    now rewrite E2 in L. }
  exists w1, w2, w3. repeat split; try assumption; [|congruence].
  apply F1; [exact Hf | congruence].
Qed.

(** A pass over the controls of kind [k] leaves a control of another
    kind, not a radio, as it is. *)
Lemma pass_other (k : Kind) (body : nat -> M unit) (h : nat) (f : Field) w :
  (forall h1 h2, h2 <> h1 -> keeps (same_field h1) (body h2)) ->
  (forall h', total (body h')) ->
  fields (page w) !! h = Some f -> kind f <> k -> kind f <> Radio ->
  exists w',
    (do hs <- find_elements k; for_each hs body) w = (Ok tt, w') /\
    labels (page w') = labels (page w) /\
    fields (page w') !! h = Some f.
Proof.
  intros Hother Htot Hf Hk Hr.
  set (hs := handles_from 0 k (fields (page w))).
  assert (Hnot : ~ In h hs).
  { intros Hin. apply handles_from_In in Hin as (_ & g & Hg & Hkg).
    rewrite Nat.sub_0_r, Hf in Hg. congruence. }
  pose proof (total_for_each hs body Htot w) as [[] Hrun].
  assert (Hkeep : keeps (same_field h) (for_each hs body)).
  { apply (keeps_for_each _ (same_field_refl h) (same_field_trans h)).
    intros x Hx. apply Hother. intros ->. exact (Hnot Hx). }
  specialize (Hkeep w). change ((do hs <- find_elements k; for_each hs body) w)
    with (for_each hs body w).
  destruct (for_each hs body w) as [r w'] eqn:E. cbn in Hrun, Hkeep. subst r.
  destruct Hkeep as [L F]. exists w'. repeat split; auto.
Qed.

Section Text.
Variable qa : QuestionAnswerer.

Lemma fill_text_run h w f :
  fields (page w) !! h = Some f ->
  exists w',
    fill_text qa h w = (Ok tt, w') /\
    fields (page w') !! h = Some (text_outcome qa (labels (page w)) f).
Proof.
  intros Hf. unfold fill_text, skip_field, try_except, text_outcome.
  rewrite bind_run, (is_displayed_some h w f Hf). cbv beta iota.
  rewrite bind_run, (is_enabled_some h w f Hf). cbv beta iota.
  destruct (displayed f); cbn [negb orb andb]; [|now exists w].
  destruct (enabled f); cbn [negb orb andb]; [|now exists w].
  rewrite bind_run, (get_field_some h w f Hf). cbv beta iota zeta.
  destruct (strip (default "" (value f)) =? ""); cbn [negb andb]; [|now exists w].
  rewrite bind_run, (get_label_for_some h w f Hf). cbv beta iota.
  generalize (answer qa (label_of (labels (page w)) f) "text"). intros ans.
  destruct (truthy ans); cbn [andb]; [|now exists w].
  rewrite bind_run. unfold clear at 1. rewrite bind_run, (get_field_some h w f Hf).
  cbv beta iota. destruct (interactable f) eqn:Hi; [|now exists w].
  assert (Hlt : h < length (fields (page w))) by (eapply lookup_lt_Some, Hf).
  rewrite bind_run. unfold put_field at 1, emit at 1. cbv beta iota.
  unfold send_keys. rewrite bind_run. unfold get_field at 1. cbn [page fields set_fields].
  rewrite list_lookup_insert_eq by exact Hlt. cbv beta iota.
  cbn [interactable set_value]. rewrite Hi.
  rewrite bind_run. unfold put_field, emit. cbv beta iota.
  eexists. split; [reflexivity|]. cbn [page fields set_fields kind set_value value default].
  rewrite list_lookup_insert_eq by (now rewrite length_insert).
  destruct (kind f); reflexivity.
Qed.

End Text.

Lemma text_pass_run (qa : QuestionAnswerer) (k : Kind) w h f :
  fields (page w) !! h = Some f -> kind f = k -> k <> Radio ->
  exists w',
    (do hs <- find_elements k; for_each hs (fill_text qa)) w = (Ok tt, w') /\
    labels (page w') = labels (page w) /\
    fields (page w') !! h = Some (text_outcome qa (labels (page w)) f).
Proof.
  intros Hf Hk Hr.
  destruct (pass_focus k (fill_text qa) h f w
              (same_fill_text qa) (total_fill_text qa) Hf Hk Hr)
    as (w1 & w2 & w3 & L1 & F1 & E2 & F3 & L3 & E).
  destruct (fill_text_run qa h w1 f F1) as (w2' & E2' & F2).
  rewrite E2 in E2'. injection E2' as <-.
  exists w3. split; [exact E|]. split; [exact L3|].
  rewrite <- L1. apply F3; [exact F2|].
  unfold text_outcome. destruct (_ && _); cbn [kind set_value]; congruence.
Qed.


(** *** Checkboxes *)

Lemma total_checkbox_body cb : total (checkbox_body cb).
Proof.
  unfold checkbox_body. apply total_skip_field.
  unfold is_displayed, is_selected, _get_label_for, click.
  repeat ro_step.
Qed.

Lemma checkbox_body_run h w f :
  fields (page w) !! h = Some f -> kind f = Checkbox ->
  exists w',
    checkbox_body h w = (Ok tt, w') /\
    fields (page w') !! h = Some (checkbox_outcome (labels (page w)) f).
Proof.
  intros Hf Hk. unfold checkbox_body, skip_field, try_except, checkbox_outcome,
    wants_consent.
  rewrite bind_run, (is_displayed_some h w f Hf). cbv beta iota.
  destruct (displayed f); cbn [negb andb]; [|now exists w].
  rewrite bind_run, (get_label_for_some h w f Hf). cbv beta iota zeta.
  destruct (existsb _ _); cbn [andb]; [|now exists w].
  rewrite bind_run, (is_selected_some h w f Hf). cbv beta iota.
  destruct (selected f) eqn:Hs; cbn [negb andb]; [now exists w|].
  unfold click. rewrite bind_run, (get_field_some h w f Hf). cbv beta iota.
  destruct (interactable f); [|now exists w].
  rewrite Hk, bind_run. unfold put_field, emit. cbv beta iota.
  eexists. split; [reflexivity|]. cbn [page fields set_fields].
  rewrite list_lookup_insert_eq by (eapply lookup_lt_Some, Hf).
  now rewrite Hs.
Qed.

Lemma checkbox_pass_run w h f :
  fields (page w) !! h = Some f -> kind f = Checkbox ->
  exists w',
    _fill_checkboxes w = (Ok tt, w') /\
    labels (page w') = labels (page w) /\
    fields (page w') !! h = Some (checkbox_outcome (labels (page w)) f).
Proof.
  intros Hf Hk.
  destruct (pass_focus Checkbox checkbox_body h f w
              same_checkbox_body total_checkbox_body Hf Hk)
    as (w1 & w2 & w3 & L1 & F1 & E2 & F3 & L3 & E); [discriminate|].
  destruct (checkbox_body_run h w1 f F1 Hk) as (w2' & E2' & F2).
  rewrite E2 in E2'. injection E2' as <-.
  exists w3. split; [exact E|]. split; [exact L3|].
  rewrite <- L1. apply F3; [exact F2|].
  unfold checkbox_outcome. destruct (_ && _); cbn [kind set_selected]; congruence.
Qed.


(** *** Select lists *)

Section Select.
Variable qa : QuestionAnswerer.

Lemma eligible_option_proper f text :
  In text (eligible_options f) -> proper_option f text.
Proof.
  unfold eligible_options. intros H. apply in_map_iff in H as (o & <- & Ho).
  apply filter_In in Ho as [Ho Ht]. apply andb_true_iff in Ht as [Ht Hv].
  exists o. split; [exact Ho|]. split; [reflexivity|]. split.
  - intros E. rewrite E in Ht. discriminate.
  - destruct (o_value o) as [v|]; [|split; discriminate].
    apply negb_true_iff, orb_false_iff in Hv as [H1 H2].
    apply String.eqb_neq in H1, H2. split; congruence.
Qed.

Lemma select_body_run h w f :
  fields (page w) !! h = Some f ->
  match best_dropdown_option qa (label_of (labels (page w)) f) (eligible_options f) with
  | Ok best =>
      exists w', select_body qa h w = (Ok tt, w') /\
                 fields (page w') !! h = Some (select_outcome f best)
  | Raise e =>
      stale_or_blocked e = false ->
      if displayed f && enabled f
      then select_body qa h w = (Raise e, w)
      else select_body qa h w = (Ok tt, w)
  end.
Proof.
  intros Hf. unfold select_body, skip_field, try_except, select_outcome.
  rewrite bind_run, (is_displayed_some h w f Hf). cbv beta iota.
  rewrite bind_run, (is_enabled_some h w f Hf). cbv beta iota.
  pose proof (best_dropdown_option_sound qa (label_of (labels (page w)) f)
                (eligible_options f)) as Hsound.
  destruct (displayed f), (enabled f); cbn [negb orb andb];
    try (destruct (best_dropdown_option _ _ _); [now exists w | reflexivity]).
  all: cbv beta.
  rewrite bind_run, (get_label_for_some h w f Hf). cbv beta iota.
  rewrite bind_run, (get_field_some h w f Hf). cbv beta iota zeta.
  destruct (eligible_options f) as [|o0 os] eqn:Hopts.
  { cbn. exists w. split; [reflexivity|]. now destruct (interactable f). }
  rewrite bind_run. unfold lift.
  destruct (best_dropdown_option _ _ _) as [best|e] eqn:Hbest.
  2:{ intros He. destruct e; try discriminate He; reflexivity. }
  assert (Hin : In best (eligible_options f)).
  { rewrite Hopts. apply Hsound; [discriminate | reflexivity]. }
  unfold select_by_visible_text. rewrite bind_run, (get_field_some h w f Hf).
  cbv beta iota. rewrite (eligible_option_listed f best Hin).
  destruct (interactable f); [|now exists w].
  rewrite bind_run. unfold put_field, emit. cbv beta iota.
  eexists. split; [reflexivity|]. cbn [page fields set_fields].
  now rewrite list_lookup_insert_eq by (eapply lookup_lt_Some, Hf).
Qed.

Hypothesis qa_typed : text_facts qa.

Lemma total_select_body sel : total (select_body qa sel).
Proof.
  intros w. destruct (fields (page w) !! sel) as [f|] eqn:Hf.
  - pose proof (select_body_run sel w f Hf) as H.
    destruct (best_dropdown_option_returns qa (label_of (labels (page w)) f)
                (eligible_options f) qa_typed) as [best Hbest].
    rewrite Hbest in H. destruct H as (w' & -> & _). now eexists.
  - unfold select_body, skip_field, try_except, is_displayed.
    rewrite !bind_run. unfold get_field. rewrite Hf. now eexists.
Qed.

End Select.

Lemma select_pass_run (qa : QuestionAnswerer) w h f best :
  text_facts qa ->
  fields (page w) !! h = Some f -> kind f = SelectList ->
  best_dropdown_option qa (label_of (labels (page w)) f) (eligible_options f)
  = Ok best ->
  exists w',
    _fill_selects qa w = (Ok tt, w') /\
    labels (page w') = labels (page w) /\
    fields (page w') !! h = Some (select_outcome f best).
Proof.
  intros Ht Hf Hk Hbest.
  destruct (pass_focus SelectList (select_body qa) h f w
              (same_select_body qa) (total_select_body qa Ht) Hf Hk)
    as (w1 & w2 & w3 & L1 & F1 & E2 & F3 & L3 & E); [discriminate|].
  pose proof (select_body_run qa h w1 f F1) as Hrun.
  rewrite L1, Hbest in Hrun. destruct Hrun as (w2' & E2' & F2).
  rewrite E2 in E2'. injection E2' as <-.
  exists w3. split; [exact E|]. split; [exact L3|].
  apply F3; [exact F2|]. unfold select_outcome.
  destruct (_ && _); [|congruence].
  destruct (eligible_options f); cbn [kind set_value]; congruence.
Qed.


(** *** File uploads *)

Section Upload.
Variable docs : gmap string pyval.
Variable abspath : string -> string.
Variable path_exists : string -> bool.

Local Abbreviation body := (upload_body docs abspath path_exists).

Lemma same_upload_body h h' : h' <> h -> keeps (same_field h) (body h').
Proof.
  intros Hne. unfold upload_body, skip_field, _get_label_for, send_keys.
  repeat same_step h. intros w. apply same_field_refl.
Qed.

Lemma only_uploads_refl w : only_uploads path_exists w w.
Proof. exists []. split; [now rewrite app_nil_r | constructor]. Qed.

Lemma only_uploads_trans w1 w2 w3 :
  only_uploads path_exists w1 w2 -> only_uploads path_exists w2 w3 ->
  only_uploads path_exists w1 w3.
Proof.
  intros (e1 & T1 & F1) (e2 & T2 & F2). exists (e1 ++ e2)%list. split.
  - now rewrite T2, T1, app_assoc.
  - apply List.Forall_app. now split.
Qed.

Lemma uploads_send fi p :
  negb (p =? "") && path_exists p = true ->
  keeps (only_uploads path_exists) (send_keys fi p).
Proof.
  intros Hp. apply andb_true_iff in Hp as [Hne Hex].
  apply negb_true_iff, String.eqb_neq in Hne.
  intros w. unfold send_keys. rewrite bind_run. unfold get_field.
  destruct (fields (page w) !! fi) as [f|]; [|apply only_uploads_refl].
  destruct (interactable f); [|apply only_uploads_refl].
  rewrite bind_run. unfold put_field, emit. cbn.
  exists [EvSendKeys fi p]. split; [reflexivity|]. repeat constructor; assumption.
Qed.

Lemma uploads_body fi : keeps (only_uploads path_exists) (body fi).
Proof.
  unfold upload_body, skip_field, _get_label_for.
  apply (keeps_try_except _ only_uploads_trans);
    [|apply (keeps_ret _ only_uploads_refl)].
  apply (keeps_bind _ only_uploads_trans).
  { repeat keeps_step only_uploads_refl only_uploads_trans.
    intros w. apply only_uploads_refl. }
  intros label_text. cbv zeta.
  apply (keeps_bind _ only_uploads_trans).
  { repeat keeps_step only_uploads_refl only_uploads_trans. }
  intros p. destruct (negb (p =? "") && path_exists p) eqn:Hp.
  - now apply uploads_send.
  - apply (keeps_ret _ only_uploads_refl).
Qed.

Lemma upload_body_run h w f :
  fields (page w) !! h = Some f -> kind f = FileInput ->
  match upload_path docs abspath (label_of (labels (page w)) f) with
  | Ok p =>
      exists w', body h w = (Ok tt, w') /\
                 fields (page w') !! h
                 = Some (upload_outcome docs abspath path_exists (labels (page w)) f)
  | Raise e => stale_or_blocked e = false -> body h w = (Raise e, w)
  end.
Proof.
  intros Hf Hk. unfold upload_body, skip_field, try_except, upload_outcome, upload_path.
  rewrite bind_run, (get_label_for_some h w f Hf). cbv beta iota zeta.
  rewrite bind_run.
  set (path := if str_in "cover" (lower (label_of (labels (page w)) f))
               then dict_get docs "cover_letter_path" (PyStr "")
               else dict_get docs "cv_path" (PyStr "")).
  assert (Hsend : forall p,
            exists w',
              (if negb (p =? "") && path_exists p then send_keys h p else ret tt) w
              = (match (if negb (p =? "") && path_exists p then send_keys h p
                        else ret tt) w with (r, _) => r end, w') /\
              match (if negb (p =? "") && path_exists p then send_keys h p
                     else ret tt) w with
              | (Ok _, _) =>
                  fields (page w') !! h =
                  Some (if negb (p =? "") && path_exists p && interactable f
                        then set_value f (Some p) else f)
              | (Raise e, w'') => e = ElementNotInteractableException /\ w'' = w /\
                                  interactable f = false
              end).
  { intros p. destruct (negb (p =? "") && path_exists p); cbn [andb].
    - unfold send_keys. rewrite bind_run, (get_field_some h w f Hf). cbv beta iota.
      destruct (interactable f) eqn:Hi.
      + rewrite bind_run. unfold put_field, emit. cbv beta iota.
        eexists. split; [reflexivity|]. cbn [page fields set_fields].
        rewrite list_lookup_insert_eq by (eapply lookup_lt_Some, Hf).
        now rewrite Hk.
      + exists w. split; [reflexivity|]. cbn. auto.
    - exists w. split; [reflexivity|]. exact Hf. }
  destruct (truthy path); [|].
  - destruct path as [| | |p]; try (intros _; reflexivity).
    cbv beta iota. unfold ret at 1. cbv beta iota.
    destruct (Hsend (if isabs p then p else abspath p)) as (w' & E & H).
    destruct ((if negb ((if isabs p then p else abspath p) =? "")
                  && path_exists (if isabs p then p else abspath p)
               then send_keys h (if isabs p then p else abspath p) else ret tt) w)
      as [[[]|e] w''] eqn:Erun.
    + injection E as <-. now exists w''.
    + destruct H as (-> & -> & Hi). cbn [stale_or_blocked]. exists w.
      split; [reflexivity|]. rewrite Hi. now rewrite andb_false_r.
  - unfold ret at 1. cbv beta iota. cbn [String.eqb negb andb].
    exists w. split; [reflexivity|]. exact Hf.
Qed.

Hypothesis docs_typed : doc_paths docs.

Lemma upload_path_returns label : exists p, upload_path docs abspath label = Ok p.
Proof.
  destruct docs_typed as [Hcover Hcv]. unfold upload_path.
  destruct (str_in "cover" (lower label)).
  - destruct (truthy _) eqn:Ht; [|now eexists].
    destruct (Hcover Ht) as [s ->]. now eexists.
  - destruct (truthy _) eqn:Ht; [|now eexists].
    destruct (Hcv Ht) as [s ->]. now eexists.
Qed.

Lemma total_upload_body fi : total (body fi).
Proof.
  destruct docs_typed as [Hcover Hcv].
  unfold upload_body. apply total_skip_field. unfold _get_label_for.
  apply ro_bind; [repeat ro_step|]. intros label_text. cbv zeta.
  apply ro_bind.
  - destruct (str_in "cover" (lower label_text)); now apply ro_abs_path.
  - intros abs_path. unfold send_keys. repeat ro_step.
Qed.

End Upload.

(** X19. Whatever the page and the configuration, the only thing the
    upload pass does to the page is to send, to file inputs, paths that
    are not empty and that exist on the host. *)
Theorem uploads_send_existing_files
    (docs : gmap string pyval) (abspath : string -> string)
    (path_exists : string -> bool) (w : World) :
  only_uploads path_exists w
    (snd (_handle_file_uploads docs abspath path_exists w)).
Proof.
  revert w. change (keeps (only_uploads path_exists)
                          (_handle_file_uploads docs abspath path_exists)).
  unfold _handle_file_uploads.
  apply (keeps_bind _ (only_uploads_trans path_exists));
    [apply (keeps_find_elements _ (only_uploads_refl path_exists))|].
  intros hs. apply (keeps_for_each _ (only_uploads_refl path_exists)
                                   (only_uploads_trans path_exists)).
  intros fi _. apply uploads_body.
Qed.

Lemma upload_pass_run
    (docs : gmap string pyval) (abspath : string -> string)
    (path_exists : string -> bool) w h f :
  doc_paths docs ->
  fields (page w) !! h = Some f -> kind f = FileInput ->
  exists w',
    _handle_file_uploads docs abspath path_exists w = (Ok tt, w') /\
    labels (page w') = labels (page w) /\
    fields (page w') !! h
    = Some (upload_outcome docs abspath path_exists (labels (page w)) f).
Proof.
  intros Hd Hf Hk.
  destruct (pass_focus FileInput (upload_body docs abspath path_exists) h f w
              (same_upload_body docs abspath path_exists)
              (total_upload_body docs abspath path_exists Hd) Hf Hk)
    as (w1 & w2 & w3 & L1 & F1 & E2 & F3 & L3 & E); [discriminate|].
  pose proof (upload_body_run docs abspath path_exists h w1 f F1 Hk) as Hrun.
  rewrite L1 in Hrun.
  assert (Hout : exists g, upload_outcome docs abspath path_exists (labels (page w)) f = g
                           /\ kind g = FileInput).
  { eexists. split; [reflexivity|]. unfold upload_outcome.
    destruct (upload_path _ _ _); [|exact Hk].
    destruct (_ && _); [exact Hk | exact Hk]. }
  destruct (upload_path_returns docs abspath Hd (label_of (labels (page w)) f))
    as [p Hp].
  unfold upload_outcome in *. rewrite Hp in Hrun, Hout |- *.
  destruct Hrun as (w2' & E2' & F2). rewrite E2 in E2'. injection E2' as <-.
  exists w3. split; [exact E|]. split; [exact L3|]. apply F3; [exact F2|].
  destruct Hout as (g & <- & Hg). congruence.
Qed.


End PassFacts.

(** ** The fill pass over a page *)

Module PageFacts.
Import Py PyFacts QA QAFacts Dom Driver FormFiller Spec XSpec.
Import MFacts TextFacts CollectFacts KeptFacts RadioFacts TotalFacts PassFacts.

Lemma same_fill_group qa h hs :
  ~ In h hs -> keeps (same_field h) (fill_group qa hs).
Proof.
  intros Hnot. unfold fill_group.
  apply (keeps_bind _ (same_field_trans h)).
  { apply (keeps_any_of _ (same_field_refl h) (same_field_trans h)).
    intros x _. unfold is_selected. repeat same_step h. }
  intros chosen. destruct chosen; [apply (keeps_ret _ (same_field_refl h))|].
  destruct hs as [|first rest]; [apply (keeps_raise _ (same_field_refl h))|].
  unfold _get_label_for.
  apply (keeps_bind _ (same_field_trans h)).
  { repeat same_step h. intros w. apply same_field_refl. }
  intros label_text.
  apply (keeps_bind _ (same_field_trans h)); [repeat same_step h|].
  intros answer_l.
  apply (keeps_for_each_break _ (same_field_refl h) (same_field_trans h)).
  intros x Hx. assert (Hne : x <> h) by (intros ->; exact (Hnot Hx)).
  unfold try_radio, click. repeat same_step h.
Qed.

Lemma radio_pass_same qa w h f :
  fields (page w) !! h = Some f -> kind f <> Radio ->
  exists w',
    _fill_radios qa w = (Ok tt, w') /\
    labels (page w') = labels (page w) /\
    fields (page w') !! h = Some f.
Proof.
  intros Hf Hk. destruct (radio_pass_run qa w "") as (w' & E & _).
  exists w'. split; [exact E|].
  set (groups := grouped (fields (page w)) (handles_from 0 Radio (fields (page w))) []).
  assert (Hrun : _fill_radios qa w = for_each groups (fun g => fill_group qa (snd g)) w).
  { unfold _fill_radios. rewrite bind_run. unfold find_elements. cbv beta iota.
    now rewrite bind_run, collect_groups_run. }
  assert (Hkeep : keeps (same_field h) (for_each groups (fun g => fill_group qa (snd g)))).
  { apply (keeps_for_each _ (same_field_refl h) (same_field_trans h)).
    intros g Hg. apply same_fill_group. intros Hin.
    destruct (groups_ok w g Hg) as [_ Hm].
    rewrite List.Forall_forall in Hm. destruct (Hm h Hin) as (f' & Hf' & Hr & _).
    congruence. }
  specialize (Hkeep w). rewrite <- Hrun, E in Hkeep. destruct Hkeep as [L F].
  split; [exact L | exact (F f Hf Hk)].
Qed.

Section Page.
Variable qa : QuestionAnswerer.
Variable docs : gmap string pyval.
Variable abspath : string -> string.
Variable path_exists : string -> bool.
Hypothesis qa_typed : text_facts qa.
Hypothesis docs_typed : doc_paths docs.

Lemma text_pass_any k w h g :
  k <> Radio -> fields (page w) !! h = Some g -> kind g <> Radio ->
  exists w',
    (do hs <- find_elements k; for_each hs (fill_text qa)) w = (Ok tt, w') /\
    labels (page w') = labels (page w) /\
    fields (page w') !! h
    = Some (if decide (kind g = k) then text_outcome qa (labels (page w)) g else g).
Proof.
  intros Hk Hg Hr. destruct (decide (kind g = k)) as [E|E].
  - now apply text_pass_run.
  - apply pass_other; auto using same_fill_text, total_fill_text.
Qed.

Lemma select_pass_any w h g :
  fields (page w) !! h = Some g -> kind g <> Radio ->
  exists w' best,
    _fill_selects qa w = (Ok tt, w') /\
    labels (page w') = labels (page w) /\
    best_dropdown_option qa (label_of (labels (page w)) g) (eligible_options g)
    = Ok best /\
    fields (page w') !! h
    = Some (if decide (kind g = SelectList) then select_outcome g best else g).
Proof.
  intros Hg Hr.
  destruct (best_dropdown_option_returns qa (label_of (labels (page w)) g)
              (eligible_options g) qa_typed) as [best Hbest].
  destruct (decide (kind g = SelectList)) as [E|E].
  - destruct (select_pass_run qa w h g best qa_typed Hg E Hbest)
      as (w' & E' & L' & F').
    exists w', best. repeat split; assumption.
  - destruct (pass_other SelectList (select_body qa) h g w
                (same_select_body qa) (total_select_body qa qa_typed) Hg E Hr)
      as (w' & E' & L' & F').
    exists w', best. repeat split; assumption.
Qed.

Lemma checkbox_pass_any w h g :
  fields (page w) !! h = Some g -> kind g <> Radio ->
  exists w',
    _fill_checkboxes w = (Ok tt, w') /\
    labels (page w') = labels (page w) /\
    fields (page w') !! h
    = Some (if decide (kind g = Checkbox)
            then checkbox_outcome (labels (page w)) g else g).
Proof.
  intros Hg Hr. destruct (decide (kind g = Checkbox)) as [E|E].
  - now apply checkbox_pass_run.
  - apply (pass_other Checkbox checkbox_body);
      auto using same_checkbox_body, total_checkbox_body.
Qed.

Lemma upload_pass_any w h g :
  fields (page w) !! h = Some g -> kind g <> Radio ->
  exists w',
    _handle_file_uploads docs abspath path_exists w = (Ok tt, w') /\
    labels (page w') = labels (page w) /\
    fields (page w') !! h
    = Some (if decide (kind g = FileInput)
            then upload_outcome docs abspath path_exists (labels (page w)) g
            else g).
Proof.
  intros Hg Hr. destruct (decide (kind g = FileInput)) as [E|E].
  - now apply upload_pass_run.
  - apply (pass_other FileInput (upload_body docs abspath path_exists));
      auto using same_upload_body, total_upload_body.
Qed.

End Page.

Lemma text_outcome_kind qa ls f : kind (text_outcome qa ls f) = kind f.
Proof. unfold text_outcome. now destruct (_ && _). Qed.

Lemma select_outcome_kind f best : kind (select_outcome f best) = kind f.
Proof.
  unfold select_outcome. destruct (_ && _); [|reflexivity].
  now destruct (eligible_options f).
Qed.

Lemma checkbox_outcome_kind ls f : kind (checkbox_outcome ls f) = kind f.
Proof. unfold checkbox_outcome. now destruct (_ && _). Qed.

Ltac unkind H :=
  rewrite ?text_outcome_kind, ?select_outcome_kind, ?checkbox_outcome_kind in H.

(** Settles the test on the kind of the control in the result [F] of a
    pass, the kind being known. *)
Ltac settle F :=
  match type of F with
  | context [decide (?a = ?b)] =>
      let D := fresh "D" in
      destruct (decide (a = b)) as [D|D];
      [ try (exfalso; unkind D; congruence)
      | try (exfalso; apply D;
             rewrite ?text_outcome_kind, ?select_outcome_kind,
               ?checkbox_outcome_kind; congruence) ]
  end.

Ltac kind_ne :=
  let H := fresh in
  intros H; unkind H; congruence.


End PageFacts.

(** ** The navigation probes and the driving loop *)

Module LoopFacts.
Import Py PyFacts QA QAFacts Dom Driver FormFiller Spec XSpec.
Import MFacts FrameFacts NavFacts StepFacts RunFacts TotalFacts.

Section Probes.
Variable navigate : Page -> nat -> Page.

Lemma probe_cases text w :
  probe_verdict navigate [text] w (probe navigate text w).
Proof.
  destruct (probe_hits_or_fails text (page w)) as [[i Hi]|Hf].
  - left. pose proof Hi as (btn & Hm & Hc). exists text, i, btn.
    split; [now left|]. split; [now apply probe_hit|]. split; assumption.
  - right. split; [now apply probe_miss|]. constructor; [exact Hf | constructor].
Qed.

Lemma probe_each_cases texts w :
  probe_verdict navigate texts w (probe_each navigate texts w).
Proof.
  induction texts as [|text texts IH].
  - right. split; [reflexivity | constructor].
  - cbn [probe_each]. rewrite bind_run.
    destruct (probe_cases text w) as [(t & i & btn & Hin & -> & Hm & Hc)|[-> Hf]].
    + destruct Hin as [<-|[]]. left. exists text, i, btn.
      split; [now left|]. split; [reflexivity|]. split; assumption.
    + apply Forall_cons_1 in Hf as [Hf _].
      destruct IH as [(t & i & btn & Hin & E & Hm & Hc)|[E Hfs]].
      * left. exists t, i, btn. split; [now right|]. split; [exact E|].
        split; assumption.
      * right. split; [exact E|]. now constructor.
Qed.

Lemma hit_not_fail text p i : probe_hits text p i -> probe_fails text p -> False.
Proof.
  intros Hh Hf.
  pose proof (probe_hit navigate text {| page := p; trace := [] |} i Hh) as E1.
  pose proof (probe_miss navigate text {| page := p; trace := [] |} Hf) as E2.
  rewrite E1 in E2. discriminate.
Qed.

Lemma try_next_hit w :
  (exists i, probe_hits "Next" (page w) i) \/
  (exists i, probe_hits "Continue" (page w) i) \/
  (exists i, probe_hits "Review" (page w) i) ->
  exists i, _try_next navigate w = (Ok true, clicked navigate w i).
Proof.
  intros H.
  destruct (probe_each_cases ["Next"; "Continue"; "Review"] w)
    as [(t & i & btn & _ & E & _)|[_ Hf]]; [now exists i|].
  exfalso.
  apply Forall_cons_1 in Hf as [F1 Hf]. apply Forall_cons_1 in Hf as [F2 Hf].
  apply Forall_cons_1 in Hf as [F3 _].
  destruct H as [[i Hi]|[[i Hi]|[i Hi]]]; eauto using hit_not_fail.
Qed.

End Probes.

(** X22. What a navigation probe has done when it returns.  If it
    returns [True] it has clicked exactly one button, the first in the
    document that contains one of its texts, which is displayed and
    enabled.  If it returns [False] it has left the surface untouched, each
    of its texts being absent or found first on a button that cannot be
    clicked. *)
Theorem navigation_probes_sound
    (navigate : Page -> nat -> Page) (w w' : World) (b : bool) :
  (_try_submit navigate w = (Ok b, w') ->
   probe_verdict navigate ["Submit application"; "Submit"] w (Ok b, w')) /\
  (_try_next navigate w = (Ok b, w') ->
   probe_verdict navigate ["Next"; "Continue"; "Review"] w (Ok b, w')) /\
  (_try_review navigate w = (Ok b, w') ->
   probe_verdict navigate ["Review"] w (Ok b, w')).
Proof.
  split; [|split]; intros E.
  - rewrite <- E. apply probe_each_cases.
  - rewrite <- E. apply probe_each_cases.
  - rewrite <- E. unfold _try_review. apply probe_cases.
Qed.

(** X23. Whenever the advance probe fails it has changed nothing, and the
    review probe that the loop tries next fails as well: the third branch
    of the loop never advances the form. *)
Theorem review_probe_is_redundant
    (navigate : Page -> nat -> Page) (w w' : World) :
  _try_next navigate w = (Ok false, w') ->
  w' = w /\ _try_review navigate w' = (Ok false, w').
Proof.
  intros E.
  destruct (probe_each_cases navigate ["Next"; "Continue"; "Review"] w)
    as [(t & i & btn & _ & E' & _)|[E' Hf]];
    unfold _try_next in E; rewrite E in E'; [discriminate|].
  injection E' as ->. split; [reflexivity|].
  apply Forall_cons_1 in Hf as [_ Hf]. apply Forall_cons_1 in Hf as [_ Hf].
  apply Forall_cons_1 in Hf as [F3 _].
  unfold _try_review. now apply probe_miss.
Qed.

Section Run.
Variable qa : QuestionAnswerer.
Variable docs : gmap string pyval.
Variable navigate : Page -> nat -> Page.
Variable abspath : string -> string.
Variable path_exists : string -> bool.

Local Abbreviation fill := (_fill_current_page qa docs abspath path_exists).
Local Abbreviation run := (run_steps qa docs navigate abspath path_exists).

Lemma try_submit_cases w :
  (exists i btn,
     _try_submit navigate w = (Ok true, clicked navigate w i) /\
     buttons (page w) !! i = Some btn /\
     str_in "Submit" (b_text btn) = true /\ clickable btn = true) \/
  _try_submit navigate w = (Ok false, w).
Proof.
  destruct (probe_each_cases navigate ["Submit application"; "Submit"] w)
    as [(t & i & btn & Hin & E & (Hb & Ht & _) & Hc)|[E _]]; [left|now right].
  exists i, btn. split; [exact E|]. split; [exact Hb|]. split; [|exact Hc].
  destruct Hin as [<-|[<-|[]]]; [|exact Ht].
  apply (str_in_app "Submit" " application"). exact Ht.
Qed.

Lemma try_next_cases w :
  (exists i, _try_next navigate w = (Ok true, clicked navigate w i)) \/
  _try_next navigate w = (Ok false, w).
Proof.
  destruct (probe_each_cases navigate ["Next"; "Continue"; "Review"] w)
    as [(t & i & btn & _ & E & _)|[E _]]; [left; now exists i | now right].
Qed.

Lemma try_review_cases w :
  (exists i, _try_review navigate w = (Ok true, clicked navigate w i)) \/
  _try_review navigate w = (Ok false, w).
Proof.
  destruct (probe_cases navigate "Review" w)
    as [(t & i & btn & _ & E & _)|[E _]]; [left; now exists i | now right].
Qed.

Lemma run_steps_cons step steps w :
  run (step :: steps) w =
  match fill {| page := page w; trace := (trace w ++ [EvStep (step + 1)])%list |} with
  | (Ok _, w1) =>
      match _try_submit navigate w1 with
      | (Ok true, w2) => (Ok true, w2)
      | (Ok false, w2) =>
          match _try_next navigate w2 with
          | (Ok true, w3) => run steps w3
          | (Ok false, w3) =>
              match _try_review navigate w3 with
              | (Ok true, w4) => run steps w4
              | (Ok false, w4) => (Ok false, w4)
              | (Raise e, w4) => (Raise e, w4)
              end
          | (Raise e, w3) => (Raise e, w3)
          end
      | (Raise e, w2) => (Raise e, w2)
      end
  | (Raise e, w1) => (Raise e, w1)
  end.
Proof.
  cbn [run_steps]. rewrite bind_run. cbn [emit]. rewrite bind_run.
  destruct (fill _) as [[[]|e] w1]; [|reflexivity].
  rewrite bind_run. destruct (_try_submit navigate w1) as [[[|]|e] w2]; try reflexivity.
  rewrite bind_run. destruct (_try_next navigate w2) as [[[|]|e] w3]; try reflexivity.
  rewrite bind_run. destruct (_try_review navigate w3) as [[[|]|e] w4]; reflexivity.
Qed.

Lemma run_steps_success steps w w' :
  run steps w = (Ok true, w') -> ended_on_submit navigate w'.
Proof.
  revert w. induction steps as [|step steps IH]; intros w; [discriminate|].
  rewrite run_steps_cons. destruct (fill _) as [[[]|e] w1]; [|discriminate].
  destruct (try_submit_cases w1) as [(i & btn & -> & Hb & Ht & Hc)| ->].
  { intros [= <-]. now exists w1, i, btn. }
  destruct (try_next_cases w1) as [[i ->]| ->]; [apply IH|].
  destruct (try_review_cases w1) as [[i ->]| ->]; [apply IH | discriminate].
Qed.

End Run.

(** X24. The run reports a submitted application only when its last
    action was a click on a button that was displayed, enabled and had
    "Submit" in its text. *)
Theorem submitted_means_clicked
    (qa : QuestionAnswerer) (docs : gmap string pyval)
    (navigate : Page -> nat -> Page)
    (abspath : string -> string) (path_exists : string -> bool) (w w' : World) :
  fill_application qa docs navigate abspath path_exists w = (Ok true, w') ->
  ended_on_submit navigate w' /\
  exists i, last (trace w') = Some (EvClickButton i).
Proof.
  intros E. unfold fill_application in E.
  pose proof (run_steps_success qa docs navigate abspath path_exists
                (seq 0 max_steps) w w' E) as Hs.
  split; [exact Hs|].
  destruct Hs as (w0 & i & btn & -> & _). exists i.
  cbn [clicked trace]. apply last_snoc.
Qed.

Lemma count_clicks_app e1 e2 :
  length (List.filter is_button_click (e1 ++ e2)) =
  length (List.filter is_button_click e1) + length (List.filter is_button_click e2).
Proof. now rewrite List.filter_app, length_app. Qed.

Lemma count_clicks_field evs :
  Forall field_event evs -> length (List.filter is_button_click evs) = 0.
Proof.
  induction 1 as [|e evs He _ IH]; [reflexivity|].
  cbn [List.filter]. destruct e; cbn in *; try contradiction; exact IH.
Qed.


End LoopFacts.

(** ** What a fill pass can change, and the choice among radios *)

Module ChoiceFacts.
Import Py PyFacts QA QAFacts Dom Driver FormFiller Spec XSpec.
Import MFacts TextFacts FrameFacts GroupFacts CollectFacts KeptFacts RadioFacts.
Import PassFacts PageFacts.

(** *** Only values and checked states change *)

Lemma set_state_id f : set_selected (set_value f (value f)) (selected f) = f.
Proof. now destruct f. Qed.

Lemma state_only_refl w : state_only w w.
Proof. intros h f Hf. exists (value f), (selected f). now rewrite set_state_id. Qed.

Lemma state_only_trans w1 w2 w3 :
  state_only w1 w2 -> state_only w2 w3 -> state_only w1 w3.
Proof.
  intros H1 H2 h f Hf. destruct (H1 h f Hf) as (v & b & Hg).
  destruct (H2 h _ Hg) as (v' & b' & Hg'). exists v', b'. exact Hg'.
Qed.

Lemma state_only_insert w h f g tr :
  fields (page w) !! h = Some f ->
  (exists v b, g = set_selected (set_value f v) b) ->
  state_only w {| page := set_fields (page w) (<[h := g]> (fields (page w)));
                  trace := tr |}.
Proof.
  intros Hf (v & b & ->) j fj Hj. cbn [page fields set_fields].
  destruct (decide (h = j)) as [<-|Hne].
  - rewrite list_lookup_insert_eq by (eapply lookup_lt_Some, Hf).
    rewrite Hf in Hj. injection Hj as <-. now exists v, b.
  - rewrite list_lookup_insert_ne by exact Hne.
    exists (value fj), (selected fj). now rewrite set_state_id.
Qed.

Lemma state_only_trace w tr : state_only w {| page := page w; trace := tr |}.
Proof. intros h f Hf. exists (value f), (selected f). now rewrite set_state_id. Qed.

Lemma state_clear h : keeps state_only (clear h).
Proof.
  intros w. unfold clear. rewrite bind_run. unfold get_field.
  destruct (fields (page w) !! h) as [f|] eqn:Hf; [|apply state_only_refl].
  destruct (interactable f); [|apply state_only_refl].
  rewrite bind_run. unfold put_field, emit. cbn [snd page trace].
  apply (state_only_insert w h f); [exact Hf|].
  now exists (Some ""), (selected f).
Qed.

Lemma state_send_keys h keys : keeps state_only (send_keys h keys).
Proof.
  intros w. unfold send_keys. rewrite bind_run. unfold get_field.
  destruct (fields (page w) !! h) as [f|] eqn:Hf; [|apply state_only_refl].
  destruct (interactable f); [|apply state_only_refl].
  rewrite bind_run. unfold put_field, emit. cbn [snd page trace].
  apply (state_only_insert w h f); [exact Hf|].
  eexists _, (selected f). reflexivity.
Qed.

Lemma state_select h text : keeps state_only (select_by_visible_text h text).
Proof.
  intros w. unfold select_by_visible_text. rewrite bind_run. unfold get_field.
  destruct (fields (page w) !! h) as [f|] eqn:Hf; [|apply state_only_refl].
  destruct (existsb _ _); [|apply state_only_refl].
  destruct (interactable f); [|apply state_only_refl].
  rewrite bind_run. unfold put_field, emit. cbn [snd page trace].
  apply (state_only_insert w h f); [exact Hf|].
  now exists (Some text), (selected f).
Qed.

Lemma state_check_radio w h f tr :
  state_only w {| page := set_fields (page w) (check_radio h f (fields (page w)));
                  trace := tr |}.
Proof.
  intros j g Hg. cbn [page fields set_fields].
  rewrite check_radio_lookup, Hg. cbn [fmap option_fmap option_map].
  destruct (decide (j = h)); [now exists (value g), true|].
  destruct (decide _); [now exists (value g), false|].
  exists (value g), (selected g). now rewrite set_state_id.
Qed.

Lemma state_click h : keeps state_only (click h).
Proof.
  intros w. unfold click. rewrite bind_run. unfold get_field.
  destruct (fields (page w) !! h) as [f|] eqn:Hf; [|apply state_only_refl].
  destruct (interactable f); [|apply state_only_refl].
  rewrite bind_run. destruct (kind f); unfold put_field, emit, ret;
    cbn [snd page trace];
    try apply state_only_trace; try apply state_check_radio.
  apply (state_only_insert w h f); [exact Hf|].
  now exists (value f), (negb (selected f)).
Qed.

Ltac state_step :=
  first
    [ apply state_clear
    | apply state_send_keys
    | apply state_select
    | apply state_click
    | apply (keeps_for_each _ state_only_refl state_only_trans); intros
    | apply (keeps_for_each_break _ state_only_refl state_only_trans); intros
    | apply (keeps_any_of _ state_only_refl state_only_trans); intros
    | keeps_step state_only_refl state_only_trans
    | intros ?; apply state_only_refl ].

Lemma state_collect_groups radios groups :
  keeps state_only (collect_groups radios groups).
Proof.
  revert groups. induction radios as [|r radios IH]; intros groups;
    cbn [collect_groups]; [repeat state_step|].
  apply (keeps_bind _ state_only_trans); [repeat state_step|].
  intros groups'. apply IH.
Qed.

(** X27. Whether it completes or raises, the fill pass over a page
    changes nothing but the values and the checked states of controls: it
    clicks no button, the buttons, the labels, the presence of the modal
    and the number of controls stay, and every control keeps its kind,
    its attributes, its labels, its options and whether it is displayed,
    enabled and ready for input. *)
Theorem fill_pass_changes_state_only
    (qa : QuestionAnswerer) (docs : gmap string pyval)
    (abspath : string -> string) (path_exists : string -> bool) (w : World) :
  let w' := snd (_fill_current_page qa docs abspath path_exists w) in
  fill_frame w w' /\ state_only w w'.
Proof.
  cbv zeta. split; [apply frame_fill_current_page|].
  unfold _fill_current_page.
  destruct (modal_present (page w)); [|apply state_only_refl].
  revert w. fold (keeps state_only (fill_modal qa docs abspath path_exists)).
  unfold fill_modal, _fill_text_inputs, _fill_selects, _fill_radios,
    _fill_checkboxes, _fill_textareas, _handle_file_uploads, fill_text,
    fill_group, try_radio, skip_field, is_displayed, is_enabled, is_selected,
    _get_label_for.
  repeat first [ apply state_collect_groups | state_step ].
Qed.

(** *** The radio pass, group by group *)

Lemma sorted_split h l :
  StronglySorted lt l -> In h l ->
  exists before after,
    l = (before ++ h :: after)%list /\ (forall x, In x before -> x < h).
Proof.
  induction 1 as [|x l Hs IH Hx]; intros Hin; [contradiction|].
  destruct Hin as [->|Hin].
  - exists [], l. split; [reflexivity|]. intros ? [].
  - destruct (IH Hin) as (before & after & -> & Hlt).
    exists (x :: before), after. split; [reflexivity|].
    intros y [<-|Hy]; [|auto].
    rewrite List.Forall_forall in Hx. apply Hx, in_or_app. right. now left.
Qed.

Lemma radio_loop_first a before h after w f :
  radios_at (fields (page w)) (before ++ h :: after) ->
  (forall h' f', In h' before -> fields (page w) !! h' = Some f' ->
                 overlaps a (sibling_label f') && interactable f' = false) ->
  fields (page w) !! h = Some f ->
  overlaps a (sibling_label f) && interactable f = true ->
  for_each_break (before ++ h :: after) (try_radio a) w
  = (Ok tt, radio_clicked w h f).
Proof.
  intros Hr Hb Hf Ho. induction before as [|x before IH]; cbn [app for_each_break].
  - apply Forall_cons_1 in Hr as [(g & Hg & Hk) _]. rewrite Hf in Hg.
    injection Hg as <-.
    now rewrite bind_run, (try_radio_run a h w f Hf Hk), Ho.
  - cbn [app] in Hr. apply Forall_cons_1 in Hr as [(g & Hg & Hk) Hr].
    rewrite bind_run, (try_radio_run a x w g Hg Hk).
    rewrite (Hb x g (or_introl eq_refl) Hg). cbv beta iota.
    apply IH; [exact Hr|]. intros h' f' Hin. apply Hb. now right.
Qed.

Section Pass.
Variable qa : QuestionAnswerer.
Variable w : World.

Local Abbreviation fs := (fields (page w)).
Local Abbreviation radios := (handles_from 0 Radio (fields (page w))).
Local Abbreviation groups := (grouped (fields (page w)) radios []).

Lemma group_listed k first rest :
  members_of fs k radios = first :: rest -> In (k, first :: rest) groups.
Proof.
  intros Hm. pose proof (grouped_get fs radios [] k) as Hg.
  rewrite Hm in Hg. unfold group_get in Hg at 2. cbn [find app] in Hg.
  unfold group_get in Hg.
  destruct (find (fun g => fst g =? k) groups) as [[k' hs]|] eqn:E; [|discriminate].
  apply find_some in E as [Hin Hk]. cbn [fst snd] in Hk, Hg.
  apply String.eqb_eq in Hk. now subst.
Qed.

(** The radio pass, seen from a group [k] that has members: the groups
    before it, then [fill_group] on the members of [k], then the groups
    after it. *)
Lemma radio_pass_phases k first rest :
  members_of fs k radios = first :: rest ->
  exists w1 w2 w',
    group_kept k w w1 /\
    fill_group qa (first :: rest) w1 = (Ok tt, w2) /\
    (w2 = w1 \/ exists h f, w2 = radio_clicked w1 h f) /\
    shape fs (fields (page w2)) /\
    group_kept k w2 w' /\
    _fill_radios qa w = (Ok tt, w').
Proof.
  intros Hhs. pose proof (group_listed k first rest Hhs) as Hin.
  unfold _fill_radios. rewrite bind_run. cbn [find_elements].
  rewrite bind_run, collect_groups_run. cbv beta iota.
  fold (group_body qa).
  assert (Hothers : forall gs, incl gs groups -> ~ In k (map fst gs) ->
            forall fs', shape fs fs' ->
            Forall (fun g => fst g <> k /\ group_ok fs' g) gs).
  { intros gs Hincl Hk fs' Hs. apply List.Forall_forall. intros g Hg. split.
    - intros <-. apply Hk. now apply in_map.
    - eapply group_ok_shape; [exact Hs|]. apply groups_ok, Hincl, Hg. }
  pose proof (groups_ok w _ Hin) as [Hne Hmem]. cbn [fst snd] in Hne, Hmem.
  pose proof (groups_NoDup w) as Hnd.
  apply in_split in Hin as (G1 & G2 & HG). rewrite HG in Hnd |- *.
  rewrite map_app in Hnd. cbn [map fst] in Hnd.
  apply NoDup_app in Hnd as (_ & Hdisj & Hnd2).
  apply NoDup_cons in Hnd2 as [Hk2 _].
  assert (Hk1 : ~ In k (map fst G1)).
  { intros H. apply list_elem_of_In in H. apply (Hdisj k H). now left. }
  assert (Hk2' : ~ In k (map fst G2)) by (now rewrite <- list_elem_of_In).
  assert (Hi1 : incl G1 groups).
  { rewrite HG. intros g Hg. apply List.in_app_iff. now left. }
  assert (Hi2 : incl G2 groups).
  { rewrite HG. intros g Hg. apply List.in_app_iff. right. now right. }
  destruct (others_run qa k G1 w (Hothers G1 Hi1 Hk1 fs (shape_refl fs)))
    as (w1 & Hrun1 & Hkept1).
  pose proof Hkept1 as (_ & Hs1 & Hm1 & _).
  rewrite for_each_app, Hrun1. cbn [for_each]. rewrite bind_run.
  assert (Hmem1 : Forall (member (fields (page w1)) k) (first :: rest)).
  { eapply Forall_impl; [exact Hmem|]. intros h. now apply member_shape. }
  assert (Hf1 : exists f1, fields (page w1) !! first = Some f1).
  { apply Forall_cons_1 in Hmem1 as [(f1 & Hf1 & _) _]. now exists f1. }
  destruct Hf1 as [f1 Hf1]. unfold group_body at 1. cbn [snd].
  destruct (fill_group_cases qa k first rest f1 w1 Hmem1 Hf1)
    as [H|(h & f & Hinh & Hf & Hsel & Ho & H)]; rewrite H; cbv beta iota.
  - destruct (others_run qa k G2 w1 (Hothers G2 Hi2 Hk2' _ Hs1))
      as (w3 & Hrun3 & Hkept3).
    exists w1, w1, w3.
    exact (conj Hkept1 (conj H (conj (or_introl eq_refl)
             (conj Hs1 (conj Hkept3 Hrun3))))).
  - assert (Hs2 : shape fs (fields (page (radio_clicked w1 h f)))).
    { eapply shape_trans; [exact Hs1|apply shape_check_radio]. }
    destruct (others_run qa k G2 _ (Hothers G2 Hi2 Hk2' _ Hs2))
      as (w3 & Hrun3 & Hkept3).
    exists w1, (radio_clicked w1 h f), w3.
    exact (conj Hkept1 (conj H (conj (or_intror (ex_intro _ h (ex_intro _ f eq_refl)))
             (conj Hs2 (conj Hkept3 Hrun3))))).
Qed.

End Pass.


Lemma is_member_spec fs k h : is_member fs k h = true <-> member fs k h.
Proof.
  unfold is_member, member. destruct (fs !! h) as [f|].
  - rewrite andb_true_iff, bool_decide_eq_true, String.eqb_eq. split.
    + intros [Hk Hg]. now exists f.
    + intros (g & [= <-] & Hk & Hg). now split.
  - split; [discriminate | intros (g & [=] & _)].
Qed.

Lemma member_clicks_app fs k e1 e2 :
  member_clicks fs k (e1 ++ e2) = member_clicks fs k e1 + member_clicks fs k e2.
Proof. unfold member_clicks. now rewrite List.filter_app, length_app. Qed.

Lemma no_member_clicks fs k evs :
  (forall j, member fs k j -> ~ In (EvClickField j) evs) ->
  member_clicks fs k evs = 0.
Proof.
  unfold member_clicks. induction evs as [|e evs IH]; intros Hn; [reflexivity|].
  cbn [List.filter].
  assert (Hrest : forall j, member fs k j -> ~ In (EvClickField j) evs).
  { intros j Hj Hin. apply (Hn j Hj). now right. }
  destruct e; try (now apply IH).
  destruct (is_member fs k h) eqn:Hm; [|now apply IH].
  exfalso. apply is_member_spec in Hm. apply (Hn h Hm). now left.
Qed.

Lemma only_clicks_refl w : only_clicks w w.
Proof. exists []. split; [now rewrite app_nil_r | constructor]. Qed.

Lemma only_clicks_trans w1 w2 w3 :
  only_clicks w1 w2 -> only_clicks w2 w3 -> only_clicks w1 w3.
Proof.
  intros (e1 & T1 & F1) (e2 & T2 & F2). exists (e1 ++ e2)%list. split.
  - now rewrite T2, T1, app_assoc.
  - apply List.Forall_app. now split.
Qed.

Lemma clicks_click h : keeps only_clicks (click h).
Proof.
  intros w. unfold click. rewrite bind_run. unfold get_field.
  destruct (fields (page w) !! h) as [f|]; [|apply only_clicks_refl].
  destruct (interactable f); [|apply only_clicks_refl].
  rewrite bind_run. destruct (kind f); unfold put_field, emit, ret;
    cbn [snd page trace];
    (exists [EvClickField h]; split; [reflexivity | repeat constructor]).
Qed.

Lemma clicks_collect_groups radios groups :
  keeps only_clicks (collect_groups radios groups).
Proof.
  revert groups. induction radios as [|r radios IH]; intros groups;
    cbn [collect_groups]; [apply (keeps_ret _ only_clicks_refl)|].
  apply (keeps_bind _ only_clicks_trans).
  { repeat keeps_step only_clicks_refl only_clicks_trans. }
  intros groups'. apply IH.
Qed.

Lemma clicks_fill_radios qa : keeps only_clicks (_fill_radios qa).
Proof.
  unfold _fill_radios, fill_group, try_radio, is_selected, _get_label_for.
  repeat first
    [ apply clicks_collect_groups
    | apply clicks_click
    | apply (keeps_for_each _ only_clicks_refl only_clicks_trans); intros
    | apply (keeps_for_each_break _ only_clicks_refl only_clicks_trans); intros
    | apply (keeps_any_of _ only_clicks_refl only_clicks_trans); intros
    | keeps_step only_clicks_refl only_clicks_trans
    | intros ?; apply only_clicks_refl ].
Qed.

(** X29. Whether it completes or raises, the radio pass does nothing but
    click controls; in every group it clicks at most one radio; and it
    leaves every control that is not a radio exactly as it was. *)
Theorem radio_pass_footprint (qa : QuestionAnswerer) (w : World) (k : string) :
  let fs := fields (page w) in
  let w' := snd (_fill_radios qa w) in
  exists evs,
    trace w' = (trace w ++ evs)%list /\
    Forall is_field_click evs /\
    member_clicks fs k evs <= 1 /\
    (forall h f, fs !! h = Some f -> kind f <> Radio ->
                 fields (page w') !! h = Some f).
Proof.
  intros fs w0. subst fs w0.
  set (radios := handles_from 0 Radio (fields (page w))).
  destruct (radio_pass_run qa w k) as (w' & E & Hcase).
  rewrite E. cbn [snd].
  pose proof (clicks_fill_radios qa w) as (evs & T & Hclicks). rewrite E in T.
  cbn [snd] in T.
  exists evs. split; [exact T|]. split; [exact Hclicks|].
  split.
  - destruct (members_of (fields (page w)) k radios) as [|first rest] eqn:Hms.
    + rewrite no_member_clicks; [lia|]. intros j Hj.
      apply members_of_In in Hj. fold radios in Hj. now rewrite Hms in Hj.
    + destruct (radio_pass_phases qa w k first rest Hms)
        as (w1 & w2 & w'' & K1 & _ & Hmid & S2 & K3 & E').
      rewrite E in E'. injection E' as <-.
      destruct K1 as (_ & _ & _ & e1 & T1 & N1).
      destruct K3 as (_ & _ & _ & e3 & T3 & N3).
      assert (N3' : forall j, member (fields (page w)) k j -> ~ In (EvClickField j) e3).
      { intros j Hj. apply N3. eapply member_shape; [exact S2 | exact Hj]. }
      assert (Hevs : exists mid, evs = (e1 ++ mid ++ e3)%list /\
                                 member_clicks (fields (page w)) k mid <= 1).
      { destruct Hmid as [->|(h & f & ->)].
        - exists []. split; [|cbn; lia].
          rewrite T3, T1, <- app_assoc in T. now apply app_inv_head in T.
        - exists [EvClickField h]. split.
          + rewrite T3 in T. cbn [radio_clicked trace] in T.
            rewrite T1, <- !app_assoc in T. now apply app_inv_head in T.
          + unfold member_clicks. cbn [List.filter].
            destruct (is_member (fields (page w)) k h); cbn; lia. }
      destruct Hevs as (mid & -> & Hm).
      rewrite !member_clicks_app, (no_member_clicks (fields (page w)) k e1 N1),
        (no_member_clicks (fields (page w)) k e3 N3'). lia.
  - intros h f Hf Hk.
    destruct (radio_pass_same qa w h f Hf Hk) as (w'' & E' & _ & F).
    rewrite E in E'. injection E' as <-. exact F.
Qed.

End ChoiceFacts.

(** ** A profile fact of the wrong type *)

Module AbortFacts.
Import Py PyFacts QA QAFacts Dom Driver FormFiller Spec Samples XSpec XSamples.
Import MFacts TextFacts CollectFacts KeptFacts TotalFacts PassFacts LoopFacts.

Lemma py_lower_raises v e : py_lower v = Raise e -> e = AttributeError.
Proof. destruct v; cbn; congruence. Qed.

Lemma best_dropdown_option_raises self label options e :
  best_dropdown_option self label options = Raise e -> e = AttributeError.
Proof.
  unfold best_dropdown_option. destruct options as [|o0 os]; [discriminate|].
  destruct (_is_yes_no_question _).
  { destruct (first_option _ _); discriminate. }
  unfold education_block, experience_block, country_block, currency_block.
  unmonad.
  repeat match goal with
         | |- context [py_lower ?v] =>
             let E := fresh "E" in
             destruct (py_lower v) eqn:E; [|apply py_lower_raises in E]
         | |- context [if ?c then _ else _] => destruct c
         | |- context [first_option ?t ?o] => destruct (first_option t o)
         end;
    intros [=]; congruence.
Qed.

Lemma education_choice_raises self label options :
  options <> [] ->
  _is_yes_no_question (lower label) = false ->
  str_in "education" (lower label) || str_in "degree" (lower label) = true ->
  (forall s, dict_get (background self) "highest_education" (PyStr "") <> PyStr s) ->
  best_dropdown_option self label options = Raise AttributeError.
Proof.
  intros Hne Hq Hk Hv. destruct options as [|o0 os]; [congruence|].
  unfold best_dropdown_option. rewrite Hq. unfold education_block. rewrite Hk.
  destruct (dict_get _ _ _) as [| | |s]; try reflexivity. now destruct (Hv s).
Qed.

Section Abort.
Variable qa : QuestionAnswerer.

Lemma select_body_outcome sel w :
  (exists w', select_body qa sel w = (Ok tt, w')) \/
  select_body qa sel w = (Raise AttributeError, w).
Proof.
  destruct (fields (page w) !! sel) as [f|] eqn:Hf.
  - pose proof (select_body_run qa sel w f Hf) as H.
    destruct (best_dropdown_option _ _ _) as [best|e] eqn:Hb.
    + destruct H as (w' & E & _). left. now exists w'.
    + apply best_dropdown_option_raises in Hb as ->.
      specialize (H eq_refl). destruct (displayed f && enabled f);
        [now right | left; now exists w].
  - left. exists w. unfold select_body, skip_field, try_except, is_displayed.
    rewrite !bind_run. unfold get_field. now rewrite Hf.
Qed.

(** The loop over the select lists stops with [AttributeError] when the
    body raises it on one of them, [h], in whatever state the lists
    before it were left. *)
Lemma selects_abort h f ls hs w :
  kind f <> Radio ->
  (forall w1, fields (page w1) !! h = Some f -> labels (page w1) = ls ->
              select_body qa h w1 = (Raise AttributeError, w1)) ->
  In h hs -> fields (page w) !! h = Some f -> labels (page w) = ls ->
  exists w', for_each hs (select_body qa) w = (Raise AttributeError, w').
Proof.
  intros Hk Hraise. revert w. induction hs as [|x hs IH]; intros w Hin Hf Hl;
    [contradiction|].
  cbn [for_each]. rewrite bind_run.
  destruct (Nat.eq_dec x h) as [->|Hne].
  { rewrite (Hraise w Hf Hl). now exists w. }
  destruct Hin as [Hx|Hin]; [congruence|].
  destruct (select_body_outcome x w) as [[w1 E]|E]; rewrite E; [|now exists w].
  pose proof (same_select_body qa h x Hne w) as [L F]. rewrite E in L, F.
  cbn [snd] in L, F. apply IH; [exact Hin | now apply F | congruence].
Qed.

End Abort.


(** C3, as stated, fails.  With a highest education that is not text,
    the label "Highest degree" and two options, [best_dropdown_option]
    returns none of the options: it raises [AttributeError]. *)
Lemma best_option_not_always_returned :
  ["BSc"; "MSc"] <> [] /\
  dict_get (background untyped_qa) "highest_education" (PyStr "") = PyInt 3 /\
  best_dropdown_option untyped_qa "Highest degree" ["BSc"; "MSc"]
  = Raise AttributeError.
Proof. split; [discriminate|]. split; vm_compute; reflexivity. Qed.

(** C4, as stated, fails.  [degree_form] has no button, so that the
    probes for all five texts fail on it; with a highest education that is
    not text the run does not return [False]: it raises [AttributeError] in
    its first step, after filling the text input. *)
Lemma stuck_run_can_raise :
  Forall (fun text => probe_fails text degree_form) probe_texts /\
  fst (fill_application untyped_qa ∅ leave id (fun _ => false) (start degree_form))
  = Raise AttributeError /\
  trace (snd (fill_application untyped_qa ∅ leave id (fun _ => false)
                (start degree_form)))
  = [EvStep 1; EvClear 0; EvSendKeys 0 "Bangalore"].
Proof.
  split; [repeat constructor; left; constructor|].
  split; vm_compute; reflexivity.
Qed.

End AbortFacts.

(** ** The further properties at work on the samples *)

Module XWitnesses.
Import Py QA Dom Driver FormFiller Spec Samples XSpec XSamples.
Import TableFacts EngineFacts LabelFacts PassFacts PageFacts LoopFacts ChoiceFacts AbortFacts.

Lemma demo_qa_typed : text_facts demo_qa.
Proof. repeat split; eexists; vm_compute; reflexivity. Qed.

Lemma plain_qa_typed : text_facts plain_qa.
Proof. repeat split; eexists; vm_compute; reflexivity. Qed.

Lemma no_docs_typed : doc_paths ∅.
Proof. split; intros H; vm_compute in H; discriminate. Qed.

Lemma cv_docs_typed : doc_paths cv_docs.
Proof.
  split; intros H.
  - vm_compute in H. discriminate.
  - eexists. vm_compute. reflexivity.
Qed.

Lemma lower_keys_keeps_order_witness :
  lower_keys capital_rules
  = [("authorized to work", PyBool true); ("require sponsorship", PyBool false)].
Proof.
  refine (lower_keys_keeps_order capital_rules _).
  vm_compute. apply NoDup_cons. split; [|apply NoDup_singleton].
  intros H. apply list_elem_of_singleton in H. discriminate.
Defined.

Lemma first_configured_rule_wins_witness :
  answer demo_qa "Are you willing to relocate?" "boolean" = PyStr "Yes".
Proof.
  refine (proj1 (first_configured_rule_wins demo_qa "Are you willing to relocate?"
                   [] [] "willing to relocate" (PyBool true) _ _) _).
  - constructor.
  - vm_compute. reflexivity.
  - reflexivity.
Defined.

Lemma configured_rule_ignores_case_witness :
  answer (init capital_config) "Do you require sponsorship?" "boolean" = PyStr "No".
Proof.
  refine (configured_rule_ignores_case capital_config _ capital_rules
            [("Authorized To Work", PyBool true)] [] "Require Sponsorship"
            (PyBool false) "Do you require sponsorship?" _ _ _ _ _ _).
  - reflexivity.
  - reflexivity.
  - vm_compute. apply NoDup_cons. split; [|apply NoDup_singleton].
    intros H. apply list_elem_of_singleton in H. discriminate.
  - reflexivity.
  - repeat constructor.
  - vm_compute. reflexivity.
Defined.

Lemma answer_ignores_padding_witness :
  answer demo_qa ("  " ++ "Notice period" ++ " ") "numeric"
  = answer demo_qa "Notice period" "numeric".
Proof.
  refine (answer_ignores_padding demo_qa "  " "Notice period" " " "numeric" _ _);
    reflexivity.
Defined.

Lemma free_text_fallbacks_witness :
  answer plain_qa "Why do you want this job?" "text" = PyStr generic_text.
Proof.
  refine (proj2 (proj2 (proj2 (proj2
            (free_text_fallbacks plain_qa "Why do you want this job?" _ _) _) _) _) _).
  - constructor.
  - vm_compute. repeat constructor.
  - vm_compute. reflexivity.
  - vm_compute. reflexivity.
  - vm_compute. reflexivity.
  - vm_compute. reflexivity.
Defined.

Lemma yes_no_dropdown_choice_witness :
  best_dropdown_option demo_qa "Are you willing to relocate?" ["No"; "Yes"] = Ok "Yes".
Proof.
  refine (proj2 (yes_no_dropdown_choice demo_qa "Are you willing to relocate?"
                   ["No"; "Yes"] _) "Yes" _).
  - vm_compute. reflexivity.
  - exists ["No"], []. split; [reflexivity|]. split.
    + repeat constructor.
    + vm_compute. reflexivity.
Defined.

Lemma keyword_dropdown_choice_witness :
  best_dropdown_option demo_qa "Country of residence" ["United States"; "India"]
  = Ok "India".
Proof.
  refine (proj1 (proj2 (proj2 (keyword_dropdown_choice demo_qa "Country of residence"
                   ["United States"; "India"] "India" _) _) _) "India" _ _ _).
  - vm_compute. reflexivity.
  - vm_compute. reflexivity.
  - vm_compute. reflexivity.
  - vm_compute. reflexivity.
  - vm_compute. reflexivity.
  - exists ["United States"], []. split; [reflexivity|]. split.
    + repeat constructor.
    + vm_compute. reflexivity.
Defined.

Lemma dropdown_choice_needs_text_witness :
  best_dropdown_option untyped_qa "Highest degree" ["BSc"; "MSc"]
  = Raise AttributeError.
Proof.
  refine (proj1 (dropdown_choice_needs_text untyped_qa "Highest degree"
                   ["BSc"; "MSc"] _ _) _ _).
  - discriminate.
  - vm_compute. reflexivity.
  - vm_compute. reflexivity.
  - intros s. vm_compute. discriminate.
Defined.

Lemma label_resolution_witness : trimmed "City".
Proof.
  refine (proj1 (proj2 (proj2 (proj2
            (label_resolution 0 (start bound_form) (start bound_form) bound_input
               "City" _ _))) _ _ _)).
  - reflexivity.
  - vm_compute. reflexivity.
  - reflexivity.
  - reflexivity.
  - intros id [= <-]. reflexivity.
Defined.






Lemma review_probe_is_redundant_witness :
  start dead_page = start dead_page /\
  _try_review leave (start dead_page) = (Ok false, start dead_page).
Proof.
  refine (review_probe_is_redundant leave (start dead_page) (start dead_page) _).
  vm_compute. reflexivity.
Defined.


Lemma submitted_means_clicked_witness :
  ended_on_submit leave
    (snd (fill_application plain_qa ∅ leave id (fun _ => false) (start submit_page))) /\
  exists i,
    last (trace (snd (fill_application plain_qa ∅ leave id (fun _ => false)
                        (start submit_page))))
    = Some (EvClickButton i).
Proof.
  refine (submitted_means_clicked plain_qa ∅ leave id (fun _ => false)
            (start submit_page) _ _).
  vm_compute. reflexivity.
Defined.



End XWitnesses.
